(** * Anonymizer v3: a shallow embedding of [anonymizer_api/anonymizer.py]

    The development follows the sections of the Python module:
    auxiliary functions and checksum validators (section 2), masking
    functions and the rule table [_PATTERNS] (section 3), the collectors
    (section 4), the reconstruction [_apply] (section 5) and the two public
    entry points (section 6).

    Conventions of the embedding.
    - A Python [str] is a [list ascii]: the alphabet is the code points
      below 256.  On them [isdigit], [isdecimal], the whitespace skipped by
      [int()] and the class [\s] of the [regex] module are the ones of
      CPython and of that module.  [str.upper()] leaves this alphabet
      (U+00B5, U+00FF) or changes the length (U+00DF) on some code points
      from 128 on; [upper] follows it on ASCII and leaves the other
      characters as they are, and what is proved of [_is_valid_iban]
      either assumes an argument of ASCII digits and letters or is stated
      through [upper].
    - Offsets are [Z], and slices follow Python: negative indices count from
      the end and every index is clamped into the string.
    - A call that can raise returns a [result].
    - The compiled patterns, the date parser, the phone matcher and the
      spaCy pipeline are libraries; they enter as Section variables. *)

From Stdlib Require Import Ascii String DecimalString.
From Stdlib Require Import List ZArith Lia Bool Sorted Permutation.
Import ListNotations.
Local Open Scope Z_scope.

(** ** Exceptions *)

Inductive exn : Type :=
| ValueError
| IndexError
| ExternalError (origin : string).

Inductive result (A : Type) : Type :=
| Ok (a : A)
| Raise (e : exn).

Arguments Ok {A} a.
Arguments Raise {A} e.

Definition bind {A B : Type} (m : result A) (k : A -> result B) : result B :=
  match m with
  | Ok a => k a
  | Raise e => Raise e
  end.

Notation "x <- m ;; k" := (bind m (fun x => k))
  (at level 61, m at next level, right associativity).

Fixpoint mapM {A B : Type} (f : A -> result B) (l : list A) : result (list B) :=
  match l with
  | [] => Ok []
  | a :: l' => b <- f a ;; bs <- mapM f l' ;; Ok (b :: bs)
  end.

(** ** Python strings *)

Definition str : Type := list ascii.

Definition py (s : string) : str := list_ascii_of_string s.

Definition len (s : str) : Z := Z.of_nat (length s).

(** Index normalisation of a slice bound: [i + n] for a negative [i], and
    the result clamped to [0 .. n]. *)
Definition norm_index (n i : Z) : Z :=
  if i <? 0 then Z.max 0 (i + n) else Z.min i n.

(** [s[lo:hi]] *)
Definition slice (s : str) (lo hi : Z) : str :=
  let a := norm_index (len s) lo in
  let b := norm_index (len s) hi in
  firstn (Z.to_nat (b - a)) (skipn (Z.to_nat a) s).

(** [s[lo:]] *)
Definition slice_from (s : str) (lo : Z) : str := slice s lo (len s).

(** [s[:hi]] *)
Definition slice_to (s : str) (hi : Z) : str := slice s 0 hi.

(** [s[i]] *)
Definition index (s : str) (i : Z) : result ascii :=
  let j := if i <? 0 then i + len s else i in
  if (j <? 0) || (len s <=? j) then Raise IndexError
  else Ok (nth (Z.to_nat j) s zero).

(** ["c" * n], empty when [n <= 0] *)
Definition times (c : ascii) (n : Z) : str := repeat c (Z.to_nat n).

Definition str_eqb (a b : str) : bool :=
  if list_eq_dec ascii_dec a b then true else false.

Definition startswith (s prefix : str) : bool :=
  str_eqb (firstn (length prefix) s) prefix.

(** [str(n)] for an integer *)
Definition str_of_Z (n : Z) : str := py (NilZero.string_of_int (Z.to_int n)).

(** *** Character classes *)

Definition code (c : ascii) : Z := Z.of_N (N_of_ascii c).

Definition in_range (lo hi : Z) (c : ascii) : bool :=
  (lo <=? code c) && (code c <=? hi).

(** [ch.isdecimal()]: the digits 0 to 9, the only digits [int()] reads. *)
Definition isdecimal_char (c : ascii) : bool := in_range 48 57 c.

(** The superscript digits U+00B2, U+00B3 and U+00B9. *)
Definition superscript_digit (c : ascii) : bool :=
  (code c =? 178) || (code c =? 179) || (code c =? 185).

(** [ch.isdigit()]: the decimal digits and the superscript digits. *)
Definition isdigit_char (c : ascii) : bool := isdecimal_char c || superscript_digit c.

(** [s.isdigit()]: every character is a digit and there is at least one *)
Definition isdigit (s : str) : bool :=
  match s with
  | [] => false
  | _ => forallb isdigit_char s
  end.

(** [s.isdecimal()] *)
Definition isdecimal (s : str) : bool :=
  match s with
  | [] => false
  | _ => forallb isdecimal_char s
  end.

(** The class [\s] of the pattern engine: tab, newline, vertical tab, form
    feed, carriage return, space, next line (U+0085) and no-break space
    (U+00A0). *)
Definition re_space (c : ascii) : bool :=
  in_range 9 13 c || (code c =? 32) || (code c =? 133) || (code c =? 160).

(** The whitespace [int()] skips at both ends of its argument: the same
    characters. *)
Definition int_space (c : ascii) : bool :=
  in_range 9 13 c || (code c =? 32) || (code c =? 133) || (code c =? 160).

(** [ch.upper()] of an ASCII character; a character from 128 on is left as
    it is (see the conventions above). *)
Definition upper_char (c : ascii) : ascii :=
  if in_range 97 122 c then ascii_of_N (N_of_ascii c - 32) else c.

(** [s.upper()] *)
Definition upper (s : str) : str := map upper_char s.

(** *** [int(s)] in base 10

    Optional whitespace at both ends, an optional sign, then decimal digits
    in which single underscores may separate two digits.  The arguments in
    this module have at most 54 characters, far below the limit the
    interpreter puts on the number of digits. *)

Fixpoint lstrip (s : str) : str :=
  match s with
  | c :: s' => if int_space c then lstrip s' else s
  | [] => []
  end.

Definition strip_ws (s : str) : str := rev (lstrip (rev (lstrip s))).

Fixpoint int_digits (acc : Z) (after_digit : bool) (s : str) : option Z :=
  match s with
  | [] => if after_digit then Some acc else None
  | c :: s' =>
      if Ascii.eqb c "_"
      then (if after_digit then int_digits acc false s' else None)
      else if isdecimal_char c
           then int_digits (10 * acc + (code c - 48)) true s'
           else None
  end.

Definition int_literal (s : str) : option Z :=
  match strip_ws s with
  | [] => None
  | c :: r =>
      if Ascii.eqb c "+" then int_digits 0 false r
      else if Ascii.eqb c "-" then option_map Z.opp (int_digits 0 false r)
      else int_digits 0 false (c :: r)
  end.

Definition py_int (s : str) : result Z :=
  match int_literal s with
  | Some v => Ok v
  | None => Raise ValueError
  end.

(** ** 2) Auxiliary functions *)

(** [regex.sub(r"[\s-]", "", acc)] *)
Definition _strip (acc : str) : str :=
  filter (fun c => negb (re_space c || Ascii.eqb c "-")) acc.

(** *** IBAN validation *)

(** [{chr(i + 55): str(i) for i in range(10, 36)}] *)
Definition _alpha_to_num : list (ascii * str) :=
  map (fun i : nat => (ascii_of_nat (i + 55), str_of_Z (Z.of_nat i))) (seq 10 26).

(** [d.get(ch, ch)] on that table *)
Fixpoint dict_get (d : list (ascii * str)) (ch : ascii) (default : str) : str :=
  match d with
  | [] => default
  | (k, v) :: d' => if Ascii.eqb k ch then v else dict_get d' ch default
  end.

Definition _iban_to_numeric (iban : str) : str :=
  concat (map (fun ch => dict_get _alpha_to_num ch [ch]) iban).

Definition _is_valid_iban (iban : str) : result bool :=
  let raw := upper (_strip iban) in
  if negb (startswith raw (py "FR")) || negb (len raw =? 27) then Ok false
  else
    let rearr := slice_from raw 4 ++ slice_to raw 4 in
    num <- py_int (_iban_to_numeric rearr) ;;
    Ok (num mod 97 =? 1).

(** *** Luhn validation for cards *)

(** The [for i, d in enumerate(digits)] loop, with [check_sum] threaded. *)
Fixpoint luhn_loop (i : Z) (check_sum : Z) (digits : list Z) : Z :=
  match digits with
  | [] => check_sum
  | d :: rest =>
      let d :=
        if negb (i mod 2 =? 0)
        then (let d := d * 2 in if d >? 9 then d - 9 else d)
        else d in
      luhn_loop (i + 1) (check_sum + d) rest
  end.

Definition _is_valid_luhn (number : str) : result bool :=
  ds <- mapM (fun d => py_int [d]) (filter isdigit_char number) ;;
  let digits := rev ds in
  let check_sum := luhn_loop 0 0 digits in
  Ok (check_sum mod 10 =? 0).

(** *** NIR key validation *)

Definition _is_valid_nir (nir : str) : result bool :=
  let num := _strip nir in
  if negb (len num =? 15) || negb (isdigit num) then Ok false
  else
    key <- py_int (slice_from num (-2)) ;;
    n <- py_int (slice_to num (-2)) ;;
    Ok (97 - n mod 97 =? key).

(** ** 3) Regex patterns and masking functions *)

(** The compiled patterns of the module. *)
Inductive pattern : Type :=
| _addr_pat
| _iban_pat
| _rib_pat
| _date_num_pat
| _date_alpha_pat
| _passport_pat
| _permis_pat
| _plate_pat
| _card_pat
| _email_pat
| _nir_pat.

(** *** Masks *)

Definition _mask_generic (label : str) : str := label.

(** [x.split(sep, 1)] *)
Fixpoint split1 (sep : ascii) (x : str) : list str :=
  match x with
  | [] => [[]]
  | c :: x' =>
      if Ascii.eqb c sep then [[]; x']
      else match split1 sep x' with
           | h :: t => (c :: h) :: t
           | [] => [[c]]
           end
  end.

Definition _mask_email (x : str) : result str :=
  match split1 "@" x with
  | [local; domain] =>
      masked_local <-
        (if len local <=? 2 then Ok (times "*" (len local))
         else
           first <- index local 0 ;;
           last <- index local (-1) ;;
           Ok ([first] ++ times "*" (len local - 2) ++ [last])) ;;
      Ok (masked_local ++ py "@" ++ domain)
  | _ => Raise ValueError
  end.

Definition _mask_card (x : str) : str :=
  let digits := _strip x in
  times "*" (len digits - 4) ++ slice_from digits (-4).

Definition _mask_phone (x : str) : str :=
  let digits := _strip x in
  times "X" (len digits - 2) ++ slice_from digits (-2).

Definition _mask_iban (x : str) : str :=
  let tail := slice_from (_strip x) (-4) in
  py "FR************" ++ tail.

Definition _mask_rib (x : str) : str := py "************" ++ slice_from x (-4).

Definition _mask_nir (x : str) : str := py "***********" ++ slice_from x (-4).

Definition _mask_passport (x : str) : str :=
  slice_to x 2 ++ times "*" (len x - 4) ++ slice_from x (-2).

Definition _mask_license (x : str) : str := py "PERMIS********".

(** ** 4) Collecting the replacements *)

Record _Repl : Type := mk_Repl { start : Z; end_ : Z; repl : str }.

(** An entity of a spaCy document, and the document. *)
Record Span : Type :=
  mk_Span { label_ : str; ent_text : str; start_char : Z; end_char : Z }.

Record Doc : Type := mk_Doc { ents : list Span }.

(** A match of the phone matcher: the parsed number and its offsets. *)
Record PhoneNumberMatch (phonenumber : Type) : Type :=
  mk_PhoneNumberMatch { number : phonenumber; pm_start : Z; pm_end : Z }.

Arguments mk_PhoneNumberMatch {phonenumber}.
Arguments number {phonenumber}.
Arguments pm_start {phonenumber}.
Arguments pm_end {phonenumber}.

Definition _gather_person_ent (ent : Span) (out : list _Repl) : result (list _Repl) :=
  if str_eqb (label_ ent) (py "PER") then
    masked <-
      (if len (ent_text ent) >? 1
       then first <- index (ent_text ent) 0 ;;
            Ok ([first] ++ times "*" (len (ent_text ent) - 1))
       else Ok (py "*")) ;;
    Ok (out ++ [mk_Repl (start_char ent) (end_char ent) masked])
  else Ok out.

Fixpoint _gather_person_loop (es : list Span) (out : list _Repl) : result (list _Repl) :=
  match es with
  | [] => Ok out
  | ent :: es' => out' <- _gather_person_ent ent out ;; _gather_person_loop es' out'
  end.

Definition _gather_person (doc : Doc) : result (list _Repl) :=
  _gather_person_loop (ents doc) [].

(** ** 5) Applying the replacements *)

(** [repls.sort(key=lambda r: r.start)].  The sort of Python lists is
    stable, so its result is determined: ascending keys, equal keys in their
    original order.  Inserting from the right, each element in front of the
    first one whose key is not smaller, computes that list. *)
Fixpoint insort (r : _Repl) (l : list _Repl) : list _Repl :=
  match l with
  | [] => [r]
  | x :: l' => if start r <=? start x then r :: l else x :: insort r l'
  end.

Definition sort_by_start (repls : list _Repl) : list _Repl :=
  fold_right insort [] repls.

(** The [for r in repls] loop of [_apply]; the state is [(out, cursor)]. *)
Fixpoint apply_loop (text : str) (rs : list _Repl) (out : list str) (cursor : Z)
  : list str * Z :=
  match rs with
  | [] => (out, cursor)
  | r :: rs' =>
      if start r <? cursor then apply_loop text rs' out cursor
      else
        let out := out ++ [slice text cursor (start r)] in
        let out := out ++ [repl r] in
        apply_loop text rs' out (end_ r)
  end.

Definition _apply (text : str) (repls : list _Repl) : str :=
  match repls with
  | [] => text
  | _ =>
      let repls := sort_by_start repls in
      let '(out, cursor) := apply_loop text repls [] 0 in
      let out := out ++ [slice_from text cursor] in
      concat out
  end.

Section Anonymizer.

(** The libraries the module calls. *)
Variable finditer : pattern -> str -> list (Z * Z).
Variable _dt_parse_year : str -> result Z.
Variable phonenumber : Type.
Variable PhoneNumberMatcher : str -> result (list (PhoneNumberMatch phonenumber)).
Variable is_possible_number : phonenumber -> bool.
Variable _nlp : str -> result Doc.
Variable _nlp_pipe : list str -> list (result Doc).

Definition _mask_date (x : str) : str :=
  match _dt_parse_year x with
  | Ok year => py "XX/XX/" ++ str_of_Z year
  | Raise _ => py "DATE"
  end.

Definition rule : Type :=
  (pattern * (str -> result str) * option (str -> result bool))%type.

(** Mapping pattern -> mask, in the order of the source. *)
Definition _PATTERNS : list rule :=
  [ (_addr_pat, fun _ => Ok (py "ADRESSE"), None);
    (_iban_pat, fun x => Ok (_mask_iban x), Some _is_valid_iban);
    (_rib_pat, fun x => Ok (_mask_rib x), None);
    (_date_num_pat, fun x => Ok (_mask_date x), None);
    (_date_alpha_pat, fun x => Ok (_mask_date x), None);
    (_passport_pat, fun x => Ok (_mask_passport x), None);
    (_permis_pat, fun x => Ok (_mask_license x), None);
    (_plate_pat, fun _ => Ok (py "IMMATRICULATION"), None);
    (_card_pat, fun x => Ok (_mask_card x), Some _is_valid_luhn);
    (_email_pat, _mask_email, None);
    (_nir_pat, fun x => Ok (_mask_nir x), Some _is_valid_nir) ].

(** The inner loop of [_gather_regex]: the matches of one pattern. *)
Fixpoint gather_matches (text : str) (masker : str -> result str)
    (validator : option (str -> result bool)) (ms : list (Z * Z))
    (out : list _Repl) : result (list _Repl) :=
  match ms with
  | [] => Ok out
  | (m_start, m_end) :: ms' =>
      let group0 := slice text m_start m_end in
      val_ok <- match validator with
                | Some v => v group0
                | None => Ok true
                end ;;
      if (val_ok : bool) then
        masked <- masker group0 ;;
        gather_matches text masker validator ms'
          (out ++ [mk_Repl m_start m_end masked])
      else gather_matches text masker validator ms' out
  end.

(** The outer loop, over the rules. *)
Fixpoint gather_rules (text : str) (rules : list rule) (out : list _Repl)
  : result (list _Repl) :=
  match rules with
  | [] => Ok out
  | (pat, masker, validator) :: rules' =>
      out' <- gather_matches text masker validator (finditer pat text) out ;;
      gather_rules text rules' out'
  end.

Definition _gather_regex (text : str) : result (list _Repl) :=
  gather_rules text _PATTERNS [].

Fixpoint _gather_phones_loop (text : str)
    (ms : list (PhoneNumberMatch phonenumber)) (out : list _Repl) : list _Repl :=
  match ms with
  | [] => out
  | m :: ms' =>
      let num := number m in
      if negb (is_possible_number num) then _gather_phones_loop text ms' out
      else
        let raw := slice text (pm_start m) (pm_end m) in
        _gather_phones_loop text ms'
          (out ++ [mk_Repl (pm_start m) (pm_end m) (_mask_phone raw)])
  end.

Definition _gather_phones (text : str) : result (list _Repl) :=
  ms <- PhoneNumberMatcher text ;;
  Ok (_gather_phones_loop text ms []).

(** ** 6) Public API *)

Definition anonymize_all (text : str) : result str :=
  repls <- _gather_regex text ;;
  phones <- _gather_phones text ;;
  let repls := repls ++ phones in
  doc <- _nlp text ;;
  persons <- _gather_person doc ;;
  let repls := repls ++ persons in
  Ok (_apply text repls).

(** The loop over [zip(texts, regex_batches, phone_batches, docs,
    strict=True)].  [docs] is the generator of the pipeline: an element
    [Raise e] is the point where pulling the next document raises. *)
Fixpoint many_loop (texts : list str) (regex_batches phone_batches : list (list _Repl))
    (docs : list (result Doc)) (results : list str) : result (list str) :=
  match texts, regex_batches, phone_batches, docs with
  | [], [], [], [] => Ok results
  | txt :: texts', reg_r :: regex_batches', ph_r :: phone_batches', d :: docs' =>
      doc <- d ;;
      persons <- _gather_person doc ;;
      let repls := (reg_r ++ ph_r) ++ persons in
      many_loop texts' regex_batches' phone_batches' docs'
        (results ++ [_apply txt repls])
  | [], [], [], Raise e :: _ => Raise e
  | _, _, _, _ => Raise ValueError
  end.

Definition anonymize_all_many (texts : list str) : result (list str) :=
  regex_batches <- mapM _gather_regex texts ;;
  phone_batches <- mapM _gather_phones texts ;;
  let docs := _nlp_pipe texts in
  many_loop texts regex_batches phone_batches docs [].

End Anonymizer.

(** ** Specification vocabulary *)

(** *** Overlap resolution *)

Definition has_start (s : Z) (r : _Repl) : bool := start r =? s.

(** The invariant of a span in the data model: it covers at least one
    character. *)
Definition nonempty (r : _Repl) : Prop := start r < end_ r.

Definition by_start (a b : _Repl) : Prop := start a <= start b.

(** The spans a cursor walk keeps: a span that starts before the cursor is
    discarded, any other is kept and moves the cursor to its end. *)
Fixpoint accepted (rs : list _Repl) (cursor : Z) : list _Repl :=
  match rs with
  | [] => []
  | r :: rs' =>
      if start r <? cursor then accepted rs' cursor
      else r :: accepted rs' (end_ r)
  end.

(** The text written for a list of kept spans: before each span the literal
    text from the cursor to its start, then its replacement; after the last
    one the rest of the text. *)
Fixpoint render (text : str) (rs : list _Repl) (cursor : Z) : str :=
  match rs with
  | [] => slice_from text cursor
  | r :: rs' => slice text cursor (start r) ++ repl r ++ render text rs' (end_ r)
  end.

(** Kept spans follow one another without overlap, from [cursor] on. *)
Fixpoint chained (cursor : Z) (rs : list _Repl) : Prop :=
  match rs with
  | [] => True
  | r :: rs' => cursor <= start r /\ chained (end_ r) rs'
  end.

(** A span with both offsets cut down to the length [n] of the text. *)
Definition clamp (n : Z) (r : _Repl) : _Repl :=
  mk_Repl (Z.min (start r) n) (Z.min (end_ r) n) (repl r).

Definition in_text (n : Z) (r : _Repl) : Prop :=
  0 <= start r <= n /\ 0 <= end_ r <= n.

(** The characters of [text] at positions [a .. b-1], with no clamping. *)
Definition substr (text : str) (a b : nat) : str := firstn (b - a) (skipn a text).

(** *** The collectors *)

(** What one rule of the table contributes for a text. *)
Definition rule_spans (finditer : pattern -> str -> list (Z * Z)) (text : str)
    (rl : rule) : result (list _Repl) :=
  let '(pat, masker, validator) := rl in
  gather_matches text masker validator (finditer pat text) [].

(** The offsets of a match lie in the text and enclose at least one
    character. *)
Definition match_in (text : str) (m : Z * Z) : Prop :=
  0 <= fst m /\ fst m < snd m /\ snd m <= len text.

(** ** Stand-ins for the libraries, used in the worked examples *)

(** A matcher that recognises a text only as a whole: a run of digits as a
    card number, twelve digits also as a licence number, a text around an
    [@] as an email address. *)
Definition stub_finditer (p : pattern) (text : str) : list (Z * Z) :=
  match p with
  | _permis_pat => if isdecimal text && (len text =? 12) then [(0, 12)] else []
  | _card_pat => if isdecimal text then [(0, len text)] else []
  | _email_pat => if existsb (Ascii.eqb "@") text then [(0, len text)] else []
  | _ => []
  end.

Definition stub_dt_parse_year (x : str) : result Z := Raise ValueError.

(** A phone matcher that reports the first ten characters of a text that
    begins with 06. *)
Definition stub_matcher (text : str) : result (list (PhoneNumberMatch unit)) :=
  if startswith text (py "06") then Ok [mk_PhoneNumberMatch tt 0 10] else Ok [].

Definition stub_possible (n : unit) : bool := true.

(** A pipeline that tags the first five characters of such a text as a
    person. *)
Definition stub_nlp (text : str) : result Doc :=
  if startswith text (py "06")
  then Ok (mk_Doc [mk_Span (py "PER") (slice text 0 5) 0 5])
  else Ok (mk_Doc []).

Definition stub_pipe (texts : list str) : list (result Doc) := map stub_nlp texts.

(** A pipeline whose generator raises when asked for the second document. *)
Definition stub_pipe_failing (texts : list str) : list (result Doc) :=
  match texts with
  | t :: _ :: _ => [stub_nlp t; Raise (ExternalError "ner")]
  | _ => map stub_nlp texts
  end.

(** *** The checksums, in the words of the specification *)

(** The number a string of decimal digits stands for, continuing from
    [acc]. *)
Definition decimal_value_from (acc : Z) (s : str) : Z :=
  fold_left (fun acc c => 10 * acc + (code c - 48)) s acc.

(** The decimal digits of a string, as numbers. *)
Definition digit_values (s : str) : list Z :=
  map (fun c => code c - 48) (filter isdecimal_char s).

(** A doubled digit, less 9 when the double exceeds 9. *)
Definition luhn_double (d : Z) : Z :=
  let e := 2 * d in if 9 <? e then e - 9 else e.

(** The sum over the digits read from the last one backwards: the last
    digit as it is, the one before it doubled, and so on in turn. *)
Fixpoint luhn_sum (reversed : list Z) : Z :=
  match reversed with
  | [] => 0
  | d :: rest =>
      match rest with
      | [] => d
      | e :: rest' => d + luhn_double e + luhn_sum rest'
      end
  end.


(** A=10 ... Z=35 *)
Definition letter_value (c : ascii) : option Z :=
  if in_range 65 90 c then Some (code c - 55) else None.

(** A character of an IBAN: a digit or a capital letter. *)
Definition iban_char (c : ascii) : bool := isdecimal_char c || in_range 65 90 c.

(** Each letter replaced by the two decimal digits of its value. *)
Definition numeral_of_char (c : ascii) : str :=
  match letter_value c with
  | Some v => str_of_Z v
  | None => [c]
  end.

Definition numeral (w : str) : str := concat (map numeral_of_char w).

(** The number a string of digits and capital letters stands for: a digit
    shifts the number by one decimal place, a letter by two. *)
Definition iban_value (w : str) : Z :=
  fold_left
    (fun acc c =>
       if isdecimal_char c then 10 * acc + (code c - 48)
       else 100 * acc + (code c - 55))
    w 0.

(** The first four characters moved to the end. *)
Definition rearranged (raw : str) : str := skipn 4 raw ++ firstn 4 raw.

Definition iban_accepted (s : str) : Prop :=
  let raw := upper (_strip s) in
  startswith raw (py "FR") = true /\
  len raw = 27 /\
  exists v, int_literal (numeral (rearranged raw)) = Some v /\ v mod 97 = 1.

(** The string [s] with the character at position [i] replaced by [c]. *)
Definition replace_nth (i : nat) (c : ascii) (s : str) : str :=
  firstn i s ++ c :: skipn (S i) s.


(** A digit, a capital or a small letter. *)
Definition alnum_char (c : ascii) : bool :=
  isdecimal_char c || in_range 65 90 c || in_range 97 122 c.

(** *** Vocabulary for the further properties *)

(** The number of decimal places a string of digits and capital letters
    takes once its letters are expanded: one for a digit, two for a
    letter. *)
Definition places (w : str) : nat :=
  fold_right (fun c n => ((if isdecimal_char c then 1 else 2) + n)%nat) 0%nat w.

(** The rule of the table for IBANs. *)
Definition iban_rule : rule :=
  (_iban_pat, fun x => Ok (_mask_iban x), Some _is_valid_iban).

(** What the digit [d] adds to the Luhn sum at index [i] of the reversed
    digits. *)
Definition luhn_weight (i d : Z) : Z :=
  if i mod 2 =? 0 then d else luhn_double d.

(** The value of one character of an IBAN: a digit counts for itself, a
    capital letter for 10 to 35. *)
Definition char_value (c : ascii) : Z :=
  if isdecimal_char c then code c - 48 else code c - 55.

(** The entities [_gather_person] keeps, and the span it makes of one. *)
Definition is_person (ent : Span) : bool := str_eqb (label_ ent) (py "PER").

Definition person_mask (text : str) : str :=
  match text with
  | first :: _ :: _ => first :: repeat "*"%char (length text - 1)
  | _ => py "*"
  end.

Definition person_span (ent : Span) : _Repl :=
  mk_Repl (start_char ent) (end_char ent) (person_mask (ent_text ent)).

(** The span [_gather_phones] makes of a match. *)
Definition phone_span {phonenumber : Type} (text : str)
    (m : PhoneNumberMatch phonenumber) : _Repl :=
  mk_Repl (pm_start m) (pm_end m) (_mask_phone (slice text (pm_start m) (pm_end m))).

(** Whether the validator of a rule lets a matched text through. *)
Definition validated (validator : option (str -> result bool)) (group0 : str) : bool :=
  match validator with
  | None => true
  | Some v => match v group0 with Ok true => true | _ => false end
  end.

Definition offsets (r : _Repl) : Z * Z := (start r, end_ r).

(** A matcher that reports, as the IBAN pattern does, the first 25
    characters of a text that begins with FR, and is [stub_finditer] for
    the other patterns. *)
Definition stub_iban_finditer (p : pattern) (text : str) : list (Z * Z) :=
  match p with
  | _iban_pat => if startswith text (py "FR") then [(0, Z.min 25 (len text))] else []
  | _ => stub_finditer p text
  end.

(** By how much a span changes the length of the text when applied. *)
Definition growth (r : _Repl) : Z := len (repl r) - (end_ r - start r).

Definition total_growth (rs : list _Repl) : Z :=
  fold_right (fun r acc => growth r + acc) 0 rs.

(** Two spans that share no position. *)
Definition disjoint (a b : _Repl) : Prop :=
  end_ a <= start b \/ end_ b <= start a.

(** A span moved by [k] positions. *)
Definition shift (k : Z) (r : _Repl) : _Repl :=
  mk_Repl (start r + k) (end_ r + k) (repl r).

(** A span with ordered offsets between [a] and [b]. *)
Definition within (a b : Z) (r : _Repl) : Prop :=
  a <= start r /\ start r <= end_ r /\ end_ r <= b.

(** [e] is what the first failing call of [f] along [l] raises. *)
Definition first_failure {A B : Type} (f : A -> result B) (l : list A) (e : exn) : Prop :=
  exists l1 x l2,
    l = l1 ++ x :: l2 /\ Forall (fun y => exists b, f y = Ok b) l1 /\ f x = Raise e.

(** A phone matcher that raises on a text that begins with an exclamation
    mark, and is [stub_matcher] otherwise. *)
Definition stub_matcher_failing (text : str) : result (list (PhoneNumberMatch unit)) :=
  if startswith text (py "!") then Raise (ExternalError "phonenumbers")
  else stub_matcher text.

(** A pipeline that raises on a text that begins with a question mark. *)
Definition stub_nlp_failing (text : str) : result Doc :=
  if startswith text (py "?") then Raise (ExternalError "ner") else stub_nlp text.

(** A pipeline that yields no document for the last text. *)
Definition stub_pipe_short (texts : list str) : list (result Doc) :=
  map stub_nlp (removelast texts).

(** * The HTTP API: [anonymizer_api/main.py] *)

(** [s.encode()], the UTF-8 bytes of a string: a code point below 128 is
    one byte, a code point from 128 to 255 is two. *)
Definition encode_char (c : ascii) : list Byte.byte :=
  let n := N_of_ascii c in
  if (n <? 128)%N then [byte_of_ascii c]
  else [byte_of_ascii (ascii_of_N (192 + n / 64));
        byte_of_ascii (ascii_of_N (128 + n mod 64))].

Definition encode (s : str) : list Byte.byte := flat_map encode_char s.

Definition len_bytes (b : list Byte.byte) : Z := Z.of_nat (length b).

(** A character that takes two bytes. *)
Definition wide (c : ascii) : bool := 128 <=? code c.

(** The Pydantic models. *)
Module SingleIn.
Record t : Type := mk { text : str }.
End SingleIn.

Module BatchIn.
Record t : Type := mk { texts : list str }.
End BatchIn.

Module SingleOut.
Record t : Type := mk { anonymized_text : str }.
End SingleOut.

Module BatchOut.
Record t : Type := mk { anonymized_text : list str }.
End BatchOut.

(** What a call of an endpoint function does: it returns a body, raises an
    [HTTPException], or lets an exception of the anonymizer through. *)
Inductive response (A : Type) : Type :=
| Returned (body : A)
| HTTPException (status_code : Z) (detail : str)
| Uncaught (e : exn).

Arguments Returned {A} body.
Arguments HTTPException {A} status_code detail.
Arguments Uncaught {A} e.

Section Api.

Variable finditer : pattern -> str -> list (Z * Z).
Variable _dt_parse_year : str -> result Z.
Variable phonenumber : Type.
Variable PhoneNumberMatcher : str -> result (list (PhoneNumberMatch phonenumber)).
Variable is_possible_number : phonenumber -> bool.
Variable _nlp : str -> result Doc.
Variable _nlp_pipe : list str -> list (result Doc).

(** [int(os.getenv("MAX_PAYLOAD_SIZE", "51200"))], read from the
    environment when the module is loaded. *)
Variable MAX_PAYLOAD : Z.

Definition anonymize (payload : SingleIn.t) : response SingleOut.t :=
  if len_bytes (encode (SingleIn.text payload)) >? MAX_PAYLOAD
  then HTTPException 413 (py "Payload too large")
  else
    match anonymize_all finditer _dt_parse_year phonenumber PhoneNumberMatcher
            is_possible_number _nlp (SingleIn.text payload) with
    | Ok out => Returned (SingleOut.mk out)
    | Raise e => Uncaught e
    end.

Definition anonymize_batch (payload : BatchIn.t) : response BatchOut.t :=
  let total :=
    fold_left Z.add (map (fun t => len_bytes (encode t)) (BatchIn.texts payload)) 0 in
  if total >? MAX_PAYLOAD
  then HTTPException 413 (py "Batch payload too large")
  else
    match anonymize_all_many finditer _dt_parse_year phonenumber PhoneNumberMatcher
            is_possible_number _nlp_pipe (BatchIn.texts payload) with
    | Ok outs => Returned (BatchOut.mk outs)
    | Raise e => Uncaught e
    end.

End Api.

(** The bytes of a batch, as [anonymize_batch] counts them. *)
Definition total_bytes (texts : list str) : Z :=
  fold_left Z.add (map (fun t => len_bytes (encode t)) texts) 0.

(** * Facts *)

(** Boolean comparisons of the context, as propositions. *)
Ltac zbool :=
  repeat match goal with
    | H : (_ <? _) = true |- _ => apply Z.ltb_lt in H
    | H : (_ <? _) = false |- _ => apply Z.ltb_ge in H
    | H : (_ <=? _) = true |- _ => apply Z.leb_le in H
    | H : (_ <=? _) = false |- _ => apply Z.leb_gt in H
    | H : (_ =? _) = true |- _ => apply Z.eqb_eq in H
    | H : (_ =? _) = false |- _ => apply Z.eqb_neq in H
    end.

(** ** Slices *)

Lemma norm_index_bounds n i : 0 <= n -> 0 <= norm_index n i <= n.
Proof. unfold norm_index. destruct (i <? 0) eqn:E; lia. Qed.

Lemma len_nonneg s : 0 <= len s.
Proof. unfold len. lia. Qed.

Lemma slice_from_0 text : slice_from text 0 = text.
Proof.
  pose proof (len_nonneg text) as Hn. unfold slice_from, slice.
  replace (norm_index (len text) 0) with 0
    by (unfold norm_index; simpl; lia).
  replace (norm_index (len text) (len text)) with (len text)
    by (unfold norm_index; destruct (len text <? 0) eqn:E; lia).
  rewrite Z.sub_0_r. unfold len. rewrite Nat2Z.id.
  simpl. apply firstn_all.
Qed.

Lemma slice_same text c : slice text c c = [].
Proof. unfold slice. rewrite Z.sub_diag. reflexivity. Qed.

Lemma slice_clamp text lo hi :
  0 <= lo -> 0 <= hi ->
  slice text (Z.min lo (len text)) (Z.min hi (len text)) = slice text lo hi.
Proof.
  intros Hlo Hhi. unfold slice, norm_index. pose proof (len_nonneg text).
  destruct (lo <? 0) eqn:E1; [lia|]. destruct (hi <? 0) eqn:E2; [lia|].
  destruct (Z.min lo (len text) <? 0) eqn:E3; [lia|].
  destruct (Z.min hi (len text) <? 0) eqn:E4; [lia|].
  rewrite <- !Z.min_assoc, !Z.min_id. reflexivity.
Qed.

Lemma slice_from_clamp text lo :
  0 <= lo -> slice_from text (Z.min lo (len text)) = slice_from text lo.
Proof.
  intros Hlo. unfold slice_from.
  rewrite <- (slice_clamp text lo (len text)) by (pose proof (len_nonneg text); lia).
  now rewrite Z.min_id.
Qed.

Lemma slice_in_bounds text lo hi :
  exists a b : nat,
    (a <= b)%nat /\ (b <= length text)%nat /\ slice text lo hi = substr text a b.
Proof.
  pose proof (len_nonneg text) as Hn.
  pose proof (norm_index_bounds (len text) lo Hn) as Ha.
  pose proof (norm_index_bounds (len text) hi Hn) as Hb.
  unfold slice, substr. unfold len in *.
  set (a := norm_index (Z.of_nat (length text)) lo) in *.
  set (b := norm_index (Z.of_nat (length text)) hi) in *.
  destruct (Z.le_gt_cases a b) as [Hab|Hab].
  - exists (Z.to_nat a), (Z.to_nat b). repeat split; try lia.
    f_equal. lia.
  - exists (Z.to_nat a), (Z.to_nat a). repeat split; try lia.
    replace (Z.to_nat (b - a)) with 0%nat by lia.
    now rewrite Nat.sub_diag.
Qed.

(** ** The stable sort *)

Lemma insort_filter k r l :
  filter (has_start k) (insort r l) = filter (has_start k) (r :: l).
Proof.
  induction l as [|x l IH]; [reflexivity|].
  simpl insort. destruct (start r <=? start x) eqn:E; [reflexivity|].
  simpl. rewrite IH. simpl.
  unfold has_start.
  destruct (start x =? k) eqn:Ex, (start r =? k) eqn:Er; try reflexivity.
  lia.
Qed.

Lemma sort_by_start_stable k repls :
  filter (has_start k) (sort_by_start repls) = filter (has_start k) repls.
Proof.
  induction repls as [|r l IH]; [reflexivity|].
  simpl sort_by_start. rewrite insort_filter. simpl. now rewrite IH.
Qed.

Lemma insort_perm r l : Permutation (r :: l) (insort r l).
Proof.
  induction l as [|x l IH]; simpl; [apply Permutation_refl|].
  destruct (start r <=? start x); [apply Permutation_refl|].
  eapply perm_trans; [apply perm_swap|]. now apply perm_skip.
Qed.

Lemma sort_by_start_perm repls : Permutation repls (sort_by_start repls).
Proof.
  induction repls as [|r l IH]; simpl; [constructor|].
  eapply perm_trans; [apply perm_skip, IH|]. apply insort_perm.
Qed.

Lemma insort_sorted r l :
  StronglySorted by_start l -> StronglySorted by_start (insort r l).
Proof.
  induction 1 as [|x l Hs IH Hall]; simpl.
  - repeat constructor.
  - destruct (start r <=? start x) eqn:E.
    + constructor; [now constructor|].
      constructor; [unfold by_start; lia|].
      eapply Forall_impl; [|exact Hall]. unfold by_start. intros; lia.
    + constructor; [exact IH|].
      eapply Permutation_Forall; [apply insort_perm|].
      constructor; [unfold by_start; lia | exact Hall].
Qed.

Lemma sort_by_start_sorted repls : StronglySorted by_start (sort_by_start repls).
Proof.
  induction repls; simpl; [constructor | now apply insort_sorted].
Qed.

Lemma sort_by_start_id l : StronglySorted by_start l -> sort_by_start l = l.
Proof.
  induction 1 as [|x l Hs IH Hall]; [reflexivity|].
  simpl. rewrite IH. destruct l as [|y l]; [reflexivity|].
  simpl. inversion Hall as [|? ? Hxy _]; subst. unfold by_start in Hxy.
  destruct (start x <=? start y) eqn:E; [reflexivity | lia].
Qed.

(** ** The cursor walk *)

Lemma apply_loop_render text rs : forall out cursor out' cursor',
  apply_loop text rs out cursor = (out', cursor') ->
  concat (out' ++ [slice_from text cursor']) =
  concat out ++ render text (accepted rs cursor) cursor.
Proof.
  induction rs as [|r rs IH]; intros out cursor out' cursor' H; simpl in *.
  - inversion H; subst. rewrite concat_app. simpl. now rewrite app_nil_r.
  - destruct (start r <? cursor).
    + now apply IH.
    + rewrite (IH _ _ _ _ H). rewrite !concat_app. simpl.
      rewrite !app_nil_r, <- !app_assoc. reflexivity.
Qed.

Lemma _apply_render text repls :
  _apply text repls = render text (accepted (sort_by_start repls) 0) 0.
Proof.
  destruct repls as [|r l].
  - simpl. now rewrite slice_from_0.
  - unfold _apply.
    destruct (apply_loop text (sort_by_start (r :: l)) [] 0) as [out cursor] eqn:E.
    now rewrite (apply_loop_render _ _ _ _ _ _ E).
Qed.

Lemma accepted_incl rs : forall cursor x, In x (accepted rs cursor) -> In x rs.
Proof.
  induction rs as [|r rs IH]; intros cursor x H; simpl in *; [exact H|].
  destruct (start r <? cursor).
  - right. eapply IH, H.
  - destruct H as [H|H]; [now left | right; eapply IH, H].
Qed.

Lemma accepted_chained rs : forall cursor, chained cursor (accepted rs cursor).
Proof.
  induction rs as [|r rs IH]; intros cursor; simpl; [exact I|].
  destruct (start r <? cursor) eqn:E; [apply IH|].
  simpl. split; [lia | apply IH].
Qed.

Lemma accepted_sorted rs :
  StronglySorted by_start rs -> forall cursor, StronglySorted by_start (accepted rs cursor).
Proof.
  induction 1 as [|r rs Hs IH Hall]; intros cursor; simpl; [constructor|].
  destruct (start r <? cursor); [apply IH|].
  constructor; [apply IH|].
  rewrite Forall_forall in *. intros x Hx. apply Hall. eapply accepted_incl, Hx.
Qed.

Lemma filter_has_start_cons s r l :
  filter (has_start s) (r :: l) =
  if start r =? s then r :: filter (has_start s) l else filter (has_start s) l.
Proof. reflexivity. Qed.

Lemma filter_has_start_nil s rs :
  (forall r, In r rs -> start r <> s) -> filter (has_start s) rs = [].
Proof.
  induction rs as [|r rs IH]; intros H; [reflexivity|].
  rewrite filter_has_start_cons. destruct (start r =? s) eqn:E.
  - exfalso. apply (H r); [now left | lia].
  - apply IH. intros x Hx. apply H. now right.
Qed.

(** Once the cursor is past [s], no span starting at [s] is kept. *)
Lemma accepted_none_below s rs :
  Forall nonempty rs -> forall cursor, s < cursor ->
  filter (has_start s) (accepted rs cursor) = [].
Proof.
  induction 1 as [|r rs Hr Hrs IH]; intros cursor Hc; cbn [accepted]; [reflexivity|].
  unfold nonempty in Hr.
  destruct (start r <? cursor) eqn:E; [now apply IH|].
  rewrite filter_has_start_cons.
  destruct (start r =? s) eqn:Es; [lia|].
  apply IH. lia.
Qed.

(** Among the spans that start at [s], only the first of the list can be
    kept. *)
Lemma accepted_tie s rs :
  Forall nonempty rs -> forall cursor,
  filter (has_start s) (accepted rs cursor) = [] \/
  filter (has_start s) (accepted rs cursor) = firstn 1 (filter (has_start s) rs).
Proof.
  induction 1 as [|r rs Hr Hrs IH]; intros cursor; cbn [accepted]; [now left|].
  unfold nonempty in Hr. rewrite (filter_has_start_cons s r rs).
  destruct (start r <? cursor) eqn:E.
  - destruct (start r =? s) eqn:Es.
    + left. apply accepted_none_below; [exact Hrs | lia].
    + apply IH.
  - rewrite filter_has_start_cons. destruct (start r =? s) eqn:Es.
    + right. cbn [firstn]. f_equal. apply accepted_none_below; [exact Hrs | lia].
    + apply IH.
Qed.

(** That first span is kept when no span that starts earlier reaches over
    [s]. *)
Lemma accepted_first s rs :
  StronglySorted by_start rs -> Forall nonempty rs ->
  (forall r, In r rs -> start r < s -> end_ r <= s) ->
  forall cursor, cursor <= s ->
  filter (has_start s) (accepted rs cursor) = firstn 1 (filter (has_start s) rs).
Proof.
  induction 1 as [|r rs Hs IH Hall]; intros Hne Hfree cursor Hc;
    cbn [accepted]; [reflexivity|].
  inversion Hne as [|? ? Hr Hrs]; subst. unfold nonempty in Hr.
  assert (Hfree' : forall x, In x rs -> start x < s -> end_ x <= s)
    by (intros x Hx; apply Hfree; now right).
  rewrite (filter_has_start_cons s r rs).
  destruct (start r <? cursor) eqn:E.
  - destruct (start r =? s) eqn:Es; [lia|].
    now apply IH.
  - rewrite filter_has_start_cons. destruct (start r =? s) eqn:Es.
    + cbn [firstn]. f_equal. apply accepted_none_below; [exact Hrs | lia].
    + destruct (Z.lt_ge_cases (start r) s) as [Hlt|Hge].
      * apply IH; auto. apply Hfree; [now left | exact Hlt].
      * assert (Hnone : forall x, In x rs -> start x <> s).
        { intros x Hx. rewrite Forall_forall in Hall.
          specialize (Hall x Hx). unfold by_start in Hall. lia. }
        rewrite (filter_has_start_nil s rs Hnone).
        apply filter_has_start_nil. intros x Hx. apply Hnone.
        eapply accepted_incl, Hx.
Qed.

Lemma nonempty_sorted repls :
  Forall nonempty repls -> Forall nonempty (sort_by_start repls).
Proof.
  intros H. eapply Permutation_Forall; [apply sort_by_start_perm | exact H].
Qed.

(** ** Clamping *)

Lemma clamp_in_text n r : 0 <= n -> 0 <= start r -> 0 <= end_ r -> in_text n (clamp n r).
Proof. intros. unfold in_text, clamp. simpl. lia. Qed.

Lemma clamp_id n r : start r <= n -> end_ r <= n -> clamp n r = r.
Proof.
  intros. destruct r as [s e t]. unfold clamp. simpl in *.
  now rewrite !Z.min_l by lia.
Qed.

Lemma render_clamp text rs :
  Forall (fun r => 0 <= start r /\ 0 <= end_ r) rs ->
  forall cursor, 0 <= cursor ->
  render text (map (clamp (len text)) rs) (Z.min cursor (len text)) =
  render text rs cursor.
Proof.
  induction 1 as [|r rs [Hs He] Hrs IH]; intros cursor Hc; simpl.
  - now apply slice_from_clamp.
  - rewrite slice_clamp by assumption. now rewrite IH.
Qed.

Lemma accepted_clamp n rs : forall cursor,
  chained cursor rs ->
  accepted (map (clamp n) rs) (Z.min cursor n) = map (clamp n) rs.
Proof.
  induction rs as [|r rs IH]; intros cursor H; simpl in *; [reflexivity|].
  destruct H as [Hc Hch].
  destruct (Z.min (start r) n <? Z.min cursor n) eqn:E; [lia|].
  f_equal. now apply IH.
Qed.

Lemma sorted_clamp n rs :
  StronglySorted by_start rs -> StronglySorted by_start (map (clamp n) rs).
Proof.
  induction 1 as [|r rs Hs IH Hall]; simpl; constructor; auto.
  rewrite Forall_map. eapply Forall_impl; [|exact Hall].
  unfold by_start. simpl. intros; lia.
Qed.

(** ** The collectors *)

Lemma bind_Ok {A B} (m : result A) (k : A -> result B) b :
  bind m k = Ok b <-> exists a, m = Ok a /\ k a = Ok b.
Proof.
  destruct m as [a|e]; simpl; split.
  - intros H. now exists a.
  - now intros [a' [[= <-] H]].
  - discriminate.
  - now intros [a' [[=] _]].
Qed.

Lemma mapM_Ok {A B} (f : A -> result B) l : forall l',
  mapM f l = Ok l' <-> Forall2 (fun a b => f a = Ok b) l l'.
Proof.
  induction l as [|a l IH]; intros l'; simpl.
  - split; [intros [= <-]; constructor | now inversion 1].
  - rewrite bind_Ok. split.
    + intros [b [Hb H]]. apply bind_Ok in H. destruct H as [bs [Hbs [= <-]]].
      constructor; [exact Hb | now apply IH].
    + inversion 1 as [|? b ? bs Hb Hbs]; subst. exists b. split; [exact Hb|].
      apply IH in Hbs. now rewrite Hbs.
Qed.

Lemma gather_matches_acc text masker validator ms : forall out,
  gather_matches text masker validator ms out =
  (l <- gather_matches text masker validator ms [] ;; Ok (out ++ l)).
Proof.
  induction ms as [|[s e] ms IH]; intros out; cbn [gather_matches].
  - simpl. now rewrite app_nil_r.
  - destruct (match validator with Some v => v (slice text s e) | None => Ok true end)
      as [[|]|err]; simpl; try reflexivity.
    + destruct (masker (slice text s e)) as [masked|err]; simpl; [|reflexivity].
      rewrite (IH (out ++ _)), (IH [_]).
      destruct (gather_matches text masker validator ms []); simpl; [|reflexivity].
      now rewrite <- app_assoc.
    + apply IH.
Qed.

Section CollectorFacts.

Variable finditer : pattern -> str -> list (Z * Z).
Variable _dt_parse_year : str -> result Z.

Lemma gather_rules_groups text rules : forall out res,
  gather_rules finditer text rules out = Ok res <->
  exists groups,
    Forall2 (fun rl g => rule_spans finditer text rl = Ok g) rules groups /\
    res = out ++ concat groups.
Proof.
  induction rules as [|[[pat masker] validator] rules IH]; intros out res;
    cbn [gather_rules].
  - split.
    + intros [= <-]. exists []. split; [constructor | now rewrite app_nil_r].
    + intros [groups [H ->]]. inversion H; subst. simpl. now rewrite app_nil_r.
  - rewrite bind_Ok. split.
    + intros [out' [H1 H2]]. rewrite gather_matches_acc in H1.
      apply bind_Ok in H1. destruct H1 as [g [Hg [= <-]]].
      apply IH in H2. destruct H2 as [groups [Hgs ->]].
      exists (g :: groups). split; [now constructor|].
      simpl. now rewrite app_assoc.
    + intros [groups [H ->]]. inversion H as [|? g ? gs Hg Hgs]; subst.
      exists (out ++ g). split.
      * rewrite gather_matches_acc. unfold rule_spans in Hg. now rewrite Hg.
      * apply IH. exists gs. split; [exact Hgs|]. simpl. now rewrite app_assoc.
Qed.

Lemma _gather_regex_groups text regs :
  _gather_regex finditer _dt_parse_year text = Ok regs <->
  exists groups,
    Forall2 (fun rl g => rule_spans finditer text rl = Ok g)
            (_PATTERNS _dt_parse_year) groups /\
    regs = concat groups.
Proof. unfold _gather_regex. now rewrite gather_rules_groups. Qed.

End CollectorFacts.

Lemma index_0_Ok s : 0 < len s -> exists c, index s 0 = Ok c.
Proof.
  intros H. unfold index. change (0 <? 0) with false. cbv beta iota zeta.
  destruct (len s <=? 0) eqn:E; [lia|]. simpl. eauto.
Qed.

Lemma _gather_person_ent_total ent out :
  exists out', _gather_person_ent ent out = Ok out'.
Proof.
  unfold _gather_person_ent. destruct (str_eqb (label_ ent) (py "PER")); [|eauto].
  destruct (len (ent_text ent) >? 1) eqn:E.
  - destruct (index_0_Ok (ent_text ent)) as [c Hc]; [lia|].
    rewrite Hc. simpl. eauto.
  - simpl. eauto.
Qed.

Lemma _gather_person_loop_total es : forall out,
  exists out', _gather_person_loop es out = Ok out'.
Proof.
  induction es as [|ent es IH]; intros out; simpl; [eauto|].
  destruct (_gather_person_ent_total ent out) as [out' ->]. simpl. apply IH.
Qed.

Lemma _gather_person_total doc : exists persons, _gather_person doc = Ok persons.
Proof. apply _gather_person_loop_total. Qed.

(** ** Overlap resolution *)

Lemma accepted_two r1 r2 :
  0 <= start r1 -> start r1 < start r2 -> start r2 < end_ r1 ->
  accepted (sort_by_start [r1; r2]) 0 = [r1] /\
  accepted (sort_by_start [r2; r1]) 0 = [r1].
Proof.
  intros H0 H1 H2. simpl.
  destruct (start r1 <=? start r2) eqn:E1; [|lia].
  destruct (start r2 <=? start r1) eqn:E2; [lia|].
  simpl.
  destruct (start r1 <? 0) eqn:E3; [lia|].
  destruct (start r2 <? end_ r1) eqn:E4; [|lia].
  split; reflexivity.
Qed.

Lemma applied_at_start repls :
  Forall nonempty repls ->
  forall s,
    let applied := accepted (sort_by_start repls) 0 in
    (filter (has_start s) applied = [] \/
     filter (has_start s) applied = firstn 1 (filter (has_start s) repls)) /\
    (0 <= s ->
     (forall r, In r repls -> start r < s -> end_ r <= s) ->
     filter (has_start s) applied = firstn 1 (filter (has_start s) repls)).
Proof.
  intros Hne s applied. subst applied.
  rewrite <- (sort_by_start_stable s repls). split.
  - apply accepted_tie. now apply nonempty_sorted.
  - intros Hs Hfree. apply accepted_first.
    + apply sort_by_start_sorted.
    + now apply nonempty_sorted.
    + intros r Hr. apply Hfree.
      eapply Permutation_in; [apply Permutation_sym, sort_by_start_perm | exact Hr].
    + exact Hs.
Qed.

Section OverlapResolution.

Variable finditer : pattern -> str -> list (Z * Z).
Variable _dt_parse_year : str -> result Z.

(** C1.  [_apply] sorts the candidate spans by start offset, ascending and
    keeping equal starts in candidate order, and then walks them with a
    cursor that starts at 0: a span that starts before the cursor is
    discarded, any other contributes the literal text from the cursor to
    its start and then its replacement, and moves the cursor to its end;
    the spans kept never overlap.  Among the candidates that start at one
    offset only the first in candidate order can be kept, and it is kept
    when no earlier-starting candidate reaches over that offset; the regex
    candidates come rule by rule in the order of [_PATTERNS], so the
    earlier rule wins a tie.  Position decides, never length, and nothing
    is merged: of two overlapping spans the one that starts first
    survives, as for [0,10) and [5,15). *)
Theorem overlap_resolution (text : str) (repls : list _Repl) :
  let sorted := sort_by_start repls in
  let applied := accepted sorted 0 in
  (StronglySorted by_start sorted /\
   Permutation repls sorted /\
   forall s, filter (has_start s) sorted = filter (has_start s) repls) /\
  (_apply text repls = render text applied 0 /\ chained 0 applied) /\
  (Forall nonempty repls ->
   forall s,
     (filter (has_start s) applied = [] \/
      filter (has_start s) applied = firstn 1 (filter (has_start s) repls)) /\
     (0 <= s ->
      (forall r, In r repls -> start r < s -> end_ r <= s) ->
      filter (has_start s) applied = firstn 1 (filter (has_start s) repls))) /\
  (forall regs,
     _gather_regex finditer _dt_parse_year text = Ok regs ->
     exists groups,
       Forall2 (fun rl g => rule_spans finditer text rl = Ok g)
               (_PATTERNS _dt_parse_year) groups /\
       regs = concat groups) /\
  (forall r1 r2,
     0 <= start r1 -> start r1 < start r2 -> start r2 < end_ r1 ->
     accepted (sort_by_start [r1; r2]) 0 = [r1] /\
     accepted (sort_by_start [r2; r1]) 0 = [r1]) /\
  (forall a b,
     _apply text [mk_Repl 0 10 a; mk_Repl 5 15 b] = a ++ slice_from text 10 /\
     _apply text [mk_Repl 5 15 b; mk_Repl 0 10 a] = a ++ slice_from text 10).
Proof.
  intros sorted applied. subst sorted applied.
  split; [|split; [|split; [|split; [|split]]]].
  - split; [apply sort_by_start_sorted|].
    split; [apply sort_by_start_perm | intros s; apply sort_by_start_stable].
  - split; [apply _apply_render | apply accepted_chained].
  - intros Hne s. now apply applied_at_start.
  - intros regs H. now apply _gather_regex_groups in H.
  - apply accepted_two.
  - intros a b. rewrite !_apply_render.
    destruct (accepted_two (mk_Repl 0 10 a) (mk_Repl 5 15 b)
                ltac:(simpl; lia) ltac:(simpl; lia) ltac:(simpl; lia)) as [E1 E2].
    rewrite E1, E2. simpl. now rewrite slice_same.
Qed.

End OverlapResolution.

(** The policy on three candidates given out of order: the span at [5,15)
    and the second span at 0 are dropped.  A span of three characters at 0
    wins over one of fourteen characters at 1.  The regex candidates of a
    text are the concatenation of what the rules yield, in table order. *)
Lemma overlap_resolution_witness :
  let text := py "0123456789abcdefghij" in
  let repls := [mk_Repl 5 15 (py "B"); mk_Repl 0 10 (py "A"); mk_Repl 0 4 (py "C")] in
  let short := mk_Repl 0 3 (py "s") in
  let long := mk_Repl 1 15 (py "l") in
  (Forall nonempty repls /\
   filter (has_start 0) (accepted (sort_by_start repls) 0) = [mk_Repl 0 10 (py "A")] /\
   _apply text repls = py "Aabcdefghij") /\
  (0 <= start short /\ start short < start long /\ start long < end_ short /\
   accepted (sort_by_start [short; long]) 0 = [short] /\
   accepted (sort_by_start [long; short]) 0 = [short]) /\
  (_gather_regex stub_finditer stub_dt_parse_year (py "061234567890")
     = Ok [mk_Repl 0 12 (py "PERMIS********")] /\
   exists groups,
     Forall2 (fun rl g => rule_spans stub_finditer (py "061234567890") rl = Ok g)
             (_PATTERNS stub_dt_parse_year) groups /\
     [mk_Repl 0 12 (py "PERMIS********")] = concat groups).
Proof.
  intros text repls short long.
  pose proof (overlap_resolution stub_finditer stub_dt_parse_year text repls) as H.
  cbv zeta in H. destruct H as (_ & (Happly & _) & Htie & _ & Htwo & _).
  pose proof (overlap_resolution stub_finditer stub_dt_parse_year
                (py "061234567890") []) as H'.
  cbv zeta in H'. destruct H' as (_ & _ & _ & Hgroups & _).
  assert (Hne : Forall nonempty repls)
    by (repeat constructor; unfold nonempty; simpl; lia).
  split; [|split].
  - split; [exact Hne|]. split.
    + destruct (Htie Hne 0) as [_ Hfirst]. rewrite Hfirst.
      * reflexivity.
      * lia.
      * intros r Hr Hlt. simpl in Hr.
        destruct Hr as [<-|[<-|[<-|[]]]]; simpl in *; lia.
    + rewrite Happly. reflexivity.
  - assert (H0 : 0 <= start short) by (simpl; lia).
    assert (H1 : start short < start long) by (simpl; lia).
    assert (H2 : start long < end_ short) by (simpl; lia).
    split; [exact H0|]. split; [exact H1|]. split; [exact H2|].
    exact (Htwo short long H0 H1 H2).
  - assert (Hregs : _gather_regex stub_finditer stub_dt_parse_year (py "061234567890")
                    = Ok [mk_Repl 0 12 (py "PERMIS********")])
      by (vm_compute; reflexivity).
    split; [exact Hregs|]. exact (Hgroups _ Hregs).
Defined.

(** ** Spans beyond the end of the text *)

(** C9.  [_apply] is a total function, and every slice it takes is a range
    of positions of the text, whatever the bounds asked for: nothing is read
    outside the text.  For spans with offsets at or above 0, whatever their
    relation to the length of the text, the output is the one written for
    spans that all lie inside the text: each candidate is either dropped by
    the walk or applied with its offsets cut down to the length of the
    text, a span inside the text being applied as it is. *)
Theorem apply_out_of_range (text : str) (repls : list _Repl) :
  (exists out, _apply text repls = out /\
   forall lo hi, exists a b : nat,
     (a <= b)%nat /\ (b <= length text)%nat /\ slice text lo hi = substr text a b) /\
  (Forall (fun r => 0 <= start r /\ 0 <= end_ r) repls ->
   let applied := accepted (sort_by_start repls) 0 in
   let kept := map (clamp (len text)) applied in
   Forall (in_text (len text)) kept /\
   (forall r, In r applied -> start r <= len text -> end_ r <= len text ->
              clamp (len text) r = r) /\
   _apply text repls = render text kept 0 /\
   _apply text repls = _apply text kept).
Proof.
  split.
  { exists (_apply text repls). split; [reflexivity|]. apply slice_in_bounds. }
  intros Hpos applied kept.
  assert (Happ : Forall (fun r => 0 <= start r /\ 0 <= end_ r) applied).
  { rewrite Forall_forall in *. intros r Hr. apply Hpos.
    eapply Permutation_in; [apply Permutation_sym, sort_by_start_perm|].
    eapply accepted_incl, Hr. }
  assert (Hrender : render text kept 0 = render text applied 0).
  { replace 0 with (Z.min 0 (len text)) at 1
      by (pose proof (len_nonneg text); lia).
    apply render_clamp; [exact Happ | lia]. }
  split; [|split; [|split]].
  - subst kept. rewrite Forall_map. eapply Forall_impl; [|exact Happ].
    intros r [Hs He]. apply clamp_in_text; auto using len_nonneg.
  - intros r _. apply clamp_id.
  - rewrite Hrender. apply _apply_render.
  - rewrite (_apply_render text kept), (_apply_render text repls).
    rewrite (sort_by_start_id kept)
      by (apply sorted_clamp, accepted_sorted, sort_by_start_sorted).
    assert (Hkept : accepted kept 0 = kept).
    { replace 0 with (Z.min 0 (len text))
        by (pose proof (len_nonneg text); lia).
      apply accepted_clamp, accepted_chained. }
    now rewrite Hkept, Hrender.
Qed.

(** On a text of three characters: a span that ends at 20 is applied up to
    the end of the text, one it overlaps is dropped, and one that starts at
    30 is applied at the end of the text. *)
Lemma apply_out_of_range_witness :
  let text := py "abc" in
  let repls := [mk_Repl 1 20 (py "X"); mk_Repl 10 12 (py "Y"); mk_Repl 30 40 (py "Z")] in
  Forall (fun r => 0 <= start r /\ 0 <= end_ r) repls /\
  map (clamp (len text)) (accepted (sort_by_start repls) 0) =
    [mk_Repl 1 3 (py "X"); mk_Repl 3 3 (py "Z")] /\
  _apply text repls = py "aXZ".
Proof.
  intros text repls.
  assert (Hpos : Forall (fun r => 0 <= start r /\ 0 <= end_ r) repls)
    by (repeat constructor; simpl; lia).
  destruct (proj2 (apply_out_of_range text repls) Hpos) as (_ & _ & Hrender & _).
  split; [exact Hpos|]. split; [reflexivity|].
  rewrite Hrender. reflexivity.
Defined.

(** ** The public entry points *)

Lemma Forall2_nth_iff {A B : Type} (P : A -> B -> Prop) (da : A) (db : B) l : forall l',
  Forall2 P l l' <->
  (length l' = length l /\
   forall i : nat, (i < length l)%nat -> P (nth i l da) (nth i l' db)).
Proof.
  induction l as [|a l IH]; intros [|b l']; simpl; split.
  - intros _. split; [reflexivity | intros i Hi; lia].
  - constructor.
  - inversion 1.
  - intros [[=] _].
  - inversion 1.
  - intros [[=] _].
  - inversion 1 as [|? ? ? ? Hab Hll']; subst. apply IH in Hll'.
    destruct Hll' as [Hlen Hnth]. split; [now rewrite Hlen|].
    intros [|i] Hi; [exact Hab | apply Hnth; lia].
  - intros [Hlen Hnth]. constructor.
    + apply (Hnth 0%nat). lia.
    + apply IH. split; [now injection Hlen|].
      intros i Hi. apply (Hnth (S i)). lia.
Qed.

Section Pipeline.

Variable finditer : pattern -> str -> list (Z * Z).
Variable _dt_parse_year : str -> result Z.
Variable phonenumber : Type.
Variable PhoneNumberMatcher : str -> result (list (PhoneNumberMatch phonenumber)).
Variable is_possible_number : phonenumber -> bool.
Variable _nlp : str -> result Doc.
Variable _nlp_pipe : list str -> list (result Doc).

Local Notation "'gather_regex'" := (_gather_regex finditer _dt_parse_year).
Local Notation "'gather_phones'" :=
  (_gather_phones phonenumber PhoneNumberMatcher is_possible_number).
Local Notation "'single'" :=
  (anonymize_all finditer _dt_parse_year phonenumber PhoneNumberMatcher
                 is_possible_number _nlp).
Local Notation "'many'" :=
  (anonymize_all_many finditer _dt_parse_year phonenumber PhoneNumberMatcher
                      is_possible_number _nlp_pipe).

Lemma anonymize_all_Ok text out :
  single text = Ok out <->
  exists regs phones doc persons,
    gather_regex text = Ok regs /\ gather_phones text = Ok phones /\
    _nlp text = Ok doc /\ _gather_person doc = Ok persons /\
    out = _apply text ((regs ++ phones) ++ persons).
Proof.
  unfold anonymize_all. rewrite bind_Ok. split.
  - intros (regs & Hr & H). apply bind_Ok in H. destruct H as (phones & Hp & H).
    apply bind_Ok in H. destruct H as (doc & Hd & H).
    apply bind_Ok in H. destruct H as (persons & Hper & [= <-]).
    now exists regs, phones, doc, persons.
  - intros (regs & phones & doc & persons & Hr & Hp & Hd & Hper & ->).
    exists regs. split; [exact Hr|]. rewrite Hp. simpl. rewrite Hd. simpl.
    now rewrite Hper.
Qed.

Lemma many_loop_map texts : forall regs phs results outs,
  Forall2 (fun t r => gather_regex t = Ok r) texts regs ->
  Forall2 (fun t p => gather_phones t = Ok p) texts phs ->
  (many_loop texts regs phs (map _nlp texts) results = Ok outs <->
   exists outs', outs = results ++ outs' /\
                 Forall2 (fun t o => single t = Ok o) texts outs').
Proof.
  induction texts as [|t texts IH]; intros regs phs results outs Hr Hp.
  - inversion Hr; inversion Hp; subst. simpl. split.
    + intros [= <-]. exists []. split; [now rewrite app_nil_r | constructor].
    + intros (outs' & -> & H). inversion H. now rewrite app_nil_r.
  - inversion Hr as [|? r ? regs' Hr1 Hr2]; subst.
    inversion Hp as [|? p ? phs' Hp1 Hp2]; subst.
    cbn [many_loop map]. rewrite bind_Ok. split.
    + intros (doc & Hd & H). apply bind_Ok in H. destruct H as (persons & Hper & H).
      apply (IH _ _ _ _ Hr2 Hp2) in H. destruct H as (outs' & -> & Houts).
      exists (_apply t ((r ++ p) ++ persons) :: outs'). split.
      * now rewrite <- (app_assoc results [_] outs').
      * constructor; [|exact Houts]. apply anonymize_all_Ok.
        now exists r, p, doc, persons.
    + intros (outs' & -> & H). inversion H as [|? o ? os Ho Hos]; subst.
      apply anonymize_all_Ok in Ho.
      destruct Ho as (r' & p' & doc & persons & Hr' & Hp' & Hd & Hper & ->).
      rewrite Hr1 in Hr'. rewrite Hp1 in Hp'.
      injection Hr' as <-. injection Hp' as <-.
      exists doc. split; [exact Hd|]. rewrite Hper. simpl.
      apply (IH _ _ _ _ Hr2 Hp2). exists os. split; [|exact Hos].
      now rewrite <- (app_assoc results [_] os).
Qed.

Lemma single_Ok_collectors texts outs :
  Forall2 (fun t o => single t = Ok o) texts outs ->
  exists regs phs,
    Forall2 (fun t r => gather_regex t = Ok r) texts regs /\
    Forall2 (fun t p => gather_phones t = Ok p) texts phs.
Proof.
  induction 1 as [|t o texts outs Ho _ IH].
  - exists [], []. split; constructor.
  - destruct IH as (regs & phs & Hr & Hp). apply anonymize_all_Ok in Ho.
    destruct Ho as (r & p & _ & _ & Hr1 & Hp1 & _).
    exists (r :: regs), (p :: phs). split; now constructor.
Qed.

Lemma batch_Ok_iff texts outs :
  _nlp_pipe texts = map _nlp texts ->
  (many texts = Ok outs <-> Forall2 (fun t o => single t = Ok o) texts outs).
Proof.
  intros Hpipe. unfold anonymize_all_many. rewrite Hpipe, bind_Ok. split.
  - intros (regs & Hr & H). apply bind_Ok in H. destruct H as (phs & Hp & H).
    apply mapM_Ok in Hr. apply mapM_Ok in Hp.
    apply (many_loop_map _ _ _ _ _ Hr Hp) in H.
    now destruct H as (outs' & -> & H).
  - intros H. destruct (single_Ok_collectors _ _ H) as (regs & phs & Hr & Hp).
    exists regs. split; [now apply mapM_Ok|].
    apply mapM_Ok in Hp as Hp'. rewrite Hp'. simpl.
    apply (many_loop_map _ _ _ _ _ Hr Hp). now exists outs.
Qed.

(** C2.  When the batched pipeline yields for each text the document the
    single call yields, [anonymize_all_many] returns a list exactly when
    [anonymize_all] returns for every text of the batch, and then the list
    has one element per text, the element at index [i] being what
    [anonymize_all] returns for the text at index [i], whatever the other
    texts of the batch are. *)
Theorem batch_single_equivalence (texts : list str) :
  _nlp_pipe texts = map _nlp texts ->
  (forall outs,
     many texts = Ok outs <->
     (length outs = length texts /\
      forall i : nat, (i < length texts)%nat ->
                single (nth i texts []) = Ok (nth i outs []))) /\
  ((forall t, In t texts -> exists o, single t = Ok o) ->
   exists outs, many texts = Ok outs).
Proof.
  intros Hpipe. split.
  - intros outs. rewrite (batch_Ok_iff _ _ Hpipe).
    apply (Forall2_nth_iff (fun t o => single t = Ok o) [] []).
  - intros Hall.
    assert (H : exists outs, Forall2 (fun t o => single t = Ok o) texts outs).
    { clear Hpipe. induction texts as [|t ts IH]; [exists []; constructor|].
      destruct (Hall t (or_introl eq_refl)) as [o Ho].
      destruct IH as [os Hos]; [intros x Hx; apply Hall; now right|].
      exists (o :: os). now constructor. }
    destruct H as [outs H]. exists outs. now apply batch_Ok_iff.
Qed.

Lemma many_loop_raise ds : forall texts regs phs results e rest,
  length regs = length texts -> length phs = length texts ->
  (length ds <= length texts)%nat ->
  many_loop texts regs phs (map Ok ds ++ Raise e :: rest) results = Raise e.
Proof.
  induction ds as [|d ds IH];
    intros [|t texts] [|r regs] [|p phs] results e rest Hr Hp Hlen;
    simpl in *; try discriminate; try lia; try reflexivity.
  destruct (_gather_person_total d) as [persons ->]. simpl.
  apply IH; lia.
Qed.

Lemma many_loop_Ok_docs texts : forall regs phs docs results outs,
  many_loop texts regs phs docs results = Ok outs ->
  exists ds, docs = map Ok ds /\ length ds = length texts /\
             length outs = (length results + length texts)%nat.
Proof.
  induction texts as [|t texts IH]; intros regs phs docs results outs H.
  - destruct regs, phs, docs as [|[d|e] docs]; simpl in H; try discriminate.
    injection H as <-. exists []. repeat split. simpl. lia.
  - destruct regs as [|r regs], phs as [|p phs], docs as [|d docs];
      simpl in H; try discriminate.
    apply bind_Ok in H. destruct H as (doc & -> & H).
    apply bind_Ok in H. destruct H as (persons & _ & H).
    apply IH in H. destruct H as (ds & -> & Hlen & Hout).
    exists (doc :: ds). simpl. repeat split; [lia|].
    rewrite Hout, length_app. simpl. lia.
Qed.

(** C4, as amended.  A failure of the pipeline is not isolated: when the
    generator of documents raises at or before the last text of the batch,
    the collectors having succeeded, [anonymize_all_many] raises that
    exception, and no text of the batch gets an output.  It returns a list
    only when the pipeline yields one document for each text. *)
Theorem batch_provider_failure_propagates (texts : list str) :
  (forall regs phs ds e rest,
     mapM gather_regex texts = Ok regs ->
     mapM gather_phones texts = Ok phs ->
     _nlp_pipe texts = map Ok ds ++ Raise e :: rest ->
     (length ds <= length texts)%nat ->
     many texts = Raise e) /\
  (forall outs,
     many texts = Ok outs ->
     exists ds, _nlp_pipe texts = map Ok ds /\
                length ds = length texts /\ length outs = length texts).
Proof.
  split.
  - intros regs phs ds e rest Hr Hp Hpipe Hlen.
    unfold anonymize_all_many. rewrite Hr, Hp, Hpipe. simpl.
    apply mapM_Ok, Forall2_length in Hr. apply mapM_Ok, Forall2_length in Hp.
    apply many_loop_raise; auto.
  - intros outs H. unfold anonymize_all_many in H.
    apply bind_Ok in H. destruct H as (regs & _ & H).
    apply bind_Ok in H. destruct H as (phs & _ & H).
    apply many_loop_Ok_docs in H. destruct H as (ds & Hds & Hlen & Hout).
    exists ds. repeat split; auto.
Qed.

(** C7.  A text for which the regex rules, the phone matcher and the
    pipeline give no span comes back unchanged, [_apply] returning the
    text itself for an empty list of replacements.  On the empty text no
    span can exist, a match having to enclose a character of the text, so
    the three collectors return empty lists and the output is empty. *)
Theorem identity_without_pii (text : str) :
  (gather_regex text = Ok [] -> gather_phones text = Ok [] ->
   forall doc, _nlp text = Ok doc -> _gather_person doc = Ok [] ->
   single text = Ok text) /\
  _apply text [] = text /\
  ((forall p, Forall (match_in []) (finditer p [])) ->
   forall ms doc,
     PhoneNumberMatcher [] = Ok ms ->
     Forall (fun m => match_in [] (pm_start m, pm_end m)) ms ->
     _nlp [] = Ok doc ->
     Forall (fun e => match_in [] (start_char e, end_char e)) (ents doc) ->
     gather_regex [] = Ok [] /\ gather_phones [] = Ok [] /\
     _gather_person doc = Ok [] /\ single [] = Ok []).
Proof.
  split; [|split].
  - intros Hr Hp doc Hd Hper. unfold anonymize_all.
    rewrite Hr, Hp. simpl. rewrite Hd. simpl. now rewrite Hper.
  - reflexivity.
  - intros Hfind ms doc Hms Hin Hdoc Hents.
    assert (Hnil : forall A (f : A -> Z * Z) (l : list A),
               Forall (fun x => match_in [] (f x)) l -> l = []).
    { intros A f [|x l] H; [reflexivity|]. inversion H as [|? ? Hx _]; subst.
      unfold match_in, len in Hx. simpl in Hx. lia. }
    assert (Hr : gather_regex [] = Ok []).
    { unfold _gather_regex, _PATTERNS. cbn [gather_rules].
      rewrite !(Hnil _ (fun m => m) _ (Hfind _)). reflexivity. }
    assert (Hp : gather_phones [] = Ok []).
    { unfold _gather_phones. rewrite Hms. apply Hnil in Hin. now subst ms. }
    assert (Hper : _gather_person doc = Ok []).
    { unfold _gather_person. apply Hnil in Hents. now rewrite Hents. }
    repeat split; auto.
    unfold anonymize_all. rewrite Hr, Hp. simpl. rewrite Hdoc. simpl.
    now rewrite Hper.
Qed.

(** C10.  [anonymize_all] hands [_apply] the regex spans, then the phone
    spans, then the person spans, and the sort keeps spans with the same
    start in that order.  So at an offset where a regex span starts, the
    span applied is the first regex span that starts there and no phone
    or person span that starts there is applied; where no regex span
    starts and a phone span does, it is the first phone span and no
    person span.  Such a span is applied whenever no span that starts
    earlier reaches over the offset; otherwise none that starts there
    is. *)
Theorem cross_source_tie_break (text : str) (regs phones persons : list _Repl)
    (doc : Doc) :
  gather_regex text = Ok regs ->
  gather_phones text = Ok phones ->
  _nlp text = Ok doc ->
  _gather_person doc = Ok persons ->
  Forall nonempty ((regs ++ phones) ++ persons) ->
  let candidates := (regs ++ phones) ++ persons in
  let applied := accepted (sort_by_start candidates) 0 in
  single text = Ok (render text applied 0) /\
  forall s,
    let at_s := filter (has_start s) applied in
    let winner :=
      match filter (has_start s) regs, filter (has_start s) phones with
      | r :: _, _ => [r]
      | [], p :: _ => [p]
      | [], [] => firstn 1 (filter (has_start s) persons)
      end in
    filter (has_start s) (sort_by_start candidates) =
      (filter (has_start s) regs ++ filter (has_start s) phones)
        ++ filter (has_start s) persons /\
    (at_s = [] \/ at_s = winner) /\
    (0 <= s ->
     (forall r, In r candidates -> start r < s -> end_ r <= s) ->
     at_s = winner).
Proof.
  intros Hr Hp Hd Hper Hne candidates applied.
  split.
  - apply anonymize_all_Ok. exists regs, phones, doc, persons.
    repeat split; auto. symmetry. apply _apply_render.
  - intros s at_s winner.
    assert (Hstable : filter (has_start s) (sort_by_start candidates) =
              (filter (has_start s) regs ++ filter (has_start s) phones)
                ++ filter (has_start s) persons).
    { rewrite sort_by_start_stable. subst candidates.
      now rewrite !filter_app. }
    assert (Hwin : firstn 1 (filter (has_start s) candidates) = winner).
    { subst winner candidates. rewrite !filter_app.
      destruct (filter (has_start s) regs); [|reflexivity].
      destruct (filter (has_start s) phones); reflexivity. }
    destruct (applied_at_start candidates Hne s) as [Hweak Hstrong].
    rewrite Hwin in Hweak, Hstrong.
    repeat split; auto.
Qed.

End Pipeline.

(** Three texts through the stand-ins: an email address, a card number,
    and twelve digits that the licence rule, the phone matcher and the
    pipeline all claim from offset 0. *)
Lemma batch_single_equivalence_witness :
  let texts := [py "a@b.fr"; py "4539148803436467"; py "061234567890"] in
  let outs := [py "*@b.fr"; py "************6467"; py "PERMIS********"] in
  stub_pipe texts = map stub_nlp texts /\
  anonymize_all_many stub_finditer stub_dt_parse_year unit stub_matcher
    stub_possible stub_pipe texts = Ok outs /\
  (forall i : nat, (i < 3)%nat ->
     anonymize_all stub_finditer stub_dt_parse_year unit stub_matcher
       stub_possible stub_nlp (nth i texts []) = Ok (nth i outs [])) /\
  (forall t, In t texts ->
     exists o, anonymize_all stub_finditer stub_dt_parse_year unit stub_matcher
                 stub_possible stub_nlp t = Ok o) /\
  exists outs',
    anonymize_all_many stub_finditer stub_dt_parse_year unit stub_matcher
      stub_possible stub_pipe texts = Ok outs'.
Proof.
  intros texts outs.
  assert (Hpipe : stub_pipe texts = map stub_nlp texts) by reflexivity.
  assert (Hmany : anonymize_all_many stub_finditer stub_dt_parse_year unit
                    stub_matcher stub_possible stub_pipe texts = Ok outs)
    by (vm_compute; reflexivity).
  destruct (batch_single_equivalence stub_finditer stub_dt_parse_year unit
              stub_matcher stub_possible stub_nlp stub_pipe texts Hpipe)
    as [Hiff Hex].
  assert (Hall : forall t, In t texts ->
            exists o, anonymize_all stub_finditer stub_dt_parse_year unit
                        stub_matcher stub_possible stub_nlp t = Ok o).
  { intros t Ht. simpl in Ht.
    destruct Ht as [<-|[<-|[<-|[]]]]; eexists; vm_compute; reflexivity. }
  split; [exact Hpipe|]. split; [exact Hmany|].
  split; [apply (Hiff outs); exact Hmany|].
  split; [exact Hall|]. exact (Hex Hall).
Defined.

(** C4, the claim as stated fails: with a pipeline that raises at the
    second document, the batch call raises and returns nothing, although
    the first text alone is anonymized and the second text has a card
    number the regex rules mask. *)
Lemma batch_failure_isolation_counterexample :
  let texts := [py "a@b.fr"; py "4539148803436467"] in
  anonymize_all stub_finditer stub_dt_parse_year unit stub_matcher
    stub_possible stub_nlp (py "a@b.fr") = Ok (py "*@b.fr") /\
  _gather_regex stub_finditer stub_dt_parse_year (py "4539148803436467")
    = Ok [mk_Repl 0 16 (py "************6467")] /\
  anonymize_all_many stub_finditer stub_dt_parse_year unit stub_matcher
    stub_possible stub_pipe_failing texts = Raise (ExternalError "ner") /\
  ~ exists outs,
      anonymize_all_many stub_finditer stub_dt_parse_year unit stub_matcher
        stub_possible stub_pipe_failing texts = Ok outs.
Proof.
  intros texts.
  assert (H : anonymize_all_many stub_finditer stub_dt_parse_year unit stub_matcher
                stub_possible stub_pipe_failing texts = Raise (ExternalError "ner"))
    by (vm_compute; reflexivity).
  repeat split; try (vm_compute; reflexivity).
  intros [outs Houts]. rewrite H in Houts. discriminate.
Qed.

(** The same two texts: the failing pipeline makes the batch raise; with
    the pipeline that yields a document per text the batch returns. *)
Lemma batch_provider_failure_propagates_witness :
  let texts := [py "a@b.fr"; py "4539148803436467"] in
  (stub_pipe_failing texts = map Ok [mk_Doc []] ++ Raise (ExternalError "ner") :: [] /\
   anonymize_all_many stub_finditer stub_dt_parse_year unit stub_matcher
     stub_possible stub_pipe_failing texts = Raise (ExternalError "ner")) /\
  (anonymize_all_many stub_finditer stub_dt_parse_year unit stub_matcher
     stub_possible stub_pipe texts = Ok [py "*@b.fr"; py "************6467"] /\
   exists ds, stub_pipe texts = map Ok ds /\
              length ds = length texts /\
              length [py "*@b.fr"; py "************6467"] = length texts).
Proof.
  intros texts. split.
  - split; [reflexivity|].
    destruct (batch_provider_failure_propagates stub_finditer stub_dt_parse_year
                unit stub_matcher stub_possible stub_pipe_failing texts)
      as [Hraise _].
    apply (Hraise [[mk_Repl 0 6 (py "*@b.fr")]; [mk_Repl 0 16 (py "************6467")]]
                  [[]; []] [mk_Doc []] (ExternalError "ner") []).
    + vm_compute. reflexivity.
    + vm_compute. reflexivity.
    + reflexivity.
    + simpl. lia.
  - destruct (batch_provider_failure_propagates stub_finditer stub_dt_parse_year
                unit stub_matcher stub_possible stub_pipe texts)
      as [_ Hok].
    assert (Hmany : anonymize_all_many stub_finditer stub_dt_parse_year unit
                      stub_matcher stub_possible stub_pipe texts
                    = Ok [py "*@b.fr"; py "************6467"])
      by (vm_compute; reflexivity).
    split; [exact Hmany|]. exact (Hok _ Hmany).
Defined.

Lemma identity_without_pii_witness :
  let text := py "hello" in
  _gather_regex stub_finditer stub_dt_parse_year text = Ok [] /\
  _gather_phones unit stub_matcher stub_possible text = Ok [] /\
  anonymize_all stub_finditer stub_dt_parse_year unit stub_matcher
    stub_possible stub_nlp text = Ok text /\
  (forall p, Forall (match_in []) (stub_finditer p [])) /\
  anonymize_all stub_finditer stub_dt_parse_year unit stub_matcher
    stub_possible stub_nlp [] = Ok [].
Proof.
  intros text.
  destruct (identity_without_pii stub_finditer stub_dt_parse_year unit
              stub_matcher stub_possible stub_nlp text) as (Hid & _ & Hempty).
  assert (Hr : _gather_regex stub_finditer stub_dt_parse_year text = Ok [])
    by (vm_compute; reflexivity).
  assert (Hp : _gather_phones unit stub_matcher stub_possible text = Ok [])
    by (vm_compute; reflexivity).
  assert (Hfind : forall p, Forall (match_in []) (stub_finditer p []))
    by (intros p; destruct p; simpl; constructor).
  split; [exact Hr|]. split; [exact Hp|]. split; [|split; [exact Hfind|]].
  - apply (Hid Hr Hp (mk_Doc [])); reflexivity.
  - apply (Hempty Hfind [] (mk_Doc [])); try reflexivity; constructor.
Defined.

Lemma cross_source_tie_break_witness :
  let text := py "061234567890" in
  let regs := [mk_Repl 0 12 (py "PERMIS********")] in
  let phones := [mk_Repl 0 10 (py "XXXXXXXX78")] in
  let persons := [mk_Repl 0 5 (py "0****")] in
  Forall nonempty ((regs ++ phones) ++ persons) /\
  anonymize_all stub_finditer stub_dt_parse_year unit stub_matcher
    stub_possible stub_nlp text = Ok (py "PERMIS********") /\
  filter (has_start 0)
    (accepted (sort_by_start ((regs ++ phones) ++ persons)) 0) = regs.
Proof.
  intros text regs phones persons.
  assert (Hne : Forall nonempty ((regs ++ phones) ++ persons))
    by (repeat constructor; unfold nonempty; simpl; lia).
  destruct (cross_source_tie_break stub_finditer stub_dt_parse_year unit
              stub_matcher stub_possible stub_nlp text regs phones persons
              (mk_Doc [mk_Span (py "PER") (py "06123") 0 5])
              ltac:(vm_compute; reflexivity) ltac:(vm_compute; reflexivity)
              ltac:(vm_compute; reflexivity) ltac:(vm_compute; reflexivity) Hne)
    as [Hsingle Hat].
  split; [exact Hne|]. split.
  - rewrite Hsingle. reflexivity.
  - destruct (Hat 0) as (_ & _ & Hwin). apply Hwin; [lia|].
    intros r Hr Hlt. simpl in Hr.
    destruct Hr as [<-|[<-|[<-|[]]]]; simpl in Hlt; lia.
Defined.

(** ** Masks *)

Lemma split1_at (local domain : str) :
  ~ In "@"%char local -> split1 "@" (local ++ "@"%char :: domain) = [local; domain].
Proof.
  induction local as [|c local IH]; intros Hnot; simpl.
  - reflexivity.
  - destruct (Ascii.eqb c "@") eqn:E.
    + apply Ascii.eqb_eq in E. exfalso. apply Hnot. now left.
    + rewrite IH; [reflexivity|]. intros H. apply Hnot. now right.
Qed.

Lemma times_nat c (n : nat) : times c (Z.of_nat n) = repeat c n.
Proof. unfold times. now rewrite Nat2Z.id. Qed.

Lemma index_first s : 0 < len s -> index s 0 = Ok (nth 0 s zero).
Proof.
  intros H. unfold index. change (0 <? 0) with false. cbv beta iota zeta.
  destruct (len s <=? 0) eqn:E; [lia | reflexivity].
Qed.

Lemma index_last s : 0 < len s -> index s (-1) = Ok (nth (length s - 1) s zero).
Proof.
  intros H. unfold index. change (-1 <? 0) with true. cbv beta iota zeta.
  destruct (-1 + len s <? 0) eqn:E1; [lia|].
  destruct (len s <=? -1 + len s) eqn:E2; [lia|]. cbn [orb].
  do 2 f_equal. unfold len in *. lia.
Qed.

(** C8.  For an address [local@domain] whose local part has no [@], as in
    every match of the email pattern, [_mask_email] returns a masked local
    part of the same length followed by [@] and the domain unchanged.  When
    the local part has more than two characters, its first and last
    characters are kept and each character in between is a star; when it
    has at most two, every character is a star.  So [jo@x.com] gives
    [**@x.com] and [john.doe@example.com] gives [j******e@example.com]. *)
Theorem email_masking :
  (forall local domain : str,
     ~ In "@"%char local ->
     exists masked_local,
       _mask_email (local ++ py "@" ++ domain) = Ok (masked_local ++ py "@" ++ domain) /\
       length masked_local = length local /\
       forall i : nat, (i < length local)%nat ->
         nth i masked_local zero =
         if (2 <? len local) && ((i =? 0)%nat || (i =? length local - 1)%nat)
         then nth i local zero
         else "*"%char) /\
  _mask_email (py "jo@x.com") = Ok (py "**@x.com") /\
  _mask_email (py "john.doe@example.com") = Ok (py "j******e@example.com").
Proof.
  split; [|split; reflexivity].
  intros local domain Hnot. unfold _mask_email.
  change (local ++ py "@" ++ domain) with (local ++ "@"%char :: domain).
  rewrite (split1_at local domain Hnot).
  destruct (len local <=? 2) eqn:Hshort.
  - exists (repeat "*"%char (length local)). simpl bind.
    unfold len at 1. rewrite times_nat. split; [reflexivity|].
    split; [apply repeat_length|].
    intros i Hi. destruct (2 <? len local) eqn:E; [lia|]. simpl.
    now apply nth_repeat_lt.
  - assert (Hlen : (3 <= length local)%nat) by (unfold len in Hshort; lia).
    rewrite index_first, index_last by (unfold len; lia). simpl bind.
    replace (len local - 2) with (Z.of_nat (length local - 2)) by (unfold len; lia).
    rewrite times_nat.
    exists ([nth 0 local zero] ++ repeat "*"%char (length local - 2)
              ++ [nth (length local - 1) local zero]).
    split; [reflexivity|]. split.
    + rewrite !length_app, repeat_length. simpl. lia.
    + intros i Hi. destruct (2 <? len local) eqn:E; [|unfold len in E; lia].
      cbn [andb]. destruct i as [|i]; [reflexivity|].
      change (S i =? 0)%nat with false. cbn [orb app nth].
      destruct (Nat.eqb_spec (S i) (length local - 1)) as [Heq|Hneq].
      * rewrite app_nth2; rewrite repeat_length; [|lia].
        replace (i - (length local - 2))%nat with 0%nat by lia.
        rewrite Heq. reflexivity.
      * rewrite app_nth1 by (rewrite repeat_length; lia).
        apply nth_repeat_lt. lia.
Qed.

Lemma email_masking_witness :
  let local := py "p.martin" in
  let domain := py "exemple.fr" in
  ~ In "@"%char local /\
  exists masked_local,
    _mask_email (local ++ py "@" ++ domain) = Ok (masked_local ++ py "@" ++ domain) /\
    length masked_local = 8%nat /\
    forall i : nat, (i < 8)%nat ->
      nth i masked_local zero =
      if (2 <? 8) && ((i =? 0)%nat || (i =? 7)%nat)
      then nth i local zero
      else "*"%char.
Proof.
  intros local domain.
  assert (Hnot : ~ In "@"%char local).
  { simpl. intros H. repeat (destruct H as [H|H]; [discriminate H|]). exact H. }
  split; [exact Hnot|].
  exact (proj1 email_masking local domain Hnot).
Defined.

(** ** The checksum validators *)

(** *** Reading integers *)

Lemma lstrip_id s :
  match s with [] => True | c :: _ => int_space c = false end -> lstrip s = s.
Proof. destruct s as [|c s]; simpl; [reflexivity|]. now intros ->. Qed.

Lemma digit_not_space c : isdecimal_char c = true -> int_space c = false.
Proof.
  unfold isdecimal_char, int_space, in_range. intros H.
  apply andb_true_iff in H. destruct H as [H1 H2].
  repeat (apply orb_false_iff; split); [apply andb_false_iff; right| | |]; lia.
Qed.

Lemma strip_ws_digits s : forallb isdecimal_char s = true -> strip_ws s = s.
Proof.
  intros H. unfold strip_ws.
  assert (Hall : forall c, In c s -> int_space c = false).
  { intros c Hc. apply digit_not_space. rewrite forallb_forall in H. now apply H. }
  rewrite (lstrip_id s).
  - rewrite (lstrip_id (rev s)); [apply rev_involutive|].
    destruct (rev s) as [|c r] eqn:E; [exact I|].
    apply Hall. apply in_rev. rewrite E. now left.
  - destruct s as [|c r]; [exact I|]. apply Hall. now left.
Qed.

Lemma digit_not_underscore c : isdecimal_char c = true -> Ascii.eqb c "_" = false.
Proof.
  intros H. destruct (Ascii.eqb_spec c "_") as [->|]; [discriminate H | reflexivity].
Qed.

Lemma int_digits_digits s : forall acc b,
  forallb isdecimal_char s = true ->
  int_digits acc b s =
  match s with
  | [] => if b then Some acc else None
  | _ => Some (decimal_value_from acc s)
  end.
Proof.
  induction s as [|c s IH]; intros acc b H; [reflexivity|].
  simpl in H. apply andb_true_iff in H. destruct H as [Hc Hs].
  cbn [int_digits]. rewrite (digit_not_underscore c Hc), Hc.
  rewrite (IH _ true Hs). destruct s; reflexivity.
Qed.

Lemma int_literal_digits s :
  s <> [] -> forallb isdecimal_char s = true ->
  int_literal s = Some (decimal_value_from 0 s).
Proof.
  intros Hne H. unfold int_literal. rewrite (strip_ws_digits s H).
  destruct s as [|c s]; [congruence|].
  pose proof H as H'. simpl in H'. apply andb_true_iff in H'. destruct H' as [Hc _].
  destruct (Ascii.eqb_spec c "+") as [->|]; [discriminate Hc|].
  destruct (Ascii.eqb_spec c "-") as [->|]; [discriminate Hc|].
  now rewrite (int_digits_digits (c :: s) 0 false H).
Qed.

Lemma py_int_digit d : isdecimal_char d = true -> py_int [d] = Ok (code d - 48).
Proof.
  intros H. unfold py_int. rewrite int_literal_digits.
  - reflexivity.
  - discriminate.
  - simpl. now rewrite H.
Qed.

(** *** Luhn *)

Lemma superscript_not_decimal c :
  superscript_digit c = true -> isdecimal_char c = false.
Proof.
  unfold superscript_digit, isdecimal_char, in_range. intros H.
  apply andb_false_iff.
  destruct (code c <=? 57) eqn:E; [|now right].
  exfalso. rewrite !orb_true_iff in H. zbool. lia.
Qed.

Lemma isdigit_char_decimal c :
  superscript_digit c = false -> isdigit_char c = isdecimal_char c.
Proof. unfold isdigit_char. intros ->. apply orb_false_r. Qed.

(** [int()] does not read a superscript digit. *)
Lemma py_int_superscript d :
  superscript_digit d = true -> py_int [d] = Raise ValueError.
Proof.
  destruct d as [[] [] [] [] [] [] [] []]; intros H; try discriminate H; reflexivity.
Qed.

(** The comprehension [[int(d) for d in number if d.isdigit()]]: it raises
    on the first superscript digit, and gives the values of the decimal
    digits when there is none. *)
Lemma mapM_py_int_digits s :
  mapM (fun d => py_int [d]) (filter isdigit_char s)
  = if existsb superscript_digit s then Raise ValueError else Ok (digit_values s).
Proof.
  unfold digit_values. induction s as [|c s IH]; [reflexivity|].
  cbn [filter existsb]. destruct (superscript_digit c) eqn:Es.
  - unfold isdigit_char. rewrite Es, orb_true_r. cbn [mapM orb].
    now rewrite (py_int_superscript c Es).
  - rewrite (isdigit_char_decimal c Es). cbn [orb].
    destruct (isdecimal_char c) eqn:E; [|exact IH].
    cbn [mapM map]. rewrite (py_int_digit c E), IH. cbn [bind].
    now destruct (existsb superscript_digit s).
Qed.

Lemma list_pair_ind {A : Type} (P : list A -> Prop) :
  P [] -> (forall a, P [a]) -> (forall a b l, P l -> P (a :: b :: l)) ->
  forall l, P l.
Proof.
  intros H0 H1 H2.
  assert (H : forall l, P l /\ forall a, P (a :: l)).
  { induction l as [|b l [IH1 IH2]]; split; auto. }
  intros l. apply H.
Qed.

Lemma luhn_loop_sum digits : forall i check_sum,
  i mod 2 = 0 -> luhn_loop i check_sum digits = check_sum + luhn_sum digits.
Proof.
  induction digits as [| d | d e rest IH] using list_pair_ind;
    intros i check_sum Hi.
  - simpl. lia.
  - simpl. rewrite Hi. simpl. lia.
  - cbn [luhn_loop luhn_sum]. rewrite Hi. cbn [Z.eqb negb].
    assert (Hodd : (i + 1) mod 2 = 1).
    { rewrite Z.add_mod, Hi by lia. reflexivity. }
    rewrite Hodd. cbn [Z.eqb negb].
    rewrite IH.
    + unfold luhn_double. cbv zeta. replace (e * 2) with (2 * e) by lia.
      destruct (2 * e >? 9) eqn:E1, (9 <? 2 * e) eqn:E2; lia.
    + replace (i + 1 + 1) with (i + 1 * 2) by lia.
      now rewrite Z.mod_add by lia.
Qed.

Lemma _is_valid_luhn_cases number :
  _is_valid_luhn number
  = if existsb superscript_digit number then Raise ValueError
    else Ok (luhn_sum (rev (digit_values number)) mod 10 =? 0).
Proof.
  unfold _is_valid_luhn. rewrite mapM_py_int_digits.
  destruct (existsb superscript_digit number); [reflexivity|].
  cbn [bind]. now rewrite luhn_loop_sum.
Qed.

Lemma _is_valid_luhn_sum number :
  existsb superscript_digit number = false ->
  _is_valid_luhn number = Ok (luhn_sum (rev (digit_values number)) mod 10 =? 0).
Proof. intros H. now rewrite _is_valid_luhn_cases, H. Qed.

Lemma _is_valid_luhn_superscript number :
  existsb superscript_digit number = true -> _is_valid_luhn number = Raise ValueError.
Proof. intros H. now rewrite _is_valid_luhn_cases, H. Qed.

Lemma _is_valid_luhn_Ok number b :
  _is_valid_luhn number = Ok b ->
  existsb superscript_digit number = false /\
  b = (luhn_sum (rev (digit_values number)) mod 10 =? 0).
Proof.
  rewrite _is_valid_luhn_cases.
  destruct (existsb superscript_digit number); [discriminate|].
  intros [= <-]. now split.
Qed.

Lemma slice_from_suffix (a b : str) :
  0 < len b -> slice_from (a ++ b) (- len b) = b.
Proof.
  intros Hb. unfold slice_from, slice, norm_index, len in *.
  rewrite length_app.
  destruct (- Z.of_nat (length b) <? 0) eqn:E1; [|exfalso; zbool; lia].
  destruct (Z.of_nat (length a + length b) <? 0) eqn:E2; [exfalso; zbool; lia|].
  rewrite Z.min_id.
  replace (Z.to_nat (Z.max 0 (- Z.of_nat (length b) + Z.of_nat (length a + length b))))
    with (length a + 0)%nat by lia.
  replace (Z.to_nat _) with (length b) by lia.
  rewrite skipn_app, skipn_all2 by lia.
  replace (length a + 0 - length a)%nat with 0%nat by lia.
  simpl. apply firstn_all.
Qed.

Lemma slice_from_skipn s (n : nat) : slice_from s (Z.of_nat n) = skipn n s.
Proof.
  unfold slice_from, slice, norm_index, len.
  destruct (Z.of_nat n <? 0) eqn:E1; [exfalso; zbool; lia|].
  destruct (Z.of_nat (length s) <? 0) eqn:E2; [exfalso; zbool; lia|].
  rewrite Z.min_id.
  destruct (Nat.le_gt_cases n (length s)) as [Hle|Hgt].
  - rewrite Z.min_l by lia. rewrite Nat2Z.id.
    apply firstn_all2. rewrite length_skipn. lia.
  - rewrite Z.min_r by lia. rewrite Z.sub_diag. simpl.
    symmetry. apply skipn_all2. lia.
Qed.

Lemma slice_to_firstn s (n : nat) : slice_to s (Z.of_nat n) = firstn n s.
Proof.
  unfold slice_to, slice, norm_index, len. simpl (0 <? 0).
  destruct (Z.of_nat n <? 0) eqn:E1; [exfalso; zbool; lia|].
  rewrite (Z.min_l 0) by lia. rewrite Z.sub_0_r. simpl skipn.
  destruct (Nat.le_gt_cases n (length s)) as [Hle|Hgt].
  - rewrite Z.min_l by lia. now rewrite Nat2Z.id.
  - rewrite Z.min_r by lia. rewrite Nat2Z.id.
    rewrite firstn_all. symmetry. apply firstn_all2. lia.
Qed.




(** *** IBAN *)

Lemma dict_get_numeral c : dict_get _alpha_to_num c [c] = numeral_of_char c.
Proof.
  destruct c as [[] [] [] [] [] [] [] []]; vm_compute; reflexivity.
Qed.

Lemma _iban_to_numeric_numeral w : _iban_to_numeric w = numeral w.
Proof.
  unfold _iban_to_numeric, numeral. f_equal. apply map_ext, dict_get_numeral.
Qed.

Lemma numeral_of_char_digits c :
  iban_char c = true ->
  forallb isdecimal_char (numeral_of_char c) = true /\ numeral_of_char c <> [].
Proof.
  destruct c as [[] [] [] [] [] [] [] []]; intros H; try discriminate H;
    split; try discriminate; vm_compute; reflexivity.
Qed.

Lemma numeral_of_char_value c acc :
  iban_char c = true ->
  decimal_value_from acc (numeral_of_char c) =
  if isdecimal_char c then 10 * acc + (code c - 48) else 100 * acc + (code c - 55).
Proof.
  destruct c as [[] [] [] [] [] [] [] []]; intros H; try discriminate H;
    unfold decimal_value_from;
    match goal with
    | |- context [numeral_of_char ?c] =>
        let s := eval vm_compute in (numeral_of_char c) in
        let b := eval vm_compute in (isdecimal_char c) in
        change (numeral_of_char c) with s; change (isdecimal_char c) with b
    end;
    cbn [fold_left];
    repeat match goal with
      | |- context [code ?c] =>
          let v := eval vm_compute in (code c) in change (code c) with v
      end;
    lia.
Qed.

Lemma numeral_digits w :
  forallb iban_char w = true -> forallb isdecimal_char (numeral w) = true.
Proof.
  unfold numeral. induction w as [|c w IH]; intros H; [reflexivity|].
  simpl in H. apply andb_true_iff in H. destruct H as [Hc Hw].
  simpl. rewrite forallb_app, (IH Hw).
  now rewrite (proj1 (numeral_of_char_digits c Hc)).
Qed.

Lemma numeral_value w : forall acc,
  forallb iban_char w = true ->
  decimal_value_from acc (numeral w) =
  fold_left
    (fun acc c =>
       if isdecimal_char c then 10 * acc + (code c - 48)
       else 100 * acc + (code c - 55))
    w acc.
Proof.
  unfold numeral. induction w as [|c w IH]; intros acc H; [reflexivity|].
  simpl in H. apply andb_true_iff in H. destruct H as [Hc Hw].
  cbn [map concat fold_left].
  replace (decimal_value_from acc (numeral_of_char c ++ concat (map numeral_of_char w)))
    with (decimal_value_from (decimal_value_from acc (numeral_of_char c))
            (concat (map numeral_of_char w)))
    by (unfold decimal_value_from; now rewrite fold_left_app).
  rewrite (numeral_of_char_value c acc Hc). now apply IH.
Qed.

Lemma int_literal_numeral w :
  w <> [] -> forallb iban_char w = true ->
  int_literal (numeral w) = Some (iban_value w).
Proof.
  intros Hne H. rewrite int_literal_digits.
  - now rewrite numeral_value.
  - destruct w as [|c w]; [congruence|].
    simpl in H. apply andb_true_iff in H. destruct H as [Hc _].
    unfold numeral. simpl. intros Happ. apply app_eq_nil in Happ.
    now apply (proj2 (numeral_of_char_digits c Hc)).
  - now apply numeral_digits.
Qed.

Lemma rearranged_slices raw : slice_from raw 4 ++ slice_to raw 4 = rearranged raw.
Proof.
  unfold rearranged. change 4 with (Z.of_nat 4).
  now rewrite slice_from_skipn, slice_to_firstn.
Qed.

Lemma _is_valid_iban_unfold s :
  _is_valid_iban s =
  let raw := upper (_strip s) in
  if negb (startswith raw (py "FR")) || negb (len raw =? 27) then Ok false
  else match int_literal (numeral (rearranged raw)) with
       | Some num => Ok (num mod 97 =? 1)
       | None => Raise ValueError
       end.
Proof.
  unfold _is_valid_iban. cbv zeta.
  destruct (negb (startswith (upper (_strip s)) (py "FR")) ||
            negb (len (upper (_strip s)) =? 27)); [reflexivity|].
  rewrite rearranged_slices, _iban_to_numeric_numeral. unfold py_int.
  destruct (int_literal (numeral (rearranged (upper (_strip s))))); reflexivity.
Qed.

Lemma isdecimal_char_cases d :
  isdecimal_char d = true -> In d (py "0123456789").
Proof.
  destruct d as [[] [] [] [] [] [] [] []]; intros H; try discriminate H;
    simpl; tauto.
Qed.

(** Every way of writing another digit over one digit of the reference
    IBAN, checked by evaluation. *)
Lemma altered_iban_all :
  let iban := py "FR7630006000011234567890189" in
  forallb
    (fun i =>
       forallb
         (fun d =>
            if isdecimal_char (nth i iban zero) && negb (Ascii.eqb d (nth i iban zero))
            then match _is_valid_iban (replace_nth i d iban) with
                 | Ok false => true
                 | _ => false
                 end
            else true)
         (py "0123456789"))
    (seq 0 27) = true.
Proof. vm_compute. reflexivity. Qed.

(** C5.  [_is_valid_iban] accepts a string exactly when, stripped of
    whitespace and dashes and put in capitals, it starts with FR, has 27
    characters, and the integer read from the string that has its first
    four characters moved to the end and each letter replaced by the
    decimal digits of its value (A=10 ... Z=35) leaves remainder 1 modulo
    97.  For a string of digits and capital letters that integer is the
    number obtained place by place, a digit counting for one decimal place
    and a letter for two.  FR7630006000011234567890189 is accepted, and
    writing any other digit over one of its digits makes the validator
    return false. *)
Theorem iban_validation :
  (forall s, _is_valid_iban s = Ok true <-> iban_accepted s) /\
  (forall w, w <> [] -> forallb iban_char w = true ->
             int_literal (numeral w) = Some (iban_value w)) /\
  _is_valid_iban (py "FR7630006000011234567890189") = Ok true /\
  (forall (i : nat) (d : ascii),
     let iban := py "FR7630006000011234567890189" in
     (i < length iban)%nat ->
     isdecimal_char (nth i iban zero) = true ->
     isdecimal_char d = true ->
     d <> nth i iban zero ->
     _is_valid_iban (replace_nth i d iban) = Ok false).
Proof.
  split; [|split; [|split]].
  - intros s. rewrite _is_valid_iban_unfold. unfold iban_accepted. cbv zeta.
    set (raw := upper (_strip s)).
    destruct (startswith raw (py "FR")) eqn:Hfr; simpl.
    + destruct (len raw =? 27) eqn:Hlen; simpl.
      * destruct (int_literal (numeral (rearranged raw))) as [v|] eqn:Hv.
        -- split.
           ++ intros [= H]. repeat split; [lia|]. exists v. split; [reflexivity | lia].
           ++ intros (_ & _ & v' & [= <-] & Hmod). f_equal. lia.
        -- split; [discriminate|]. intros (_ & _ & v' & [=] & _).
      * split; [discriminate|]. intros (_ & H & _). lia.
    + split; [discriminate|]. intros (H & _). discriminate H.
  - apply int_literal_numeral.
  - vm_compute. reflexivity.
  - intros i d iban Hi Hdi Hd Hneq.
    pose proof altered_iban_all as Hall. cbv zeta in Hall. fold iban in Hall.
    rewrite forallb_forall in Hall.
    specialize (Hall i). rewrite in_seq in Hall.
    assert (Hi' : (0 <= i < 0 + 27)%nat) by (split; [lia | exact Hi]).
    specialize (Hall Hi'). rewrite forallb_forall in Hall.
    specialize (Hall d (isdecimal_char_cases d Hd)).
    rewrite Hdi in Hall.
    destruct (Ascii.eqb_spec d (nth i iban zero)) as [Heq|_]; [contradiction|].
    simpl in Hall.
    destruct (_is_valid_iban (replace_nth i d iban)) as [[|]|]; try discriminate Hall.
    reflexivity.
Qed.

(** The reference IBAN written in groups is accepted; its rearranged form
    is read place by place; a 4 written over its digit 3 is rejected. *)
Lemma iban_validation_witness :
  let iban := py "FR7630006000011234567890189" in
  let w := py "30006000011234567890189FR76" in
  (_is_valid_iban (py "FR76 3000 6000 0112 3456 7890 189") = Ok true /\
   iban_accepted (py "FR76 3000 6000 0112 3456 7890 189")) /\
  (w <> [] /\ forallb iban_char w = true /\
   int_literal (numeral w) = Some (iban_value w)) /\
  ((4 < length iban)%nat /\
   isdecimal_char (nth 4 iban zero) = true /\
   isdecimal_char "4" = true /\
   "4"%char <> nth 4 iban zero /\
   _is_valid_iban (py "FR7640006000011234567890189") = Ok false).
Proof.
  intros iban w.
  destruct iban_validation as (Hiff & Hvalue & _ & Halt).
  split; [|split].
  - assert (H : _is_valid_iban (py "FR76 3000 6000 0112 3456 7890 189") = Ok true)
      by (vm_compute; reflexivity).
    split; [exact H|]. exact (proj1 (Hiff _) H).
  - assert (H1 : w <> []) by discriminate.
    assert (H2 : forallb iban_char w = true) by (vm_compute; reflexivity).
    split; [exact H1|]. split; [exact H2|]. exact (Hvalue w H1 H2).
  - assert (H1 : (4 < length iban)%nat) by (simpl; lia).
    assert (H2 : isdecimal_char (nth 4 iban zero) = true) by reflexivity.
    assert (H3 : isdecimal_char "4" = true) by reflexivity.
    assert (H4 : "4"%char <> nth 4 iban zero) by discriminate.
    split; [exact H1|]. split; [exact H2|]. split; [exact H3|]. split; [exact H4|].
    exact (Halt 4%nat "4"%char H1 H2 H3 H4).
Defined.

(** *** Failing closed *)

Lemma slice_to_prefix (a b : str) :
  0 < len b -> slice_to (a ++ b) (- len b) = a.
Proof.
  intros Hb. unfold slice_to, slice, norm_index, len in *.
  rewrite length_app. simpl (0 <? 0).
  destruct (- Z.of_nat (length b) <? 0) eqn:E1; [|exfalso; zbool; lia].
  rewrite (Z.min_l 0) by lia. rewrite Z.sub_0_r. simpl skipn.
  replace (Z.to_nat _) with (length a + 0)%nat by lia.
  rewrite firstn_app_2. simpl. now rewrite app_nil_r.
Qed.

Lemma isdigit_forallb s :
  isdigit s = true -> s <> [] /\ forallb isdigit_char s = true.
Proof. destruct s; [discriminate|]. intros H. split; [discriminate | exact H]. Qed.

Lemma forallb_isdecimal s :
  existsb superscript_digit s = false -> forallb isdigit_char s = true ->
  forallb isdecimal_char s = true.
Proof.
  induction s as [|c s IH]; [reflexivity|]. cbn [existsb forallb].
  intros Hs Hd. apply orb_false_iff in Hs. destruct Hs as [Hc Hs].
  apply andb_true_iff in Hd. destruct Hd as [Hdc Hd].
  rewrite (isdigit_char_decimal c Hc) in Hdc. rewrite Hdc. now apply IH.
Qed.

Lemma existsb_filter_false {A : Type} (p q : A -> bool) l :
  existsb p l = false -> existsb p (filter q l) = false.
Proof.
  induction l as [|x l IH]; [reflexivity|]. cbn [existsb filter].
  intros H. apply orb_false_iff in H. destruct H as [Hx Hl].
  destruct (q x); [cbn [existsb]; rewrite Hx|]; now apply IH.
Qed.

Lemma py_int_digits_Ok s :
  s <> [] -> forallb isdecimal_char s = true -> exists v, py_int s = Ok v.
Proof.
  intros Hne H. unfold py_int. rewrite (int_literal_digits s Hne H). eauto.
Qed.

(** Without a superscript digit in its argument [_is_valid_nir] returns. *)
Lemma _is_valid_nir_total s :
  existsb superscript_digit s = false -> exists b, _is_valid_nir s = Ok b.
Proof.
  intros Hsup. apply (existsb_filter_false _ (fun c => negb (re_space c || Ascii.eqb c "-")))
    in Hsup. fold (_strip s) in Hsup.
  unfold _is_valid_nir. cbv zeta. set (num := _strip s) in *.
  destruct (len num =? 15) eqn:Hlen; simpl; [|eauto].
  destruct (isdigit num) eqn:Hdig; simpl; [|eauto].
  apply isdigit_forallb in Hdig. destruct Hdig as [_ Hall].
  apply (forallb_isdecimal num Hsup) in Hall.
  assert (Hl : length num = 15%nat) by (unfold len in Hlen; lia).
  rewrite <- (firstn_skipn 13 num) in Hall |- *.
  rewrite forallb_app in Hall. apply andb_true_iff in Hall.
  destruct Hall as [Ha Hb].
  assert (Hlb : length (skipn 13 num) = 2%nat) by (rewrite length_skipn; lia).
  assert (Hla : length (firstn 13 num) = 13%nat) by (rewrite length_firstn; lia).
  replace (-2) with (- len (skipn 13 num)) by (unfold len; lia).
  rewrite slice_from_suffix, slice_to_prefix by (unfold len; lia).
  destruct (py_int_digits_Ok (skipn 13 num)) as [key ->]; auto.
  { intros E. rewrite E in Hlb. discriminate. }
  destruct (py_int_digits_Ok (firstn 13 num)) as [n ->]; auto.
  { intros E. rewrite E in Hla. discriminate. }
  simpl. eauto.
Qed.

Lemma upper_iban_char c : alnum_char c = true -> iban_char (upper_char c) = true.
Proof.
  destruct c as [[] [] [] [] [] [] [] []]; intros H; try discriminate H;
    vm_compute; reflexivity.
Qed.

Lemma _is_valid_iban_alnum s :
  forallb alnum_char (_strip s) = true -> exists b, _is_valid_iban s = Ok b.
Proof.
  intros H. rewrite _is_valid_iban_unfold. cbv zeta.
  set (raw := upper (_strip s)).
  destruct (startswith raw (py "FR")); simpl; [|eauto].
  destruct (len raw =? 27) eqn:Hlen; simpl; [|eauto].
  assert (Hraw : forallb iban_char raw = true).
  { subst raw. unfold upper. rewrite forallb_forall in *.
    intros c Hc. apply in_map_iff in Hc. destruct Hc as (c' & <- & Hc').
    apply upper_iban_char. now apply H. }
  assert (Hl : length raw = 27%nat) by (unfold len in Hlen; lia).
  rewrite int_literal_numeral; [eauto | |].
  - unfold rearranged. intros E. apply app_eq_nil in E. destruct E as [E _].
    apply (f_equal (@length ascii)) in E. rewrite length_skipn in E. simpl in E. lia.
  - unfold rearranged. rewrite forallb_app.
    rewrite <- (firstn_skipn 4 raw), forallb_app in Hraw.
    apply andb_true_iff in Hraw. destruct Hraw as [H1 H2]. now rewrite H1, H2.
Qed.

(** A match of the IBAN pattern has 25 digits and letters besides
    whitespace: FR, two characters, five groups of four and one more.  The
    validator rejects every such string: putting ASCII digits and letters
    in capitals keeps their number. *)
Lemma _is_valid_iban_25 s :
  forallb alnum_char (_strip s) = true ->
  length (_strip s) = 25%nat -> _is_valid_iban s = Ok false.
Proof.
  intros _ H. unfold _is_valid_iban. cbv zeta.
  assert (E : (len (upper (_strip s)) =? 27) = false).
  { unfold len, upper. rewrite length_map, H. reflexivity. }
  rewrite E. now rewrite orb_true_r.
Qed.




(** * Further properties *)

(** ** Decimal values *)

Lemma decimal_value_from_acc s : forall acc,
  decimal_value_from acc s =
  acc * 10 ^ Z.of_nat (length s) + decimal_value_from 0 s.
Proof.
  unfold decimal_value_from.
  induction s as [|c s IH]; intros acc.
  - simpl. lia.
  - cbn [fold_left length]. rewrite (IH (10 * acc + (code c - 48))).
    rewrite (IH (10 * 0 + (code c - 48))).
    rewrite Nat2Z.inj_succ, Z.pow_succ_r by lia. ring.
Qed.

Lemma decimal_value_from_app a b acc :
  decimal_value_from acc (a ++ b) =
  decimal_value_from (decimal_value_from acc a) b.
Proof. unfold decimal_value_from. apply fold_left_app. Qed.

(** Writing the digit [d] for [c] in a number moves its value by the
    difference of the digits times the weight of the place. *)
Lemma decimal_value_replace a b c d :
  decimal_value_from 0 (a ++ d :: b) =
  decimal_value_from 0 (a ++ c :: b)
  + (code d - code c) * 10 ^ Z.of_nat (length b).
Proof.
  rewrite !decimal_value_from_app.
  change (decimal_value_from ?x (d :: b))
    with (decimal_value_from (10 * x + (code d - 48)) b).
  change (decimal_value_from (decimal_value_from 0 a) (c :: b))
    with (decimal_value_from (10 * decimal_value_from 0 a + (code c - 48)) b).
  rewrite (decimal_value_from_acc b (10 * _ + (code d - 48))).
  rewrite (decimal_value_from_acc b (10 * _ + (code c - 48))).
  ring.
Qed.

Lemma digit_code c : isdecimal_char c = true -> 48 <= code c <= 57.
Proof.
  unfold isdecimal_char, in_range. intros H.
  apply andb_true_iff in H. destruct H. zbool. lia.
Qed.

Lemma code_inj c d : code c = code d -> c = d.
Proof.
  unfold code. intros H. apply N2Z.inj in H.
  rewrite <- (ascii_N_embedding c), <- (ascii_N_embedding d). now rewrite H.
Qed.

Lemma divide97_times10 (x : Z) : (97 | 10 * x) -> (97 | x).
Proof. intros [q Hq]. exists (68 * q - 7 * x). lia. Qed.

Lemma divide97_pow10 (k : nat) : forall x, (97 | x * 10 ^ Z.of_nat k) -> (97 | x).
Proof.
  induction k as [|k IH]; intros x H.
  - simpl in H. now rewrite Z.mul_1_r in H.
  - rewrite Nat2Z.inj_succ, Z.pow_succ_r in H by lia.
    apply divide97_times10, IH.
    now replace (10 * x * 10 ^ Z.of_nat k) with (x * (10 * 10 ^ Z.of_nat k)) by ring.
Qed.

(** 97 divides no product of a nonzero digit difference and a power of
    ten. *)
Lemma mod97_digit_shift (delta : Z) (k : nat) :
  -9 <= delta <= 9 -> delta <> 0 ->
  (delta * 10 ^ Z.of_nat k) mod 97 <> 0.
Proof.
  intros Hd Hnz Hmod.
  apply Z.mod_divide in Hmod; [|lia].
  apply divide97_pow10 in Hmod. destruct Hmod as [q Hq]. lia.
Qed.

Lemma mod97_shift_neq (n delta : Z) (k : nat) :
  -9 <= delta <= 9 -> delta <> 0 ->
  (n + delta * 10 ^ Z.of_nat k) mod 97 <> n mod 97.
Proof.
  intros Hd Hnz Heq.
  apply (mod97_digit_shift delta k Hd Hnz).
  assert (H : (n + delta * 10 ^ Z.of_nat k - n) mod 97 = 0).
  { rewrite Zminus_mod, Heq, Z.sub_diag. reflexivity. }
  now replace (n + delta * 10 ^ Z.of_nat k - n)
    with (delta * 10 ^ Z.of_nat k) in H by ring.
Qed.

(** ** Cutting a string around one position *)

Lemma firstn_before {A : Type} (n : nat) (a b : list A) x :
  (n <= length a)%nat -> firstn n (a ++ x :: b) = firstn n a.
Proof.
  intros H. rewrite firstn_app. replace (n - length a)%nat with 0%nat by lia.
  simpl. apply app_nil_r.
Qed.

Lemma skipn_before {A : Type} (n : nat) (a b : list A) x :
  (n <= length a)%nat -> skipn n (a ++ x :: b) = skipn n a ++ x :: b.
Proof.
  intros H. rewrite skipn_app. replace (n - length a)%nat with 0%nat by lia.
  reflexivity.
Qed.

Lemma firstn_after {A : Type} (n : nat) (a b : list A) x :
  (length a < n)%nat ->
  firstn n (a ++ x :: b) = a ++ x :: firstn (n - length a - 1) b.
Proof.
  intros H. rewrite firstn_app, firstn_all2 by lia. f_equal.
  destruct (n - length a)%nat as [|m] eqn:E; [lia|].
  cbn [firstn]. do 2 f_equal. lia.
Qed.

Lemma skipn_after {A : Type} (n : nat) (a b : list A) x :
  (length a < n)%nat ->
  skipn n (a ++ x :: b) = skipn (n - length a - 1) b.
Proof.
  intros H. rewrite skipn_app, skipn_all2 by lia.
  destruct (n - length a)%nat as [|m] eqn:E; [lia|].
  cbn [skipn app]. f_equal. lia.
Qed.

Lemma _strip_digit (a b : str) c :
  isdecimal_char c = true -> _strip (a ++ c :: b) = _strip a ++ c :: _strip b.
Proof.
  intros Hc. unfold _strip. rewrite filter_app. cbn [filter].
  replace (re_space c) with false
    by (symmetry; apply (digit_not_space c Hc)).
  destruct (Ascii.eqb_spec c "-") as [->|_]; [discriminate Hc | reflexivity].
Qed.

(** ** The NIR key *)

Lemma isdigit_char_not_space c : isdigit_char c = true -> int_space c = false.
Proof.
  destruct c as [[] [] [] [] [] [] [] []]; intros H; try discriminate H; reflexivity.
Qed.

Lemma int_digits_superscript s : forall acc b,
  forallb isdigit_char s = true -> existsb superscript_digit s = true ->
  int_digits acc b s = None.
Proof.
  induction s as [|c s IH]; intros acc b Hd Hs; [discriminate Hs|].
  cbn [forallb existsb] in Hd, Hs. apply andb_true_iff in Hd. destruct Hd as [Hc Hd].
  cbn [int_digits]. destruct (superscript_digit c) eqn:Ec.
  - rewrite (superscript_not_decimal c Ec).
    destruct (Ascii.eqb_spec c "_") as [->|_]; [discriminate Ec | reflexivity].
  - rewrite (isdigit_char_decimal c Ec) in Hc.
    rewrite (digit_not_underscore c Hc), Hc. now apply IH.
Qed.

(** [int()] of digits with a superscript digit among them. *)
Lemma py_int_superscripts s :
  forallb isdigit_char s = true -> existsb superscript_digit s = true ->
  py_int s = Raise ValueError.
Proof.
  intros Hd Hs. unfold py_int, int_literal.
  assert (Hall : forall c, In c s -> int_space c = false).
  { intros c Hc. apply isdigit_char_not_space. rewrite forallb_forall in Hd. now apply Hd. }
  assert (Hstrip : strip_ws s = s).
  { unfold strip_ws. rewrite (lstrip_id s).
    - rewrite (lstrip_id (rev s)); [apply rev_involutive|].
      destruct (rev s) as [|c r] eqn:E; [exact I|].
      apply Hall. apply in_rev. rewrite E. now left.
    - destruct s as [|c r]; [exact I|]. apply Hall. now left. }
  rewrite Hstrip. destruct s as [|c r]; [reflexivity|].
  pose proof Hd as Hd'. cbn [forallb] in Hd'. apply andb_true_iff in Hd'.
  destruct Hd' as [Hc _].
  destruct (Ascii.eqb_spec c "+") as [->|]; [discriminate Hc|].
  destruct (Ascii.eqb_spec c "-") as [->|]; [discriminate Hc|].
  now rewrite (int_digits_superscript (c :: r) 0 false Hd Hs).
Qed.

(** What [_is_valid_nir] does: false unless the stripped argument is 15
    digits; on 15 digits a [ValueError] from [int()] when one of them is a
    superscript digit, and else the comparison of the key. *)
Lemma _is_valid_nir_value s :
  _is_valid_nir s =
  let num := _strip s in
  if negb ((len num =? 15) && isdigit num) then Ok false
  else if existsb superscript_digit num then Raise ValueError
  else Ok (97 - decimal_value_from 0 (firstn 13 num) mod 97
           =? decimal_value_from 0 (skipn 13 num)).
Proof.
  unfold _is_valid_nir. cbv zeta. set (num := _strip s).
  destruct (len num =? 15) eqn:Hlen; simpl; [|reflexivity].
  destruct (isdigit num) eqn:Hdig; simpl; [|reflexivity].
  apply isdigit_forallb in Hdig. destruct Hdig as [_ Hall].
  assert (Hl : length num = 15%nat) by (unfold len in Hlen; lia).
  pose proof Hall as Hall'.
  rewrite <- (firstn_skipn 13 num), forallb_app in Hall'.
  apply andb_true_iff in Hall'. destruct Hall' as [Ha Hb].
  assert (Hlb : length (skipn 13 num) = 2%nat) by (rewrite length_skipn; lia).
  assert (Hla : length (firstn 13 num) = 13%nat) by (rewrite length_firstn; lia).
  assert (Hkey : slice_from num (-2) = skipn 13 num).
  { rewrite <- (firstn_skipn 13 num) at 1.
    replace (-2) with (- len (skipn 13 num)) by (unfold len; lia).
    apply slice_from_suffix. unfold len. lia. }
  assert (Hn : slice_to num (-2) = firstn 13 num).
  { rewrite <- (firstn_skipn 13 num) at 1.
    replace (-2) with (- len (skipn 13 num)) by (unfold len; lia).
    apply slice_to_prefix. unfold len. lia. }
  rewrite Hkey, Hn.
  assert (Hsplit : existsb superscript_digit num
                   = existsb superscript_digit (firstn 13 num)
                     || existsb superscript_digit (skipn 13 num))
    by (rewrite <- existsb_app; now rewrite firstn_skipn).
  rewrite Hsplit.
  destruct (existsb superscript_digit (skipn 13 num)) eqn:Eb.
  { rewrite (py_int_superscripts _ Hb Eb). now rewrite orb_true_r. }
  rewrite orb_false_r. unfold py_int at 1.
  rewrite (int_literal_digits (skipn 13 num));
    [|intros E; rewrite E in Hlb; discriminate | now apply forallb_isdecimal].
  cbn [bind].
  destruct (existsb superscript_digit (firstn 13 num)) eqn:Ea.
  { now rewrite (py_int_superscripts _ Ha Ea). }
  unfold py_int.
  rewrite (int_literal_digits (firstn 13 num));
    [|intros E; rewrite E in Hla; discriminate | now apply forallb_isdecimal].
  reflexivity.
Qed.


Lemma decimal_value_nonneg s :
  forallb isdecimal_char s = true -> forall acc, 0 <= acc -> 0 <= decimal_value_from acc s.
Proof.
  unfold decimal_value_from.
  induction s as [|c s IH]; intros H acc Hacc; [exact Hacc|].
  simpl in H. apply andb_true_iff in H. destruct H as [Hc Hs].
  cbn [fold_left]. apply IH; [exact Hs|]. pose proof (digit_code c Hc). lia.
Qed.



Lemma Ok_inj {A : Type} (x y : A) : Ok x = Ok y -> x = y.
Proof. now intros [= ->]. Qed.

Lemma digit_delta c d :
  isdecimal_char c = true -> isdecimal_char d = true -> c <> d ->
  -9 <= code d - code c <= 9 /\ code d - code c <> 0.
Proof.
  intros Hc Hd Hneq.
  pose proof (digit_code c Hc) as Bc. pose proof (digit_code d Hd) as Bd.
  split; [lia|]. intros E. apply Hneq. apply code_inj. lia.
Qed.

Lemma decimal_not_superscript c : isdecimal_char c = true -> superscript_digit c = false.
Proof.
  intros H. destruct (superscript_digit c) eqn:E; [|reflexivity].
  apply superscript_not_decimal in E. congruence.
Qed.

Lemma decimal_isdigit c : isdecimal_char c = true -> isdigit_char c = true.
Proof. unfold isdigit_char. now intros ->. Qed.

Lemma superscript_around (A B : str) c :
  isdecimal_char c = true ->
  existsb superscript_digit (A ++ c :: B) = existsb superscript_digit (A ++ B).
Proof.
  intros Hc. rewrite !existsb_app. cbn [existsb].
  now rewrite (decimal_not_superscript c Hc).
Qed.

Lemma isdigit_replace (A B : str) c d :
  isdecimal_char d = true -> isdigit (A ++ c :: B) = true -> isdigit (A ++ d :: B) = true.
Proof.
  intros Hd.
  assert (E : forall x, isdigit (A ++ x :: B) = forallb isdigit_char (A ++ x :: B))
    by (intros x; destruct A; reflexivity).
  rewrite !E, !forallb_app. cbn [forallb]. rewrite (decimal_isdigit d Hd).
  destruct (forallb isdigit_char A); [|discriminate].
  destruct (isdigit_char c); [|discriminate]. now intros ->.
Qed.

(** X2.  One wrong digit is always caught by the NIR key: if a string is
    accepted by [_is_valid_nir], the string with one of its digits
    replaced by a different digit is rejected, whichever digit it is, in
    the number or in the key, and whatever whitespace or dashes the string
    has. *)
Theorem nir_single_digit_error (a b : str) (c d : ascii) :
  isdecimal_char c = true -> isdecimal_char d = true -> c <> d ->
  _is_valid_nir (a ++ c :: b) = Ok true ->
  _is_valid_nir (a ++ d :: b) = Ok false.
Proof.
  intros Hc Hd Hneq Hok.
  destruct (digit_delta c d Hc Hd Hneq) as [Hrange Hnz].
  rewrite _is_valid_nir_value in Hok |- *. cbv zeta in Hok |- *.
  rewrite (_strip_digit a b c Hc) in Hok. rewrite (_strip_digit a b d Hd).
  set (A := _strip a) in *. set (B := _strip b) in *.
  destruct ((len (A ++ c :: B) =? 15) && isdigit (A ++ c :: B)) eqn:Hguard;
    cbn [negb] in Hok; [|discriminate Hok].
  destruct (existsb superscript_digit (A ++ c :: B)) eqn:Hsup; [discriminate Hok|].
  apply Ok_inj in Hok. rename Hok into Hsum. apply Z.eqb_eq in Hsum.
  apply andb_true_iff in Hguard. destruct Hguard as [Hlen Hdig].
  assert (Hl : (length A + S (length B) = 15)%nat).
  { unfold len in Hlen. rewrite length_app in Hlen. simpl in Hlen. zbool. lia. }
  assert (Hguard' : (len (A ++ d :: B) =? 15) && isdigit (A ++ d :: B) = true).
  { apply andb_true_iff. split.
    - unfold len in *. rewrite length_app in *. exact Hlen.
    - exact (isdigit_replace A B c d Hd Hdig). }
  rewrite Hguard'. cbn [negb].
  rewrite (superscript_around A B d Hd), <- (superscript_around A B c Hc), Hsup.
  f_equal. apply Z.eqb_neq.
  destruct (Nat.le_gt_cases 13 (length A)) as [Hkey|Hnum].
  - (* the digit belongs to the key *)
    rewrite firstn_before, skipn_before in Hsum |- * by lia.
    rewrite (decimal_value_replace (skipn 13 A) B c d).
    assert (Hpow : 0 < 10 ^ Z.of_nat (length B)) by (apply Z.pow_pos_nonneg; lia).
    assert (Hprod : (code d - code c) * 10 ^ Z.of_nat (length B) <> 0)
      by (apply Z.neq_mul_0; lia).
    lia.
  - (* the digit belongs to the number *)
    rewrite firstn_after, skipn_after in Hsum |- * by lia.
    rewrite (decimal_value_replace A (firstn (13 - length A - 1) B) c d).
    rewrite <- Hsum.
    pose proof (mod97_shift_neq
                  (decimal_value_from 0 (A ++ c :: firstn (13 - length A - 1) B))
                  (code d - code c)
                  (length (firstn (13 - length A - 1) B)) Hrange Hnz).
    lia.
Qed.

(** A valid number written with spaces, and the same with its third digit
    changed from 4 to 5. *)
Lemma nir_single_digit_error_witness :
  isdecimal_char "4" = true /\ isdecimal_char "5" = true /\ "4"%char <> "5"%char /\
  _is_valid_nir (py "1 8" ++ "4"%char :: py " 12 76 451 089 46") = Ok true /\
  _is_valid_nir (py "1 8" ++ "5"%char :: py " 12 76 451 089 46") = Ok false.
Proof.
  assert (H1 : isdecimal_char "4" = true) by reflexivity.
  assert (H2 : isdecimal_char "5" = true) by reflexivity.
  assert (H3 : "4"%char <> "5"%char) by discriminate.
  assert (H4 : _is_valid_nir (py "1 8" ++ "4"%char :: py " 12 76 451 089 46") = Ok true)
    by (vm_compute; reflexivity).
  split; [exact H1|]. split; [exact H2|]. split; [exact H3|]. split; [exact H4|].
  exact (nir_single_digit_error _ _ _ _ H1 H2 H3 H4).
Defined.

(** ** The Luhn sum, digit by digit *)

Lemma luhn_loop_cons i check_sum d rest :
  luhn_loop i check_sum (d :: rest) =
  luhn_loop (i + 1) (check_sum + luhn_weight i d) rest.
Proof.
  cbn [luhn_loop]. unfold luhn_weight, luhn_double. cbv zeta.
  destruct (i mod 2 =? 0); cbn [negb]; [reflexivity|].
  replace (d * 2) with (2 * d) by lia.
  destruct (2 * d >? 9) eqn:E1, (9 <? 2 * d) eqn:E2; try reflexivity; lia.
Qed.

Lemma luhn_loop_acc digits : forall i check_sum,
  luhn_loop i check_sum digits = check_sum + luhn_loop i 0 digits.
Proof.
  induction digits as [|d rest IH]; intros i check_sum.
  - simpl. lia.
  - rewrite !luhn_loop_cons. rewrite (IH _ (check_sum + _)), (IH _ (0 + _)). lia.
Qed.

Lemma luhn_loop_app x : forall y i check_sum,
  luhn_loop i check_sum (x ++ y) =
  luhn_loop (i + Z.of_nat (length x)) (luhn_loop i check_sum x) y.
Proof.
  induction x as [|d x IH]; intros y i check_sum.
  - simpl. now rewrite Z.add_0_r.
  - cbn [app length]. rewrite !luhn_loop_cons, IH. f_equal. lia.
Qed.

Lemma _is_valid_luhn_loop number :
  _is_valid_luhn number =
  if existsb superscript_digit number then Raise ValueError
  else Ok (luhn_loop 0 0 (rev (digit_values number)) mod 10 =? 0).
Proof.
  unfold _is_valid_luhn. rewrite mapM_py_int_digits.
  now destruct (existsb superscript_digit number).
Qed.

Lemma digit_values_digit a b c :
  isdecimal_char c = true ->
  digit_values (a ++ c :: b) = digit_values a ++ (code c - 48) :: digit_values b.
Proof.
  intros Hc. unfold digit_values. rewrite filter_app. cbn [filter]. rewrite Hc.
  now rewrite map_app.
Qed.

(** The sum for a number, split at one digit: what comes after the digit
    in the number, the digit with its weight, what comes before. *)
Lemma luhn_sum_at a b c :
  isdecimal_char c = true ->
  luhn_loop 0 0 (rev (digit_values (a ++ c :: b))) =
  luhn_loop 0 0 (rev (digit_values b))
  + luhn_weight (Z.of_nat (length (digit_values b))) (code c - 48)
  + luhn_loop (Z.of_nat (length (digit_values b)) + 1) 0 (rev (digit_values a)).
Proof.
  intros Hc. rewrite (digit_values_digit a b c Hc).
  rewrite rev_app_distr. cbn [rev]. rewrite <- app_assoc. cbn [app].
  rewrite luhn_loop_app, length_rev, luhn_loop_cons. cbn [Z.add].
  rewrite (luhn_loop_acc (rev (digit_values a))). lia.
Qed.

Lemma luhn_weight_digits i v w :
  0 <= v <= 9 -> 0 <= w <= 9 -> v <> w ->
  -9 <= luhn_weight i w - luhn_weight i v <= 9 /\
  luhn_weight i w - luhn_weight i v <> 0.
Proof.
  intros Hv Hw Hneq. unfold luhn_weight, luhn_double. cbv zeta.
  destruct (i mod 2 =? 0); [lia|].
  destruct (9 <? 2 * v) eqn:E1, (9 <? 2 * w) eqn:E2; zbool; lia.
Qed.

Lemma mod10_shift_neq (n delta : Z) :
  -9 <= delta <= 9 -> delta <> 0 -> n mod 10 = 0 -> (n + delta) mod 10 <> 0.
Proof.
  intros Hd Hnz Hn Hn'.
  apply Z.mod_divide in Hn; [|lia]. apply Z.mod_divide in Hn'; [|lia].
  destruct Hn as [q Hq]. destruct Hn' as [q' Hq']. lia.
Qed.

(** X3.  One wrong digit is always caught by the Luhn check: if a string
    is accepted by [_is_valid_luhn], the string with one of its digits
    replaced by a different digit is rejected, wherever the digit stands
    and whatever other characters the string has. *)
Theorem luhn_single_digit_error (a b : str) (c d : ascii) :
  isdecimal_char c = true -> isdecimal_char d = true -> c <> d ->
  _is_valid_luhn (a ++ c :: b) = Ok true ->
  _is_valid_luhn (a ++ d :: b) = Ok false.
Proof.
  intros Hc Hd Hneq Hok.
  rewrite _is_valid_luhn_loop in Hok |- *.
  rewrite (superscript_around a b d Hd), <- (superscript_around a b c Hc).
  destruct (existsb superscript_digit (a ++ c :: b)); [discriminate Hok|].
  apply Ok_inj in Hok. apply Z.eqb_eq in Hok. f_equal. apply Z.eqb_neq.
  rewrite (luhn_sum_at a b c Hc) in Hok. rewrite (luhn_sum_at a b d Hd).
  pose proof (digit_code c Hc) as Bc. pose proof (digit_code d Hd) as Bd.
  assert (Hv : code c - 48 <> code d - 48).
  { intros E. apply Hneq, code_inj. lia. }
  destruct (luhn_weight_digits (Z.of_nat (length (digit_values b)))
              (code c - 48) (code d - 48)) as [Hrange Hnz]; try lia.
  set (i := Z.of_nat (length (digit_values b))) in *.
  set (S0 := luhn_loop 0 0 (rev (digit_values b))) in *.
  set (T := luhn_loop (i + 1) 0 (rev (digit_values a))) in *.
  replace (S0 + luhn_weight i (code d - 48) + T)
    with (S0 + luhn_weight i (code c - 48) + T
          + (luhn_weight i (code d - 48) - luhn_weight i (code c - 48))) by ring.
  now apply mod10_shift_neq.
Qed.

(** The reference card number written in groups, and the same with its
    second digit changed from 5 to 6. *)
Lemma luhn_single_digit_error_witness :
  isdecimal_char "5" = true /\ isdecimal_char "6" = true /\ "5"%char <> "6"%char /\
  _is_valid_luhn (py "4" ++ "5"%char :: py "39 1488 0343 6467") = Ok true /\
  _is_valid_luhn (py "4" ++ "6"%char :: py "39 1488 0343 6467") = Ok false.
Proof.
  assert (H1 : isdecimal_char "5" = true) by reflexivity.
  assert (H2 : isdecimal_char "6" = true) by reflexivity.
  assert (H3 : "5"%char <> "6"%char) by discriminate.
  assert (H4 : _is_valid_luhn (py "4" ++ "5"%char :: py "39 1488 0343 6467") = Ok true)
    by (vm_compute; reflexivity).
  split; [exact H1|]. split; [exact H2|]. split; [exact H3|]. split; [exact H4|].
  exact (luhn_single_digit_error _ _ _ _ H1 H2 H3 H4).
Defined.

Lemma luhn_sum_at2 a mid b x y :
  isdecimal_char x = true -> isdecimal_char y = true ->
  filter isdecimal_char mid = [] ->
  luhn_loop 0 0 (rev (digit_values (a ++ x :: mid ++ y :: b))) =
  luhn_loop 0 0 (rev (digit_values b))
  + luhn_weight (Z.of_nat (length (digit_values b))) (code y - 48)
  + luhn_weight (Z.of_nat (length (digit_values b)) + 1) (code x - 48)
  + luhn_loop (Z.of_nat (length (digit_values b)) + 2) 0 (rev (digit_values a)).
Proof.
  intros Hx Hy Hmid.
  rewrite (luhn_sum_at a (mid ++ y :: b) x Hx).
  rewrite (luhn_sum_at mid b y Hy).
  assert (Hdv : digit_values (mid ++ y :: b) = (code y - 48) :: digit_values b).
  { rewrite (digit_values_digit mid b y Hy). unfold digit_values at 1.
    now rewrite Hmid. }
  assert (Hmid' : digit_values mid = []) by (unfold digit_values; now rewrite Hmid).
  rewrite Hdv, Hmid'. cbn [rev length luhn_loop].
  rewrite Nat2Z.inj_succ.
  replace (Z.succ (Z.of_nat (length (digit_values b))) + 1)
    with (Z.of_nat (length (digit_values b)) + 2) by lia.
  replace (Z.succ (Z.of_nat (length (digit_values b))))
    with (Z.of_nat (length (digit_values b)) + 1) by lia.
  lia.
Qed.

Lemma luhn_weight_swap i v w :
  0 <= v <= 9 -> 0 <= w <= 9 ->
  let delta := (luhn_weight i v + luhn_weight (i + 1) w)
               - (luhn_weight i w + luhn_weight (i + 1) v) in
  -9 <= delta <= 9 /\
  (delta = 0 <-> v = w \/ (v = 0 /\ w = 9) \/ (v = 9 /\ w = 0)).
Proof.
  intros Hv Hw delta. subst delta. unfold luhn_weight, luhn_double. cbv zeta.
  assert (Hpar : (i mod 2 =? 0) = negb ((i + 1) mod 2 =? 0)).
  { pose proof (Z.mod_pos_bound i 2 ltac:(lia)) as Hb.
    assert (Hcase : i mod 2 = 0 \/ i mod 2 = 1) by lia.
    rewrite Z.add_mod by lia.
    destruct Hcase as [-> | ->]; reflexivity. }
  rewrite Hpar.
  destruct ((i + 1) mod 2 =? 0); cbn [negb];
    destruct (9 <? 2 * v) eqn:E1, (9 <? 2 * w) eqn:E2; zbool; lia.
Qed.

Lemma superscript_around2 (a mid b : str) x y :
  isdecimal_char x = true -> isdecimal_char y = true ->
  existsb superscript_digit (a ++ x :: mid ++ y :: b)
  = existsb superscript_digit (a ++ mid ++ b).
Proof.
  intros Hx Hy. rewrite (superscript_around a (mid ++ y :: b) x Hx).
  rewrite !(app_assoc a mid). apply superscript_around, Hy.
Qed.

(** X4.  Two neighbouring digits written in the wrong order: the Luhn
    check does not see the exchange of a 0 and a 9, for which
    [_is_valid_luhn] returns the same answer as before, and it sees every
    other exchange of two different digits, for which an accepted string
    becomes a rejected one.  The two digits may have characters other than
    decimal digits between them. *)
Theorem luhn_transposition (a mid b : str) (x y : ascii) :
  isdecimal_char x = true -> isdecimal_char y = true ->
  filter isdecimal_char mid = [] ->
  ((x = "0"%char /\ y = "9"%char) \/ (x = "9"%char /\ y = "0"%char) ->
   _is_valid_luhn (a ++ y :: mid ++ x :: b) = _is_valid_luhn (a ++ x :: mid ++ y :: b)) /\
  (x <> y ->
   ~ ((x = "0"%char /\ y = "9"%char) \/ (x = "9"%char /\ y = "0"%char)) ->
   _is_valid_luhn (a ++ x :: mid ++ y :: b) = Ok true ->
   _is_valid_luhn (a ++ y :: mid ++ x :: b) = Ok false).
Proof.
  intros Hx Hy Hmid.
  pose proof (digit_code x Hx) as Bx. pose proof (digit_code y Hy) as By.
  pose proof (luhn_weight_swap (Z.of_nat (length (digit_values b)))
                (code x - 48) (code y - 48) ltac:(lia) ltac:(lia)) as Hswap.
  cbv zeta in Hswap. destruct Hswap as [Hrange Hzero].
  rewrite !_is_valid_luhn_loop.
  rewrite (superscript_around2 a mid b x y Hx Hy), (superscript_around2 a mid b y x Hy Hx).
  destruct (existsb superscript_digit (a ++ mid ++ b));
    [split; [reflexivity | discriminate]|].
  rewrite (luhn_sum_at2 a mid b x y Hx Hy Hmid).
  rewrite (luhn_sum_at2 a mid b y x Hy Hx Hmid).
  set (i := Z.of_nat (length (digit_values b))) in *.
  set (S0 := luhn_loop 0 0 (rev (digit_values b))) in *.
  set (T := luhn_loop (i + 2) 0 (rev (digit_values a))) in *.
  split.
  - intros H09.
    assert (E : luhn_weight i (code x - 48) + luhn_weight (i + 1) (code y - 48)
                - (luhn_weight i (code y - 48) + luhn_weight (i + 1) (code x - 48)) = 0).
    { apply Hzero. right.
      destruct H09 as [[-> ->] | [-> ->]]; [left | right]; split; reflexivity. }
    do 3 f_equal. lia.
  - intros Hneq Hnot Hok. apply Ok_inj in Hok. apply Z.eqb_eq in Hok.
    f_equal. apply Z.eqb_neq.
    assert (Hnz : luhn_weight i (code x - 48) + luhn_weight (i + 1) (code y - 48)
                  - (luhn_weight i (code y - 48) + luhn_weight (i + 1) (code x - 48)) <> 0).
    { intros E. apply Hzero in E. destruct E as [E | [[E1 E2] | [E1 E2]]].
      - apply Hneq, code_inj. lia.
      - apply Hnot. left. split; apply code_inj.
        + change (code "0") with 48. lia.
        + change (code "9") with 57. lia.
      - apply Hnot. right. split; apply code_inj.
        + change (code "9") with 57. lia.
        + change (code "0") with 48. lia. }
    replace (S0 + luhn_weight i (code x - 48) + luhn_weight (i + 1) (code y - 48) + T)
      with (S0 + luhn_weight i (code y - 48) + luhn_weight (i + 1) (code x - 48) + T
            + (luhn_weight i (code x - 48) + luhn_weight (i + 1) (code y - 48)
               - (luhn_weight i (code y - 48) + luhn_weight (i + 1) (code x - 48))))
      by ring.
    now apply mod10_shift_neq.
Qed.

(** A valid number in which 0 and 9 are neighbours, and one in which 3 and
    4 are. *)
Lemma luhn_transposition_witness :
  (isdecimal_char "0" = true /\ isdecimal_char "9" = true /\
   filter isdecimal_char (py " ") = [] /\
   _is_valid_luhn (py "4539 148" ++ "9"%char :: py " " ++ "0"%char :: py "4 3436 467")
   = _is_valid_luhn (py "4539 148" ++ "0"%char :: py " " ++ "9"%char :: py "4 3436 467")) /\
  (isdecimal_char "3" = true /\ isdecimal_char "4" = true /\
   filter isdecimal_char (py "") = [] /\
   "3"%char <> "4"%char /\
   _is_valid_luhn (py "4539 1488 0" ++ "3"%char :: py "" ++ "4"%char :: py "3 6467") = Ok true /\
   _is_valid_luhn (py "4539 1488 0" ++ "4"%char :: py "" ++ "3"%char :: py "3 6467") = Ok false).
Proof.
  split.
  - assert (H1 : isdecimal_char "0" = true) by reflexivity.
    assert (H2 : isdecimal_char "9" = true) by reflexivity.
    assert (H3 : filter isdecimal_char (py " ") = []) by reflexivity.
    split; [exact H1|]. split; [exact H2|]. split; [exact H3|].
    apply (proj1 (luhn_transposition (py "4539 148") (py " ") (py "4 3436 467")
                    "0" "9" H1 H2 H3)).
    left. split; reflexivity.
  - assert (H1 : isdecimal_char "3" = true) by reflexivity.
    assert (H2 : isdecimal_char "4" = true) by reflexivity.
    assert (H3 : filter isdecimal_char (py "") = []) by reflexivity.
    assert (H4 : "3"%char <> "4"%char) by discriminate.
    assert (H5 : _is_valid_luhn
                   (py "4539 1488 0" ++ "3"%char :: py "" ++ "4"%char :: py "3 6467")
                 = Ok true) by (vm_compute; reflexivity).
    split; [exact H1|]. split; [exact H2|]. split; [exact H3|].
    split; [exact H4|]. split; [exact H5|].
    apply (proj2 (luhn_transposition (py "4539 1488 0") (py "") (py "3 6467")
                    "3" "4" H1 H2 H3)); [exact H4 | | exact H5].
    intros [[E _] | [E _]]; discriminate E.
Defined.

(** ** One wrong character in an IBAN *)

Lemma iban_fold_acc w : forall acc,
  fold_left
    (fun acc c =>
       if isdecimal_char c then 10 * acc + (code c - 48)
       else 100 * acc + (code c - 55)) w acc
  = acc * 10 ^ Z.of_nat (places w) + iban_value w.
Proof.
  unfold iban_value.
  induction w as [|c w IH]; intros acc.
  - simpl. lia.
  - cbn [fold_left places fold_right]. fold (places w).
    rewrite (IH (if isdecimal_char c then _ else _)).
    rewrite (IH (if isdecimal_char c then 10 * 0 + _ else 100 * 0 + _)).
    destruct (isdecimal_char c).
    + replace (Z.of_nat (1 + places w)) with (Z.succ (Z.of_nat (places w))) by lia.
      rewrite Z.pow_succ_r by lia. ring.
    + replace (Z.of_nat (2 + places w))
        with (Z.succ (Z.succ (Z.of_nat (places w)))) by lia.
      rewrite !Z.pow_succ_r by lia. ring.
Qed.

Lemma iban_value_replace x y c d :
  isdecimal_char c = isdecimal_char d ->
  iban_value (x ++ d :: y) =
  iban_value (x ++ c :: y)
  + (char_value d - char_value c) * 10 ^ Z.of_nat (places y).
Proof.
  intros Hclass. unfold iban_value at 1 2. rewrite !fold_left_app.
  cbn [fold_left]. rewrite !iban_fold_acc. unfold char_value.
  rewrite Hclass. destruct (isdecimal_char d); ring.
Qed.

Lemma rearranged_around (a b : str) :
  exists x y, forall c, rearranged (a ++ c :: b) = x ++ c :: y.
Proof.
  unfold rearranged.
  destruct (Nat.le_gt_cases 4 (length a)) as [H|H].
  - exists (skipn 4 a), (b ++ firstn 4 a). intros c.
    rewrite firstn_before, skipn_before by exact H.
    now rewrite <- app_assoc.
  - exists (skipn (4 - length a - 1) b ++ a), (firstn (4 - length a - 1) b).
    intros c. rewrite firstn_after, skipn_after by exact H.
    now rewrite <- app_assoc.
Qed.

Lemma _strip_alnum (a b : str) c :
  alnum_char c = true -> _strip (a ++ c :: b) = _strip a ++ c :: _strip b.
Proof.
  intros Hc. unfold _strip. rewrite filter_app. cbn [filter].
  replace (negb (re_space c || Ascii.eqb c "-")) with true; [reflexivity|].
  destruct c as [[] [] [] [] [] [] [] []]; try discriminate Hc; reflexivity.
Qed.

Lemma upper_char_class c :
  alnum_char c = true ->
  iban_char (upper_char c) = true /\
  isdecimal_char (upper_char c) = isdecimal_char c.
Proof.
  destruct c as [[] [] [] [] [] [] [] []]; intros H; try discriminate H;
    split; vm_compute; reflexivity.
Qed.

Lemma char_value_neq c d :
  iban_char c = true -> iban_char d = true ->
  isdecimal_char c = isdecimal_char d -> c <> d ->
  -96 <= char_value d - char_value c <= 96 /\ char_value d - char_value c <> 0.
Proof.
  intros Hc Hd Hclass Hneq. unfold char_value. rewrite Hclass.
  unfold iban_char in *.
  assert (Hcode : code c <> code d) by (intros E; apply Hneq, code_inj, E).
  destruct (isdecimal_char d) eqn:Ed.
  - pose proof (digit_code c Hclass). pose proof (digit_code d Ed). lia.
  - rewrite Hclass in Hc. simpl in Hc, Hd. unfold in_range in Hc, Hd.
    apply andb_true_iff in Hc. apply andb_true_iff in Hd.
    destruct Hc, Hd. zbool. lia.
Qed.

Lemma mod97_shift_neq_wide (n delta : Z) (k : nat) :
  -96 <= delta <= 96 -> delta <> 0 ->
  (n + delta * 10 ^ Z.of_nat k) mod 97 <> n mod 97.
Proof.
  intros Hd Hnz Heq.
  assert (H : (n + delta * 10 ^ Z.of_nat k - n) mod 97 = 0).
  { rewrite Zminus_mod, Heq, Z.sub_diag. reflexivity. }
  replace (n + delta * 10 ^ Z.of_nat k - n)
    with (delta * 10 ^ Z.of_nat k) in H by ring.
  apply Z.mod_divide in H; [|lia].
  apply divide97_pow10 in H. destruct H as [q Hq]. lia.
Qed.

(** X5.  One wrong character is always caught by the IBAN check.  Take a
    string accepted by [_is_valid_iban] that, besides whitespace and
    dashes, is made of digits and letters; replace one of its digits by a
    different digit, or one of its letters by a different letter (small
    and capital letters counting as the same): the result is rejected. *)
Theorem iban_single_character_error (a b : str) (c d : ascii) :
  alnum_char c = true -> alnum_char d = true ->
  isdecimal_char c = isdecimal_char d ->
  upper_char c <> upper_char d ->
  forallb alnum_char (_strip (a ++ b)) = true ->
  _is_valid_iban (a ++ c :: b) = Ok true ->
  _is_valid_iban (a ++ d :: b) = Ok false.
Proof.
  intros Hc Hd Hclass Hneq Halnum Hok.
  destruct (upper_char_class c Hc) as [Hic Hdc].
  destruct (upper_char_class d Hd) as [Hid Hdd].
  rewrite _is_valid_iban_unfold in Hok |- *. cbv zeta in Hok |- *.
  rewrite (_strip_alnum a b c Hc) in Hok. rewrite (_strip_alnum a b d Hd).
  unfold upper in Hok |- *. rewrite map_app in Hok |- *. cbn [map] in Hok |- *.
  fold (upper (_strip a)) in Hok |- *. fold (upper (_strip b)) in Hok |- *.
  set (A := upper (_strip a)) in *. set (B := upper (_strip b)) in *.
  set (c' := upper_char c) in *. set (d' := upper_char d) in *.
  assert (HAB : forallb iban_char A = true /\ forallb iban_char B = true).
  { unfold _strip in Halnum. rewrite filter_app, forallb_app in Halnum.
    apply andb_true_iff in Halnum. destruct Halnum as [Ha Hb].
    split; subst A B; unfold upper; rewrite forallb_forall in *;
      intros u Hu; apply in_map_iff in Hu; destruct Hu as (u0 & <- & Hu0);
      apply upper_char_class; [now apply Ha | now apply Hb]. }
  destruct HAB as [HA HB].
  assert (Hlen : len (A ++ d' :: B) = len (A ++ c' :: B))
    by (unfold len; rewrite !length_app; reflexivity).
  rewrite Hlen.
  destruct (startswith (A ++ c' :: B) (py "FR")) eqn:Hfr; [|discriminate Hok].
  destruct (len (A ++ c' :: B) =? 27) eqn:H27; [|discriminate Hok].
  cbn [negb orb] in Hok.
  destruct (startswith (A ++ d' :: B) (py "FR")) eqn:Hfr'; [|reflexivity].
  cbn [negb orb].
  destruct (rearranged_around A B) as (x & y & Hre).
  rewrite (Hre c') in Hok. rewrite (Hre d').
  assert (Hxy : forallb iban_char x = true /\ forallb iban_char y = true).
  { assert (Hall : forallb iban_char (x ++ c' :: y) = true).
    { rewrite <- (Hre c'). unfold rearranged.
      assert (Hraw : forallb iban_char (A ++ c' :: B) = true)
        by (rewrite forallb_app; cbn [forallb]; now rewrite HA, Hic, HB).
      rewrite <- (firstn_skipn 4 (A ++ c' :: B)), forallb_app in Hraw.
      apply andb_true_iff in Hraw. destruct Hraw as [H1 H2].
      rewrite forallb_app. now rewrite H1, H2. }
    rewrite forallb_app in Hall. cbn [forallb] in Hall.
    apply andb_true_iff in Hall. destruct Hall as [Hx Hy].
    apply andb_true_iff in Hy. now destruct Hy. }
  destruct Hxy as [Hx Hy].
  rewrite int_literal_numeral in Hok;
    [| now destruct x
     | rewrite forallb_app; cbn [forallb]; now rewrite Hx, Hic, Hy].
  rewrite int_literal_numeral;
    [| now destruct x
     | rewrite forallb_app; cbn [forallb]; now rewrite Hx, Hid, Hy].
  apply Ok_inj in Hok. apply Z.eqb_eq in Hok. f_equal. apply Z.eqb_neq.
  assert (Hcl : isdecimal_char c' = isdecimal_char d') by (subst c' d'; congruence).
  rewrite (iban_value_replace x y c' d' Hcl).
  destruct (char_value_neq c' d' Hic Hid Hcl Hneq) as [Hrange Hnz].
  pose proof (mod97_shift_neq_wide (iban_value (x ++ c' :: y))
                (char_value d' - char_value c') (places y) Hrange Hnz).
  lia.
Qed.

(** The reference IBAN in groups and small letters, with its check digit 7
    changed to 1. *)
Lemma iban_single_character_error_witness :
  let a := py "fr" in
  let b := py "6 3000 6000 0112 3456 7890 189" in
  alnum_char "7" = true /\ alnum_char "1" = true /\
  isdecimal_char "7" = isdecimal_char "1" /\
  upper_char "7" <> upper_char "1" /\
  forallb alnum_char (_strip (a ++ b)) = true /\
  _is_valid_iban (a ++ "7"%char :: b) = Ok true /\
  _is_valid_iban (a ++ "1"%char :: b) = Ok false.
Proof.
  intros a b.
  assert (H1 : alnum_char "7" = true) by reflexivity.
  assert (H2 : alnum_char "1" = true) by reflexivity.
  assert (H3 : isdecimal_char "7" = isdecimal_char "1") by reflexivity.
  assert (H4 : upper_char "7" <> upper_char "1") by discriminate.
  assert (H5 : forallb alnum_char (_strip (a ++ b)) = true) by (vm_compute; reflexivity).
  assert (H6 : _is_valid_iban (a ++ "7"%char :: b) = Ok true) by (vm_compute; reflexivity).
  split; [exact H1|]. split; [exact H2|]. split; [exact H3|]. split; [exact H4|].
  split; [exact H5|]. split; [exact H6|].
  exact (iban_single_character_error a b "7" "1" H1 H2 H3 H4 H5 H6).
Defined.

(** ** The masks *)

Lemma slice_from_short s (k : Z) :
  0 < k -> len s <= k -> slice_from s (- k) = s.
Proof.
  intros Hk Hlen. unfold slice_from, slice, norm_index.
  pose proof (len_nonneg s) as Hn.
  destruct (- k <? 0) eqn:E1; [|exfalso; zbool; lia].
  destruct (len s <? 0) eqn:E2; [exfalso; zbool; lia|].
  rewrite Z.max_l by lia. rewrite Z.min_id, Z.sub_0_r.
  unfold len. rewrite Nat2Z.id. simpl. apply firstn_all.
Qed.

Lemma slice_from_length s (k : Z) :
  0 < k -> length (slice_from s (- k)) = Nat.min (Z.to_nat k) (length s).
Proof.
  intros Hk. destruct (Z.le_gt_cases (len s) k) as [H|H].
  - rewrite slice_from_short by assumption. unfold len in H. lia.
  - rewrite <- (firstn_skipn (length s - Z.to_nat k) s) at 1.
    assert (Hl : length (skipn (length s - Z.to_nat k) s) = Z.to_nat k)
      by (rewrite length_skipn; unfold len in H; lia).
    replace (- k) with (- len (skipn (length s - Z.to_nat k) s))
      by (unfold len; lia).
    rewrite slice_from_suffix by (unfold len; lia).
    unfold len in H. lia.
Qed.

Lemma split1_no_sep sep x : ~ In sep x -> split1 sep x = [x].
Proof.
  induction x as [|c x IH]; intros H; [reflexivity|].
  simpl. destruct (Ascii.eqb_spec c sep) as [->|_].
  - exfalso. apply H. now left.
  - rewrite IH; [reflexivity|]. intros Hx. apply H. now right.
Qed.

Lemma in_split_first (sep : ascii) x :
  In sep x -> exists l r, x = l ++ sep :: r /\ ~ In sep l.
Proof.
  induction x as [|c x IH]; intros H; [destruct H|].
  destruct (ascii_dec c sep) as [->|Hne].
  - exists [], x. split; [reflexivity | intros []].
  - destruct H as [H|H]; [contradiction|].
    destruct (IH H) as (l & r & -> & Hl).
    exists (c :: l), r. split; [reflexivity|].
    intros [E|E]; [contradiction | now apply Hl].
Qed.

Lemma _mask_email_split local domain :
  ~ In "@"%char local ->
  exists masked,
    _mask_email (local ++ "@"%char :: domain) = Ok (masked ++ "@"%char :: domain) /\
    length masked = length local.
Proof.
  intros Hnot. unfold _mask_email. rewrite (split1_at local domain Hnot).
  destruct (len local <=? 2) eqn:Hshort.
  - exists (repeat "*"%char (length local)). simpl bind.
    unfold len at 1. rewrite times_nat. split; [reflexivity | apply repeat_length].
  - assert (Hlen : (3 <= length local)%nat) by (unfold len in Hshort; zbool; lia).
    rewrite index_first, index_last by (unfold len; lia). simpl bind.
    replace (len local - 2) with (Z.of_nat (length local - 2)) by (unfold len; lia).
    rewrite times_nat.
    exists ([nth 0 local zero] ++ repeat "*"%char (length local - 2)
              ++ [nth (length local - 1) local zero]).
    split; [reflexivity|].
    rewrite !length_app, repeat_length. simpl. lia.
Qed.

(** X6.  [_mask_email] raises [ValueError] exactly on a string without
    [@].  On any other string it returns a string of the same length, cut
    at the first [@]: what follows that [@], further [@] included, is
    returned unchanged. *)
Theorem mask_email_errors :
  (forall x, ~ In "@"%char x -> _mask_email x = Raise ValueError) /\
  (forall x, In "@"%char x ->
     exists local domain masked,
       x = local ++ "@"%char :: domain /\ ~ In "@"%char local /\
       _mask_email x = Ok (masked ++ "@"%char :: domain) /\
       length masked = length local /\
       length (masked ++ "@"%char :: domain) = length x).
Proof.
  split.
  - intros x H. unfold _mask_email. now rewrite (split1_no_sep "@" x H).
  - intros x H. destruct (in_split_first "@" x H) as (local & domain & -> & Hl).
    destruct (_mask_email_split local domain Hl) as (masked & Hm & Hlen).
    exists local, domain, masked. repeat split; auto.
    rewrite !length_app. simpl. now rewrite Hlen.
Qed.

Lemma mask_email_errors_witness :
  (~ In "@"%char (py "no.address.here") /\
   _mask_email (py "no.address.here") = Raise ValueError) /\
  (In "@"%char (py "first@second@example.org") /\
   _mask_email (py "first@second@example.org") = Ok (py "f***t@second@example.org") /\
   exists local domain masked,
     py "first@second@example.org" = local ++ "@"%char :: domain /\
     ~ In "@"%char local /\
     _mask_email (py "first@second@example.org") = Ok (masked ++ "@"%char :: domain) /\
     length masked = length local /\
     length (masked ++ "@"%char :: domain) = length (py "first@second@example.org")).
Proof.
  destruct mask_email_errors as [Hraise Hok].
  split.
  - assert (H : ~ In "@"%char (py "no.address.here")).
    { simpl. intros H. repeat (destruct H as [H|H]; [discriminate H|]). exact H. }
    split; [exact H | exact (Hraise _ H)].
  - assert (H : In "@"%char (py "first@second@example.org"))
      by (simpl; tauto).
    split; [exact H|]. split; [reflexivity|]. exact (Hok _ H).
Defined.

(** X7.  [_mask_card] and [_mask_phone] return as many characters as their
    argument has once stripped of whitespace and dashes.  Of these the
    last four (two for a phone) are those of the argument and the ones
    before are the mask character; an argument with no more than four (two)
    stripped characters is returned stripped, with nothing hidden. *)
Theorem card_and_phone_masks (x : str) :
  (length (_mask_card x) = length (_strip x) /\
   (forall hidden shown,
      _strip x = hidden ++ shown -> length shown = 4%nat ->
      _mask_card x = repeat "*"%char (length hidden) ++ shown) /\
   (len (_strip x) <= 4 -> _mask_card x = _strip x)) /\
  (length (_mask_phone x) = length (_strip x) /\
   (forall hidden shown,
      _strip x = hidden ++ shown -> length shown = 2%nat ->
      _mask_phone x = repeat "X"%char (length hidden) ++ shown) /\
   (len (_strip x) <= 2 -> _mask_phone x = _strip x)).
Proof.
  unfold _mask_card, _mask_phone. cbv zeta. set (digits := _strip x).
  split; (split; [|split]).
  - rewrite length_app. unfold times. rewrite repeat_length.
    change (-4) with (- (4)). rewrite (slice_from_length digits 4) by lia.
    unfold len. lia.
  - intros hidden shown Hx Hshown. rewrite Hx.
    replace (-4) with (- len shown) by (unfold len; lia).
    rewrite slice_from_suffix by (unfold len; lia).
    f_equal. unfold times, len. rewrite length_app. f_equal. lia.
  - intros H. change (-4) with (- (4)). rewrite (slice_from_short digits 4) by lia.
    unfold times. replace (Z.to_nat (len digits - 4)) with 0%nat by lia. reflexivity.
  - rewrite length_app. unfold times. rewrite repeat_length.
    change (-2) with (- (2)). rewrite (slice_from_length digits 2) by lia.
    unfold len. lia.
  - intros hidden shown Hx Hshown. rewrite Hx.
    replace (-2) with (- len shown) by (unfold len; lia).
    rewrite slice_from_suffix by (unfold len; lia).
    f_equal. unfold times, len. rewrite length_app. f_equal. lia.
  - intros H. change (-2) with (- (2)). rewrite (slice_from_short digits 2) by lia.
    unfold times. replace (Z.to_nat (len digits - 2)) with 0%nat by lia. reflexivity.
Qed.

Lemma card_and_phone_masks_witness :
  (_strip (py "06 12-34 56 78") = py "06123456" ++ py "78" /\
   length (py "78") = 2%nat /\
   _mask_phone (py "06 12-34 56 78") = repeat "X"%char 8 ++ py "78") /\
  (len (_strip (py "12 34")) <= 4 /\ _mask_card (py "12 34") = py "1234").
Proof.
  split.
  - destruct (card_and_phone_masks (py "06 12-34 56 78")) as (_ & _ & Hphone & _).
    split; [reflexivity|]. split; [reflexivity|].
    apply (Hphone (py "06123456") (py "78")); reflexivity.
  - destruct (card_and_phone_masks (py "12 34")) as ((_ & _ & Hshort) & _).
    assert (H : len (_strip (py "12 34")) <= 4) by (vm_compute; discriminate).
    split; [exact H | exact (Hshort H)].
Defined.

(** X8.  [_mask_passport] keeps the first two and the last two characters
    of a string of four characters or more and writes a star for each
    character in between, so the length is kept.  A shorter string is not
    masked at all: with at most two characters it comes back twice in a
    row, with three as its first two characters followed by its last
    two. *)
Theorem passport_mask :
  (forall head middle tail,
     length head = 2%nat -> length tail = 2%nat ->
     _mask_passport (head ++ middle ++ tail)
       = head ++ repeat "*"%char (length middle) ++ tail) /\
  (forall x, (4 <= length x)%nat -> length (_mask_passport x) = length x) /\
  (forall x, (length x <= 2)%nat -> _mask_passport x = x ++ x) /\
  (forall x, length x = 3%nat -> _mask_passport x = firstn 2 x ++ skipn 1 x).
Proof.
  assert (Hlong : forall head middle tail,
     length head = 2%nat -> length tail = 2%nat ->
     _mask_passport (head ++ middle ++ tail)
       = head ++ repeat "*"%char (length middle) ++ tail).
  { intros head middle tail Hh Ht. unfold _mask_passport.
    change (slice_to ?s 2) with (slice_to s (Z.of_nat 2)). rewrite slice_to_firstn.
    rewrite firstn_app, firstn_all2 by lia.
    replace (2 - length head)%nat with 0%nat by lia. simpl firstn.
    rewrite app_nil_r. f_equal.
    rewrite app_assoc.
    replace (-2) with (- len tail) by (unfold len; lia).
    rewrite slice_from_suffix by (unfold len; lia).
    f_equal. unfold times, len. rewrite !length_app. f_equal. lia. }
  split; [exact Hlong|]. split; [|split].
  - intros x Hx.
    rewrite <- (firstn_skipn 2 x) at 1.
    rewrite <- (firstn_skipn (length x - 4) (skipn 2 x)) at 1.
    rewrite Hlong.
    + rewrite !length_app, repeat_length, !length_firstn, !length_skipn. lia.
    + rewrite length_firstn. lia.
    + rewrite !length_skipn. lia.
  - intros x Hx. unfold _mask_passport.
    change (slice_to ?s 2) with (slice_to s (Z.of_nat 2)).
    rewrite slice_to_firstn, firstn_all2 by exact Hx.
    change (-2) with (- (2)).
    rewrite (slice_from_short x 2) by (unfold len; lia).
    unfold times. replace (Z.to_nat (len x - 4)) with 0%nat by (unfold len; lia).
    reflexivity.
  - intros x Hx. unfold _mask_passport.
    change (slice_to ?s 2) with (slice_to s (Z.of_nat 2)). rewrite slice_to_firstn.
    unfold times. replace (Z.to_nat (len x - 4)) with 0%nat by (unfold len; lia).
    simpl app. f_equal.
    rewrite <- (firstn_skipn 1 x) at 1.
    replace (-2) with (- len (skipn 1 x))
      by (unfold len; rewrite length_skipn; lia).
    apply (slice_from_suffix (firstn 1 x) (skipn 1 x)).
    unfold len. rewrite length_skipn. lia.
Qed.

Lemma passport_mask_witness :
  (length (py "12") = 2%nat /\ length (py "45") = 2%nat /\
   _mask_passport (py "12AB34545") = py "12*****45") /\
  ((4 <= length (py "12AB34545"))%nat /\
   length (_mask_passport (py "12AB34545")) = length (py "12AB34545")) /\
  ((length (py "7A") <= 2)%nat /\ _mask_passport (py "7A") = py "7A7A") /\
  (length (py "7AB") = 3%nat /\ _mask_passport (py "7AB") = py "7AAB").
Proof.
  destruct passport_mask as (Hlong & Hlen & Hshort & Hthree).
  split; [|split; [|split]].
  - split; [reflexivity|]. split; [reflexivity|].
    exact (Hlong (py "12") (py "AB345") (py "45") eq_refl eq_refl).
  - assert (H : (4 <= length (py "12AB34545"))%nat) by (simpl; lia).
    split; [exact H | exact (Hlen _ H)].
  - assert (H : (length (py "7A") <= 2)%nat) by (simpl; lia).
    split; [exact H | exact (Hshort _ H)].
  - split; [reflexivity | exact (Hthree (py "7AB") eq_refl)].
Defined.

(** X9.  The masks with a fixed prefix.  For a string of four characters
    or more, [_mask_rib] returns twelve stars and [_mask_nir] eleven stars
    followed by the last four characters of the string as it is, spaces
    included.  [_mask_iban] returns FR and twelve stars followed by the
    last four characters left after stripping whitespace and dashes.  The
    lengths are 16, 15 and 18 whatever the length of the input. *)
Theorem fixed_prefix_masks :
  (forall x hidden shown,
     x = hidden ++ shown -> length shown = 4%nat ->
     _mask_rib x = py "************" ++ shown /\
     _mask_nir x = py "***********" ++ shown /\
     length (_mask_rib x) = 16%nat /\ length (_mask_nir x) = 15%nat) /\
  (forall x hidden shown,
     _strip x = hidden ++ shown -> length shown = 4%nat ->
     _mask_iban x = py "FR************" ++ shown /\
     length (_mask_iban x) = 18%nat).
Proof.
  split.
  - intros x hidden shown -> Hshown. unfold _mask_rib, _mask_nir.
    replace (-4) with (- len shown) by (unfold len; lia).
    rewrite slice_from_suffix by (unfold len; lia).
    repeat split; rewrite length_app, Hshown; reflexivity.
  - intros x hidden shown Hx Hshown. unfold _mask_iban. cbv zeta. rewrite Hx.
    replace (-4) with (- len shown) by (unfold len; lia).
    rewrite slice_from_suffix by (unfold len; lia).
    split; [reflexivity|]. rewrite length_app, Hshown. reflexivity.
Qed.

Lemma fixed_prefix_masks_witness :
  (py "30002 00550 00001578411 23" = py "30002 00550 0000157841" ++ py "1 23" /\
   length (py "1 23") = 4%nat /\
   _mask_rib (py "30002 00550 00001578411 23") = py "************1 23") /\
  (_strip (py "FR76 3000 6000 0112 3456 7890 189")
     = py "FR763000600001123456789" ++ py "0189" /\
   length (py "0189") = 4%nat /\
   _mask_iban (py "FR76 3000 6000 0112 3456 7890 189") = py "FR************0189").
Proof.
  destruct fixed_prefix_masks as [Hraw Hstripped].
  split.
  - split; [reflexivity|]. split; [reflexivity|].
    exact (proj1 (Hraw _ (py "30002 00550 0000157841") (py "1 23") eq_refl eq_refl)).
  - split; [reflexivity|]. split; [reflexivity|].
    exact (proj1 (Hstripped (py "FR76 3000 6000 0112 3456 7890 189")
                    (py "FR763000600001123456789") (py "0189") eq_refl eq_refl)).
Defined.

(** ** The collectors *)

Lemma _gather_person_ent_spec ent out :
  _gather_person_ent ent out =
  Ok (out ++ if is_person ent then [person_span ent] else []).
Proof.
  unfold _gather_person_ent, is_person, person_span, person_mask.
  destruct (str_eqb (label_ ent) (py "PER")); [|now rewrite app_nil_r].
  destruct (ent_text ent) as [|c0 [|c1 rest]] eqn:E.
  - reflexivity.
  - reflexivity.
  - assert (Hlen : (len (c0 :: c1 :: rest) >? 1) = true).
    { unfold len. cbn [length]. apply Z.gtb_lt. lia. }
    rewrite Hlen, index_first by (unfold len; cbn [length]; lia).
    cbn [bind nth app].
    replace (times "*" (len (c0 :: c1 :: rest) - 1))
      with (repeat "*"%char (length (c0 :: c1 :: rest) - 1)); [reflexivity|].
    unfold times, len. f_equal. cbn [length]. lia.
Qed.

Lemma _gather_person_loop_spec es : forall out,
  _gather_person_loop es out = Ok (out ++ map person_span (filter is_person es)).
Proof.
  induction es as [|ent es IH]; intros out; cbn [_gather_person_loop].
  - simpl. now rewrite app_nil_r.
  - rewrite _gather_person_ent_spec. cbn [bind]. rewrite IH. cbn [filter].
    destruct (is_person ent); cbn [map]; rewrite <- app_assoc; reflexivity.
Qed.

(** X10.  [_gather_person] never raises.  It returns one span for each
    entity of the document labelled PER, in the order of the document and
    with the offsets of the entity, and nothing for any other entity.  The
    replacement of a name of two characters or more keeps its first
    character and has a star for each of the others; a name of one
    character, or an empty one, is replaced by a single star. *)
Theorem gather_person_spans :
  (forall doc,
     _gather_person doc = Ok (map person_span (filter is_person (ents doc)))) /\
  (forall ent,
     start (person_span ent) = start_char ent /\
     end_ (person_span ent) = end_char ent /\
     length (repl (person_span ent)) = Nat.max 1 (length (ent_text ent))) /\
  (forall ent (i : nat),
     (2 <= length (ent_text ent))%nat -> (i < length (ent_text ent))%nat ->
     nth i (repl (person_span ent)) zero
     = if (i =? 0)%nat then nth 0 (ent_text ent) zero else "*"%char) /\
  (forall ent,
     (length (ent_text ent) <= 1)%nat -> repl (person_span ent) = py "*").
Proof.
  split; [|split; [|split]].
  - intros doc. unfold _gather_person. now rewrite _gather_person_loop_spec.
  - intros ent. repeat split. unfold person_span, person_mask. cbn [repl].
    destruct (ent_text ent) as [|c0 [|c1 rest]]; try reflexivity.
    cbn [length]. rewrite repeat_length. lia.
  - intros ent i H2 Hi. unfold person_span, person_mask. cbn [repl].
    destruct (ent_text ent) as [|c0 [|c1 rest]]; cbn [length] in H2, Hi; try lia.
    destruct i as [|i]; [reflexivity|].
    cbn [nth Nat.eqb]. apply nth_repeat_lt. cbn [length]. lia.
  - intros ent H. unfold person_span, person_mask. cbn [repl].
    destruct (ent_text ent) as [|c0 [|c1 rest]]; cbn [length] in H; try lia;
      reflexivity.
Qed.

(** A document with a place between two persons. *)
Lemma gather_person_spans_witness :
  let doc := mk_Doc [mk_Span (py "PER") (py "Marie Curie") 0 11;
                     mk_Span (py "LOC") (py "Paris") 20 25;
                     mk_Span (py "PER") (py "X") 30 31] in
  _gather_person doc
    = Ok [mk_Repl 0 11 (py "M**********"); mk_Repl 30 31 (py "*")] /\
  (2 <= length (py "Marie Curie"))%nat /\
  nth 0 (py "M**********") zero = "M"%char /\
  nth 5 (py "M**********") zero = "*"%char.
Proof.
  intros doc.
  destruct gather_person_spans as (Hspec & _ & Hnth & _).
  split; [rewrite Hspec; reflexivity|].
  assert (H2 : (2 <= length (ent_text (mk_Span (py "PER") (py "Marie Curie") 0 11)))%nat)
    by (simpl; lia).
  split; [exact H2|]. split.
  - apply (Hnth (mk_Span (py "PER") (py "Marie Curie") 0 11) 0%nat H2). simpl. lia.
  - apply (Hnth (mk_Span (py "PER") (py "Marie Curie") 0 11) 5%nat H2). simpl. lia.
Defined.

Section CollectorLoops.

Variable phonenumber : Type.
Variable PhoneNumberMatcher : str -> result (list (PhoneNumberMatch phonenumber)).
Variable is_possible_number : phonenumber -> bool.

Lemma _gather_phones_loop_spec text ms : forall out,
  _gather_phones_loop phonenumber is_possible_number text ms out =
  out ++ map (phone_span text)
             (filter (fun m => is_possible_number (number m)) ms).
Proof.
  induction ms as [|m ms IH]; intros out; cbn [_gather_phones_loop].
  - simpl. now rewrite app_nil_r.
  - cbn [filter]. destruct (is_possible_number (number m)); cbn [negb].
    + rewrite IH. cbn [map]. now rewrite <- app_assoc.
    + apply IH.
Qed.

(** X11.  [_gather_phones] fails exactly when the phone matcher fails, and
    with its exception.  Otherwise it returns one span for each match whose
    number is a possible number, in the order of the matcher and with the
    offsets of the match; the replacement is the phone mask of the text
    between those offsets, and a match that is not a possible number gives
    nothing. *)
Theorem gather_phones_spans (text : str) :
  (forall e, PhoneNumberMatcher text = Raise e ->
     _gather_phones phonenumber PhoneNumberMatcher is_possible_number text = Raise e) /\
  (forall ms, PhoneNumberMatcher text = Ok ms ->
     _gather_phones phonenumber PhoneNumberMatcher is_possible_number text
     = Ok (map (phone_span text)
               (filter (fun m => is_possible_number (number m)) ms))) /\
  (forall e,
     _gather_phones phonenumber PhoneNumberMatcher is_possible_number text = Raise e ->
     PhoneNumberMatcher text = Raise e).
Proof.
  unfold _gather_phones. split; [|split].
  - intros e H. now rewrite H.
  - intros ms H. rewrite H. cbn [bind]. now rewrite _gather_phones_loop_spec.
  - intros e H. destruct (PhoneNumberMatcher text) as [ms|e']; [discriminate H|].
    simpl in H. injection H as ->. reflexivity.
Qed.

End CollectorLoops.

(** A matcher that reports two matches, the second not a possible number,
    and a matcher that fails. *)
Lemma gather_phones_spans_witness :
  let text := py "tel 06 12 34 56 78 ou 0000" in
  let matcher := fun _ : str =>
    Ok [mk_PhoneNumberMatch true 4 18; mk_PhoneNumberMatch false 22 26] in
  let broken := fun _ : str =>
    @Raise (list (PhoneNumberMatch bool)) (ExternalError "phonenumbers") in
  (matcher text = Ok [mk_PhoneNumberMatch true 4 18; mk_PhoneNumberMatch false 22 26] /\
   _gather_phones bool matcher (fun possible => possible) text
     = Ok [mk_Repl 4 18 (py "XXXXXXXX78")]) /\
  (broken text = Raise (ExternalError "phonenumbers") /\
   _gather_phones bool broken (fun possible => possible) text
     = Raise (ExternalError "phonenumbers")).
Proof.
  intros text matcher broken. split.
  - split; [reflexivity|].
    destruct (gather_phones_spans bool matcher (fun possible => possible) text)
      as (_ & Hok & _).
    rewrite (Hok _ eq_refl). reflexivity.
  - split; [reflexivity|].
    destruct (gather_phones_spans bool broken (fun possible => possible) text)
      as (Hraise & _).
    exact (Hraise _ eq_refl).
Defined.

Lemma gather_matches_spec text masker validator ms : forall out,
  gather_matches text masker validator ms [] = Ok out ->
  map offsets out
    = filter (fun m => validated validator (slice text (fst m) (snd m))) ms /\
  Forall (fun r => masker (slice text (start r) (end_ r)) = Ok (repl r)) out.
Proof.
  induction ms as [|[s e] ms IH]; intros out H; cbn [gather_matches] in H.
  - injection H as <-. split; [reflexivity | constructor].
  - cbn [filter fst snd]. unfold validated at 1.
    destruct validator as [v|].
    + destruct (v (slice text s e)) as [[|]|err] eqn:Ev; cbn [bind] in H;
        try discriminate H.
      * destruct (masker (slice text s e)) as [masked|err] eqn:Em;
          cbn [bind] in H; [|discriminate H].
        rewrite gather_matches_acc in H. apply bind_Ok in H.
        destruct H as (l & Hl & [= <-]). destruct (IH l Hl) as [Hoff Hmask].
        split; [cbn [map app offsets start end_]; now rewrite <- Hoff|].
        constructor; [exact Em | exact Hmask].
      * now apply IH.
    + cbn [bind] in H.
      destruct (masker (slice text s e)) as [masked|err] eqn:Em;
        cbn [bind] in H; [|discriminate H].
      rewrite gather_matches_acc in H. apply bind_Ok in H.
      destruct H as (l & Hl & [= <-]). destruct (IH l Hl) as [Hoff Hmask].
      split; [cbn [map app offsets start end_]; now rewrite <- Hoff|].
      constructor; [exact Em | exact Hmask].
Qed.

Lemma gather_matches_total text masker validator ms :
  (forall s e, In (s, e) ms ->
     (forall v, validator = Some v -> exists b, v (slice text s e) = Ok b) /\
     exists masked, masker (slice text s e) = Ok masked) ->
  exists out, gather_matches text masker validator ms [] = Ok out.
Proof.
  induction ms as [|[s e] ms IH]; intros H; cbn [gather_matches]; [eauto|].
  destruct (H s e (or_introl eq_refl)) as [Hv [masked Hm]].
  destruct IH as [out Hout]; [intros s' e' Hin; apply H; now right|].
  assert (Hbranch : forall b : bool,
            exists out',
              (if b
               then masked <- masker (slice text s e) ;;
                    gather_matches text masker validator ms
                      ([] ++ [mk_Repl s e masked])
               else gather_matches text masker validator ms []) = Ok out').
  { intros [|]; [|eauto]. rewrite Hm. cbn [bind].
    rewrite gather_matches_acc, Hout. cbn [bind]. eauto. }
  destruct validator as [v|].
  - destruct (Hv v eq_refl) as [b ->]. cbn [bind]. apply Hbranch.
  - cbn [bind]. apply (Hbranch true).
Qed.

Lemma gather_matches_rejected text masker v ms :
  (forall s e, In (s, e) ms -> v (slice text s e) = Ok false) ->
  gather_matches text masker (Some v) ms [] = Ok [].
Proof.
  induction ms as [|[s e] ms IH]; intros H; cbn [gather_matches]; [reflexivity|].
  rewrite (H s e (or_introl eq_refl)). cbn [bind].
  apply IH. intros s' e' Hin. apply H. now right.
Qed.

Lemma Forall2_In_r {A B : Type} (P : A -> B -> Prop) l l' y :
  Forall2 P l l' -> In y l' -> exists x, In x l /\ P x y.
Proof.
  induction 1 as [|a b l l' Hab _ IH]; intros Hin; [destruct Hin|].
  destruct Hin as [<-|Hin].
  - exists a. split; [now left | exact Hab].
  - destruct (IH Hin) as (x & Hx & Hp). exists x. split; [now right | exact Hp].
Qed.

Section RegexCollector.

Variable finditer : pattern -> str -> list (Z * Z).
Variable _dt_parse_year : str -> result Z.

Lemma rule_spans_length text rl g :
  rule_spans finditer text rl = Ok g ->
  (length g <= length (finditer (fst (fst rl)) text))%nat.
Proof.
  destruct rl as [[pat masker] validator]. unfold rule_spans. intros H.
  apply gather_matches_spec in H. destruct H as [Hoff _].
  apply (f_equal (@length _)) in Hoff. rewrite length_map in Hoff.
  rewrite Hoff. apply filter_length_le.
Qed.

(** X12.  Every span [_gather_regex] returns comes from a match: it has the
    offsets of a match of the pattern of some rule of [_PATTERNS], the
    validator of that rule, if it has one, accepts the matched text, and the
    replacement is what the masker of the rule returns for the matched
    text.  There are no more spans than matches.  So when every match
    encloses at least one character and lies inside the text, every span
    does. *)
Theorem gather_regex_provenance (text : str) (regs : list _Repl) :
  _gather_regex finditer _dt_parse_year text = Ok regs ->
  (forall r, In r regs ->
     exists pat masker validator,
       In (pat, masker, validator) (_PATTERNS _dt_parse_year) /\
       In (start r, end_ r) (finditer pat text) /\
       validated validator (slice text (start r) (end_ r)) = true /\
       masker (slice text (start r) (end_ r)) = Ok (repl r)) /\
  (length regs
   <= length (concat (map (fun rl : rule => finditer (fst (fst rl)) text)
                          (_PATTERNS _dt_parse_year))))%nat /\
  ((forall pat, Forall (match_in text) (finditer pat text)) ->
   Forall (fun r => nonempty r /\ in_text (len text) r) regs).
Proof.
  intros H. apply _gather_regex_groups in H. destruct H as (groups & Hgroups & ->).
  assert (Hprov : forall r, In r (concat groups) ->
     exists pat masker validator,
       In (pat, masker, validator) (_PATTERNS _dt_parse_year) /\
       In (start r, end_ r) (finditer pat text) /\
       validated validator (slice text (start r) (end_ r)) = true /\
       masker (slice text (start r) (end_ r)) = Ok (repl r)).
  { intros r Hr. apply in_concat in Hr. destruct Hr as (g & Hg & Hrg).
    destruct (Forall2_In_r _ _ _ _ Hgroups Hg) as ([[pat masker] validator] & Hrl & Hspans).
    unfold rule_spans in Hspans. apply gather_matches_spec in Hspans.
    destruct Hspans as [Hoff Hmask].
    exists pat, masker, validator. split; [exact Hrl|].
    assert (Hin : In (offsets r) (map offsets g)) by now apply in_map.
    rewrite Hoff in Hin. apply filter_In in Hin. destruct Hin as [Hin Hval].
    rewrite Forall_forall in Hmask. repeat split; auto. }
  split; [exact Hprov|]. split.
  - clear Hprov. induction Hgroups as [|rl g rules groups Hg _ IH]; [reflexivity|].
    cbn [map concat]. rewrite !length_app.
    pose proof (rule_spans_length text rl g Hg). lia.
  - intros Hmatch. apply Forall_forall. intros r Hr.
    destruct (Hprov r Hr) as (pat & _ & _ & _ & Hin & _).
    specialize (Hmatch pat). rewrite Forall_forall in Hmatch.
    specialize (Hmatch _ Hin). unfold match_in in Hmatch. cbn [fst snd] in Hmatch.
    unfold nonempty, in_text. lia.
Qed.

Lemma gather_rules_total text rules :
  Forall (fun rl => exists g, rule_spans finditer text rl = Ok g) rules ->
  exists res, gather_rules finditer text rules [] = Ok res.
Proof.
  intros H.
  assert (Hg : exists groups,
             Forall2 (fun rl g => rule_spans finditer text rl = Ok g) rules groups).
  { induction H as [|rl rules [g Hg] _ [groups IH]].
    - exists []. constructor.
    - exists (g :: groups). now constructor. }
  destruct Hg as [groups Hg]. exists ([] ++ concat groups).
  apply gather_rules_groups. now exists groups.
Qed.

(** X13.  [_gather_regex] does not raise when the matches are what the
    patterns promise: the text of every match of the IBAN pattern is made
    of digits and letters besides whitespace and dashes, the text of every
    match of the email pattern has an [@], and the text of a match of the
    card pattern or of the NIR pattern has no superscript digit, the
    digits these patterns ask for being decimal digits.  No other rule can
    raise. *)
Theorem gather_regex_total (text : str) :
  (forall s e, In (s, e) (finditer _iban_pat text) ->
     forallb alnum_char (_strip (slice text s e)) = true) ->
  (forall s e, In (s, e) (finditer _email_pat text) ->
     In "@"%char (slice text s e)) ->
  (forall s e, In (s, e) (finditer _card_pat text) ->
     existsb superscript_digit (slice text s e) = false) ->
  (forall s e, In (s, e) (finditer _nir_pat text) ->
     existsb superscript_digit (slice text s e) = false) ->
  exists regs, _gather_regex finditer _dt_parse_year text = Ok regs.
Proof.
  intros Hiban Hemail Hcard Hnir. unfold _gather_regex. apply gather_rules_total.
  unfold _PATTERNS.
  repeat (apply Forall_cons; [|]); try apply Forall_nil;
    unfold rule_spans; apply gather_matches_total; intros s e Hin;
    (split; [intros v [= <-] | eauto]).
  - apply _is_valid_iban_alnum. now apply Hiban.
  - rewrite _is_valid_luhn_sum by now apply Hcard. eauto.
  - destruct (in_split_first "@" _ (Hemail s e Hin)) as (l & r & -> & Hl).
    destruct (_mask_email_split l r Hl) as (masked & Hm & _). eauto.
  - apply _is_valid_nir_total. now apply Hnir.
Qed.

(** X14.  The IBAN rule, second in the table, never yields a span when
    every match of its pattern has what the pattern asks for (FR, two
    characters, five groups of four, one character): 25 digits and
    letters besides whitespace.  The validator wants 27. *)
Theorem iban_rule_never_fires (text : str) :
  (forall s e, In (s, e) (finditer _iban_pat text) ->
     forallb alnum_char (_strip (slice text s e)) = true /\
     length (_strip (slice text s e)) = 25%nat) ->
  nth_error (_PATTERNS _dt_parse_year) 1 = Some iban_rule /\
  rule_spans finditer text iban_rule = Ok [].
Proof.
  intros H. split; [reflexivity|].
  unfold rule_spans, iban_rule. apply gather_matches_rejected.
  intros s e Hin. destruct (H s e Hin) as [Halnum Hlen].
  now apply _is_valid_iban_25.
Qed.

End RegexCollector.

Lemma gather_regex_provenance_witness :
  let text := py "061234567890" in
  let regs := [mk_Repl 0 12 (py "PERMIS********")] in
  _gather_regex stub_finditer stub_dt_parse_year text = Ok regs /\
  (forall pat, Forall (match_in text) (stub_finditer pat text)) /\
  Forall (fun r => nonempty r /\ in_text (len text) r) regs /\
  (length regs
   <= length (concat (map (fun rl : rule => stub_finditer (fst (fst rl)) text)
                          (_PATTERNS stub_dt_parse_year))))%nat.
Proof.
  intros text regs.
  assert (H : _gather_regex stub_finditer stub_dt_parse_year text = Ok regs)
    by (vm_compute; reflexivity).
  assert (Hm : forall pat, Forall (match_in text) (stub_finditer pat text)).
  { intros pat. destruct pat; vm_compute; repeat constructor; discriminate. }
  destruct (gather_regex_provenance stub_finditer stub_dt_parse_year text regs H)
    as (_ & Hlen & Hinv).
  split; [exact H|]. split; [exact Hm|]. split; [exact (Hinv Hm) | exact Hlen].
Defined.

Lemma gather_regex_total_witness :
  let text := py "4539148803436467" in
  (forall s e, In (s, e) (stub_finditer _iban_pat text) ->
     forallb alnum_char (_strip (slice text s e)) = true) /\
  (forall s e, In (s, e) (stub_finditer _email_pat text) ->
     In "@"%char (slice text s e)) /\
  (forall s e, In (s, e) (stub_finditer _card_pat text) ->
     existsb superscript_digit (slice text s e) = false) /\
  (forall s e, In (s, e) (stub_finditer _nir_pat text) ->
     existsb superscript_digit (slice text s e) = false) /\
  stub_finditer _card_pat text = [(0, 16)] /\
  exists regs, _gather_regex stub_finditer stub_dt_parse_year text = Ok regs.
Proof.
  intros text.
  assert (H1 : forall s e, In (s, e) (stub_finditer _iban_pat text) ->
                 forallb alnum_char (_strip (slice text s e)) = true)
    by (intros s e []).
  assert (H2 : forall s e, In (s, e) (stub_finditer _email_pat text) ->
                 In "@"%char (slice text s e))
    by (intros s e []).
  assert (H3 : forall s e, In (s, e) (stub_finditer _card_pat text) ->
                 existsb superscript_digit (slice text s e) = false).
  { intros s e [[= <- <-]|[]]. reflexivity. }
  assert (H4 : forall s e, In (s, e) (stub_finditer _nir_pat text) ->
                 existsb superscript_digit (slice text s e) = false)
    by (intros s e []).
  split; [exact H1|]. split; [exact H2|]. split; [exact H3|]. split; [exact H4|].
  split; [reflexivity|].
  exact (gather_regex_total stub_finditer stub_dt_parse_year text H1 H2 H3 H4).
Defined.

(** The reference IBAN: the pattern stops after 25 of its 27 characters,
    and the rule yields nothing. *)
Lemma iban_rule_never_fires_witness :
  let text := py "FR7630006000011234567890189" in
  (forall s e, In (s, e) (stub_iban_finditer _iban_pat text) ->
     forallb alnum_char (_strip (slice text s e)) = true /\
     length (_strip (slice text s e)) = 25%nat) /\
  stub_iban_finditer _iban_pat text = [(0, 25)] /\
  rule_spans stub_iban_finditer text iban_rule = Ok [].
Proof.
  intros text.
  assert (H : forall s e, In (s, e) (stub_iban_finditer _iban_pat text) ->
                forallb alnum_char (_strip (slice text s e)) = true /\
                length (_strip (slice text s e)) = 25%nat).
  { intros s e [[= <- <-]|[]]. split; reflexivity. }
  split; [exact H|]. split; [reflexivity|].
  exact (proj2 (iban_rule_never_fires stub_iban_finditer stub_dt_parse_year text H)).
Defined.

(** ** The order of the candidates *)

Lemma in_filter_has_start r l : In r l -> In r (filter (has_start (start r)) l).
Proof.
  intros H. apply filter_In. split; [exact H|]. unfold has_start. apply Z.eqb_refl.
Qed.

Lemma filter_has_start_in s r l : In r (filter (has_start s) l) -> In r l /\ start r = s.
Proof.
  intros H. apply filter_In in H. destruct H as [H1 H2]. split; [exact H1|].
  unfold has_start in H2. now apply Z.eqb_eq.
Qed.

(** A list sorted by start is determined by its groups of equal start. *)
Lemma sorted_groups_eq l : forall l',
  StronglySorted by_start l -> StronglySorted by_start l' ->
  (forall s, filter (has_start s) l = filter (has_start s) l') -> l = l'.
Proof.
  induction l as [|a t IH]; intros l' Hs Hs' Hf.
  - destruct l' as [|b t']; [reflexivity|].
    pose proof (in_filter_has_start b (b :: t') (or_introl eq_refl)) as Hb.
    rewrite <- Hf in Hb. destruct Hb.
  - destruct l' as [|b t'].
    + pose proof (in_filter_has_start a (a :: t) (or_introl eq_refl)) as Ha.
      rewrite Hf in Ha. destruct Ha.
    + inversion Hs as [|? ? Hst Hall]; subst.
      inversion Hs' as [|? ? Hst' Hall']; subst.
      assert (Ha : In a (b :: t')).
      { pose proof (in_filter_has_start a (a :: t) (or_introl eq_refl)) as Ha.
        rewrite Hf in Ha. now apply filter_has_start_in in Ha. }
      assert (Hb : In b (a :: t)).
      { pose proof (in_filter_has_start b (b :: t') (or_introl eq_refl)) as Hb.
        rewrite <- Hf in Hb. now apply filter_has_start_in in Hb. }
      assert (Hab : start a = start b).
      { rewrite Forall_forall in Hall, Hall'. unfold by_start in *.
        destruct Ha as [<-|Ha]; [reflexivity|].
        destruct Hb as [<-|Hb]; [reflexivity|].
        apply Hall' in Ha. apply Hall in Hb. lia. }
      assert (Heq : a = b).
      { pose proof (Hf (start a)) as Hfa.
        rewrite !filter_has_start_cons in Hfa.
        rewrite <- Hab, Z.eqb_refl in Hfa. now injection Hfa. }
      subst b. f_equal. apply IH; [exact Hst | exact Hst' |].
      intros s. pose proof (Hf s) as Hfs.
      rewrite !filter_has_start_cons in Hfs.
      destruct (start a =? s); [now injection Hfs | exact Hfs].
Qed.

Lemma sort_by_start_groups l l' :
  (forall s, filter (has_start s) l = filter (has_start s) l') ->
  sort_by_start l = sort_by_start l'.
Proof.
  intros H. apply sorted_groups_eq; try apply sort_by_start_sorted.
  intros s. now rewrite !sort_by_start_stable.
Qed.

(** With pairwise different starts each group has at most one span, and a
    permutation keeps the groups. *)
Lemma filter_has_start_NoDup s l :
  NoDup (map start l) ->
  filter (has_start s) l = [] \/ exists r, filter (has_start s) l = [r].
Proof.
  induction l as [|x l IH]; intros Hnd; [now left|].
  inversion Hnd as [|? ? Hx Hl]; subst.
  rewrite filter_has_start_cons. destruct (start x =? s) eqn:E; [|now apply IH].
  right. exists x. f_equal. apply filter_has_start_nil.
  intros r Hr Heq. apply Hx. apply Z.eqb_eq in E. rewrite E, <- Heq.
  now apply in_map.
Qed.

Lemma groups_of_permutation l l' :
  Permutation l l' -> NoDup (map start l) ->
  forall s, filter (has_start s) l = filter (has_start s) l'.
Proof.
  intros Hp Hnd s.
  assert (Hnd' : NoDup (map start l'))
    by (eapply Permutation_NoDup; [apply Permutation_map, Hp | exact Hnd]).
  assert (Hin : forall r, In r (filter (has_start s) l) <-> In r (filter (has_start s) l')).
  { intros r. rewrite !filter_In. split; intros [H1 H2]; split; auto.
    - eapply Permutation_in; eauto.
    - eapply Permutation_in; [apply Permutation_sym|]; eauto. }
  destruct (filter_has_start_NoDup s l Hnd) as [E|[r E]],
           (filter_has_start_NoDup s l' Hnd') as [E'|[r' E']];
    rewrite E, E' in *.
  - reflexivity.
  - exfalso. apply (Hin r'). now left.
  - exfalso. apply (Hin r). now left.
  - f_equal. destruct (proj1 (Hin r) (or_introl eq_refl)) as [H|[]]. now symmetry.
Qed.

(** X15.  The output of [_apply] depends on the order of the candidate list
    only through the order of the candidates that start at the same offset:
    two lists with the same candidates in the same order at every offset
    give the same text.  In particular, when no two candidates start at the
    same offset, any reordering of the list gives the same text. *)
Theorem apply_order_independent (text : str) (l1 l2 : list _Repl) :
  ((forall s, filter (has_start s) l1 = filter (has_start s) l2) ->
   _apply text l1 = _apply text l2) /\
  (Permutation l1 l2 -> NoDup (map start l1) -> _apply text l1 = _apply text l2).
Proof.
  assert (H : (forall s, filter (has_start s) l1 = filter (has_start s) l2) ->
              _apply text l1 = _apply text l2).
  { intros Hg. rewrite !_apply_render. now rewrite (sort_by_start_groups l1 l2 Hg). }
  split; [exact H|].
  intros Hp Hnd. apply H. now apply groups_of_permutation.
Qed.

Lemma apply_order_independent_witness :
  let text := py "Jean a@b.fr 0611223344" in
  let e := mk_Repl 5 11 (py "*@b.fr") in
  let p := mk_Repl 12 22 (py "XXXXXXXX44") in
  let j := mk_Repl 0 4 (py "J***") in
  Permutation [e; p; j] [j; e; p] /\
  NoDup (map start [e; p; j]) /\
  _apply text [e; p; j] = _apply text [j; e; p] /\
  _apply text [j; e; p] = py "J*** *@b.fr XXXXXXXX44".
Proof.
  intros text e p j.
  assert (Hp : Permutation [e; p; j] [j; e; p]).
  { apply Permutation_sym. change [j; e; p] with ([j] ++ [e; p]).
    change [e; p; j] with ([e; p] ++ [j]). apply Permutation_app_comm. }
  assert (Hnd : NoDup (map start [e; p; j])).
  { simpl. repeat constructor; simpl; intuition discriminate. }
  split; [exact Hp|]. split; [exact Hnd|].
  split; [|reflexivity].
  exact (proj2 (apply_order_independent text [e; p; j] [j; e; p]) Hp Hnd).
Defined.

(** ** Slices inside the text *)

Lemma slice_exact text a b :
  0 <= a -> a <= b -> b <= len text ->
  slice text a b = firstn (Z.to_nat (b - a)) (skipn (Z.to_nat a) text).
Proof.
  intros Ha Hab Hb. unfold slice, norm_index.
  destruct (a <? 0) eqn:E1; [lia|]. destruct (b <? 0) eqn:E2; [lia|].
  rewrite !Z.min_l by lia. reflexivity.
Qed.

Lemma len_app (a b : str) : len (a ++ b) = len a + len b.
Proof. unfold len. rewrite length_app. lia. Qed.

Lemma slice_len text a b :
  0 <= a -> a <= b -> b <= len text -> len (slice text a b) = b - a.
Proof.
  intros Ha Hab Hb. rewrite slice_exact by assumption.
  unfold len in *. rewrite length_firstn, length_skipn. lia.
Qed.

Lemma slice_from_len text c :
  0 <= c -> c <= len text -> len (slice_from text c) = len text - c.
Proof. intros H0 H1. unfold slice_from. apply slice_len; lia. Qed.

Lemma firstn_add {A : Type} (n k : nat) : forall l : list A,
  firstn (n + k) l = firstn n l ++ firstn k (skipn n l).
Proof.
  induction n as [|n IH]; intros l; [reflexivity|].
  destruct l as [|x l]; simpl.
  - now rewrite firstn_nil.
  - now rewrite IH.
Qed.

Lemma slice_split text a m b :
  0 <= a -> a <= m -> m <= b -> b <= len text ->
  slice text a b = slice text a m ++ slice text m b.
Proof.
  intros Ha Ham Hmb Hb. rewrite !slice_exact by lia.
  replace (Z.to_nat (b - a)) with (Z.to_nat (m - a) + Z.to_nat (b - m))%nat by lia.
  rewrite firstn_add, skipn_skipn.
  do 3 f_equal. lia.
Qed.

Lemma slice_slice text a b c d :
  0 <= a -> a <= c -> c <= d -> d <= b -> b <= len text ->
  slice (slice text a b) (c - a) (d - a) = slice text c d.
Proof.
  intros Ha Hac Hcd Hdb Hb.
  assert (Hlen : len (slice text a b) = b - a) by (apply slice_len; lia).
  rewrite (slice_exact (slice text a b)) by lia.
  rewrite (slice_exact text a b), (slice_exact text c d) by lia.
  rewrite skipn_firstn_comm, firstn_firstn, skipn_skipn.
  f_equal; [lia | f_equal; lia].
Qed.

(** ** The length of the output *)

Lemma render_len text rs : forall cursor,
  0 <= cursor -> cursor <= len text ->
  Forall (within 0 (len text)) rs -> chained cursor rs ->
  len (render text rs cursor) = len text - cursor + total_growth rs.
Proof.
  induction rs as [|r rs IH]; intros cursor H0 H1 Hin Hch; simpl.
  - rewrite slice_from_len by lia. lia.
  - inversion Hin as [|? ? Hr Hrs]; subst. destruct Hr as (Hr0 & Hr1 & Hr2).
    destruct Hch as [Hc Hch].
    rewrite !len_app, slice_len by lia.
    rewrite (IH (end_ r)) by (auto; lia).
    unfold growth. lia.
Qed.

Lemma accepted_Forall (P : _Repl -> Prop) repls :
  Forall P repls -> Forall P (accepted (sort_by_start repls) 0).
Proof.
  intros H. rewrite Forall_forall in *. intros r Hr. apply H.
  eapply Permutation_in; [apply Permutation_sym, sort_by_start_perm|].
  eapply accepted_incl, Hr.
Qed.

Lemma total_growth_0 rs :
  Forall (fun r => len (repl r) = end_ r - start r) rs -> total_growth rs = 0.
Proof.
  induction 1 as [|r rs Hr Hrs IH]; simpl; [reflexivity|].
  unfold growth. lia.
Qed.

(** X16.  When every candidate lies inside the text with ordered offsets,
    the output of [_apply] is as long as the text plus, for each span that
    is applied, the length of its replacement minus the length of the
    span.  Replacements that are as long as their spans therefore leave the
    length of the text unchanged. *)
Theorem apply_length (text : str) (repls : list _Repl) :
  Forall (within 0 (len text)) repls ->
  len (_apply text repls)
    = len text + total_growth (accepted (sort_by_start repls) 0) /\
  (Forall (fun r => len (repl r) = end_ r - start r) repls ->
   len (_apply text repls) = len text).
Proof.
  intros Hin.
  assert (H : len (_apply text repls)
              = len text + total_growth (accepted (sort_by_start repls) 0)).
  { rewrite _apply_render, render_len.
    - lia.
    - lia.
    - apply len_nonneg.
    - now apply accepted_Forall.
    - apply accepted_chained. }
  split; [exact H|].
  intros Hsame. rewrite H, total_growth_0; [lia|]. now apply accepted_Forall.
Qed.

Lemma apply_length_witness :
  let text := py "Jean a@b.fr 06 11 22 33 44" in
  let repls := [mk_Repl 0 4 (py "J***"); mk_Repl 12 26 (py "XXXXXXXX44");
                mk_Repl 2 6 (py "dropped")] in
  Forall (within 0 (len text)) repls /\
  len (_apply text repls) = len text + (0 + (-4 + 0)) /\
  _apply text repls = py "J*** a@b.fr XXXXXXXX44".
Proof.
  intros text repls.
  assert (Hin : Forall (within 0 (len text)) repls)
    by (unfold repls, text;
        repeat (apply Forall_cons; [unfold within, len; simpl; lia|]);
        apply Forall_nil).
  split; [exact Hin|]. split; [|reflexivity].
  exact (proj1 (apply_length text repls Hin)).
Defined.

(** ** Which candidates are dropped *)

Lemma accepted_or_covered rs :
  StronglySorted by_start rs -> forall cursor r, In r rs ->
  In r (accepted rs cursor) \/ start r < cursor \/
  exists a, In a (accepted rs cursor) /\ start a <= start r /\ start r < end_ a.
Proof.
  induction 1 as [|x rs Hs IH Hall]; intros cursor r Hr; [destruct Hr|].
  cbn [accepted]. destruct (start x <? cursor) eqn:E.
  - destruct Hr as [<-|Hr].
    + right. left. lia.
    + now apply IH.
  - destruct Hr as [<-|Hr]; [left; now left|].
    destruct (IH (end_ x) r Hr) as [H|[H|(a & Ha & H1 & H2)]].
    + left. now right.
    + right. right. exists x. split; [now left|]. split; [|exact H].
      rewrite Forall_forall in Hall. apply (Hall r Hr).
    + right. right. exists a. split; [now right | now split].
Qed.

(** X17.  [_apply] drops a candidate only because of an overlap: every
    candidate with a start offset at or above 0 is either applied, or
    starts inside the range of an applied span that starts no later (a
    span that ends where another starts does not count as covering it). *)
Theorem apply_drops_only_overlapped (text : str) (repls : list _Repl) (r : _Repl) :
  In r repls -> 0 <= start r ->
  let applied := accepted (sort_by_start repls) 0 in
  _apply text repls = render text applied 0 /\
  (In r applied \/
   exists a, In a applied /\ start a <= start r /\ start r < end_ a).
Proof.
  intros Hr H0 applied. split; [apply _apply_render|].
  destruct (accepted_or_covered (sort_by_start repls)
              (sort_by_start_sorted repls) 0 r) as [H|[H|H]].
  - eapply Permutation_in; [apply sort_by_start_perm | exact Hr].
  - now left.
  - lia.
  - now right.
Qed.

Lemma apply_drops_only_overlapped_witness :
  let text := py "0123456789abcdefghij" in
  let a := mk_Repl 0 10 (py "A") in
  let b := mk_Repl 5 15 (py "B") in
  let c := mk_Repl 10 12 (py "C") in
  In b [b; c; a] /\ 0 <= start b /\
  accepted (sort_by_start [b; c; a]) 0 = [a; c] /\
  _apply text [b; c; a] = py "ACcdefghij" /\
  (In b [a; c] \/ exists x, In x [a; c] /\ start x <= start b /\ start b < end_ x).
Proof.
  intros text a b c.
  assert (Hin : In b [b; c; a]) by now left.
  assert (H0 : 0 <= start b) by (simpl; lia).
  split; [exact Hin|]. split; [exact H0|]. split; [reflexivity|].
  split; [reflexivity|].
  exact (proj2 (apply_drops_only_overlapped text [b; c; a] b Hin H0)).
Defined.

Lemma disjoint_sym a b : disjoint a b -> disjoint b a.
Proof. unfold disjoint. tauto. Qed.

Lemma insort_pairs r l :
  ForallOrdPairs disjoint l -> Forall (disjoint r) l ->
  ForallOrdPairs disjoint (insort r l).
Proof.
  induction 1 as [|x l Hx Hl IH]; intros Hr; simpl.
  - repeat constructor.
  - destruct (start r <=? start x).
    + constructor; [exact Hr | now constructor].
    + inversion Hr as [|? ? Hrx Hrl]; subst. constructor; [|now apply IH].
      eapply Permutation_Forall; [apply insort_perm|].
      constructor; [now apply disjoint_sym | exact Hx].
Qed.

Lemma sort_by_start_pairs l :
  ForallOrdPairs disjoint l -> ForallOrdPairs disjoint (sort_by_start l).
Proof.
  induction 1 as [|x l Hx Hl IH]; simpl; [constructor|].
  apply insort_pairs; [exact IH|].
  eapply Permutation_Forall; [apply sort_by_start_perm | exact Hx].
Qed.

Lemma accepted_all rs :
  StronglySorted by_start rs -> ForallOrdPairs disjoint rs -> Forall nonempty rs ->
  forall cursor, Forall (fun r => cursor <= start r) rs -> accepted rs cursor = rs.
Proof.
  induction 1 as [|x rs Hs IH Hall]; intros Hd Hne cursor Hc; [reflexivity|].
  inversion Hd as [|? ? Hx Hd']; subst. inversion Hne as [|? ? Hnx Hne']; subst.
  inversion Hc as [|? ? Hcx Hc']; subst.
  cbn [accepted]. destruct (start x <? cursor) eqn:E; [lia|].
  f_equal. apply IH; auto.
  rewrite Forall_forall in *. intros r Hr.
  specialize (Hx r Hr). specialize (Hall r Hr). specialize (Hne' r Hr).
  unfold disjoint, by_start, nonempty in *. lia.
Qed.

(** X18.  Candidates that cover at least one character each, start at or
    above 0 and do not overlap one another are all applied: the walk of
    [_apply] drops none of them, and the output is written from the whole
    list of candidates in the order of their start offsets. *)
Theorem disjoint_candidates_all_applied (text : str) (repls : list _Repl) :
  Forall nonempty repls -> Forall (fun r => 0 <= start r) repls ->
  ForallOrdPairs disjoint repls ->
  accepted (sort_by_start repls) 0 = sort_by_start repls /\
  _apply text repls = render text (sort_by_start repls) 0.
Proof.
  intros Hne H0 Hd.
  assert (H : accepted (sort_by_start repls) 0 = sort_by_start repls).
  { apply accepted_all.
    - apply sort_by_start_sorted.
    - now apply sort_by_start_pairs.
    - now apply nonempty_sorted.
    - eapply Permutation_Forall; [apply sort_by_start_perm | exact H0]. }
  split; [exact H|]. now rewrite _apply_render, H.
Qed.

Lemma disjoint_candidates_all_applied_witness :
  let text := py "Jean a@b.fr 0611223344" in
  let e := mk_Repl 5 11 (py "*@b.fr") in
  let p := mk_Repl 12 22 (py "XXXXXXXX44") in
  let j := mk_Repl 0 4 (py "J***") in
  Forall nonempty [e; p; j] /\ Forall (fun r => 0 <= start r) [e; p; j] /\
  ForallOrdPairs disjoint [e; p; j] /\
  accepted (sort_by_start [e; p; j]) 0 = [j; e; p] /\
  _apply text [e; p; j] = render text [j; e; p] 0.
Proof.
  intros text e p j.
  assert (Hne : Forall nonempty [e; p; j])
    by (repeat constructor; unfold nonempty; simpl; lia).
  assert (H0 : Forall (fun r => 0 <= start r) [e; p; j])
    by (repeat constructor; simpl; lia).
  assert (Hd : ForallOrdPairs disjoint [e; p; j])
    by (repeat constructor; unfold disjoint; simpl; lia).
  split; [exact Hne|]. split; [exact H0|]. split; [exact Hd|].
  exact (disjoint_candidates_all_applied text [e; p; j] Hne H0 Hd).
Defined.

(** ** Anonymizing a window of the text *)

Lemma insort_shift k r l :
  insort (shift k r) (map (shift k) l) = map (shift k) (insort r l).
Proof.
  induction l as [|x l IH]; [reflexivity|].
  simpl. replace (start r + k <=? start x + k) with (start r <=? start x)
    by (destruct (start r <=? start x) eqn:E1, (start r + k <=? start x + k) eqn:E2;
        try reflexivity; exfalso; zbool; lia).
  destruct (start r <=? start x); [reflexivity|].
  simpl. now rewrite <- IH.
Qed.

Lemma sort_by_start_shift k l :
  sort_by_start (map (shift k) l) = map (shift k) (sort_by_start l).
Proof.
  induction l as [|r l IH]; [reflexivity|].
  simpl. rewrite IH. apply insort_shift.
Qed.

Lemma accepted_shift k rs : forall cursor,
  accepted (map (shift k) rs) (cursor + k) = map (shift k) (accepted rs cursor).
Proof.
  induction rs as [|r rs IH]; intros cursor; [reflexivity|].
  simpl. replace (start r + k <? cursor + k) with (start r <? cursor)
    by (destruct (start r <? cursor) eqn:E1, (start r + k <? cursor + k) eqn:E2;
        try reflexivity; exfalso; zbool; lia).
  destruct (start r <? cursor); [apply IH|].
  simpl. f_equal. apply (IH (end_ r)).
Qed.

(** The walk keeps the same spans from any cursor none of them starts
    before. *)
Lemma accepted_from rs c c' :
  Forall (fun r => c <= start r /\ c' <= start r) rs ->
  accepted rs c = accepted rs c'.
Proof.
  intros H. destruct H as [|r rs [H1 H2] _]; [reflexivity|].
  simpl. destruct (start r <? c) eqn:E1; [exfalso; zbool; lia|].
  destruct (start r <? c') eqn:E2; [exfalso; zbool; lia|]. reflexivity.
Qed.

Lemma render_from_0 text a b rs :
  0 <= a -> b <= len text -> Forall (within a b) rs ->
  render text rs 0 = slice_to text a ++ render text rs a.
Proof.
  intros Ha Hb Hin. unfold slice_to. destruct Hin as [|r rs (H1 & H2 & H3) _]; simpl.
  - unfold slice_from. pose proof (len_nonneg text).
    destruct (Z.le_gt_cases a (len text)) as [Hle|Hgt].
    + apply slice_split; lia.
    + rewrite <- (slice_clamp text 0 a), <- (slice_clamp text a (len text)) by lia.
      rewrite !Z.min_id, (Z.min_r a) by lia.
      rewrite slice_same, app_nil_r. now rewrite Z.min_l by lia.
  - rewrite (slice_split text 0 a (start r)) by lia.
    now rewrite <- app_assoc.
Qed.

Lemma render_window text a b rs : forall cursor,
  0 <= a -> b <= len text -> a <= cursor -> cursor <= b ->
  Forall (within a b) rs -> chained cursor rs ->
  render text rs cursor
    = render (slice text a b) (map (shift (- a)) rs) (cursor - a)
      ++ slice_from text b.
Proof.
  assert (Hsub : forall x, x + - a = x - a) by (intros; lia).
  induction rs as [|r rs IH]; intros cursor Ha Hb Hac Hcb Hin Hch; simpl.
  - unfold slice_from. rewrite (slice_len text a b) by lia.
    rewrite (slice_slice text a b cursor b) by lia.
    apply slice_split; lia.
  - inversion Hin as [|? ? (H1 & H2 & H3) Hrs]; subst. destruct Hch as [Hc Hch].
    rewrite !Hsub. rewrite (slice_slice text a b cursor (start r)) by lia.
    rewrite (IH (end_ r)) by (auto; lia).
    now rewrite <- !app_assoc.
Qed.

(** X19.  Anonymizing is local.  When all candidates lie, with ordered
    offsets, between the positions [a] and [b] of the text, the output of
    [_apply] is the text before [a], unchanged, then what [_apply] gives on
    the window from [a] to [b] alone with the candidates' offsets counted
    from [a], then the text after [b], unchanged. *)
Theorem apply_window (text : str) (a b : Z) (repls : list _Repl) :
  0 <= a -> a <= b -> b <= len text -> Forall (within a b) repls ->
  _apply text repls
    = slice_to text a
      ++ _apply (slice text a b) (map (shift (- a)) repls)
      ++ slice_from text b.
Proof.
  intros Ha Hab Hb Hin.
  set (S := sort_by_start repls).
  assert (HS : Forall (within a b) S)
    by (eapply Permutation_Forall; [apply sort_by_start_perm | exact Hin]).
  assert (Hacc : accepted S 0 = accepted S a).
  { apply accepted_from. eapply Forall_impl; [|exact HS].
    intros r (H1 & _). lia. }
  assert (HA : Forall (within a b) (accepted S a)).
  { rewrite Forall_forall in *. intros r Hr. apply HS. eapply accepted_incl, Hr. }
  rewrite !_apply_render. fold S.
  rewrite sort_by_start_shift. fold S.
  assert (Hsh : accepted (map (shift (- a)) S) 0 = map (shift (- a)) (accepted S a))
    by (rewrite <- accepted_shift; f_equal; lia).
  rewrite Hsh, Hacc.
  rewrite (render_from_0 text a b) by (auto; lia).
  f_equal.
  rewrite (render_window text a b (accepted S a) a) by (auto using accepted_chained; lia).
  now rewrite Z.sub_diag.
Qed.

Lemma apply_window_witness :
  let text := py "Bonjour Jean Dupont, merci" in
  let repls := [mk_Repl 8 19 (py "J**********")] in
  0 <= 8 /\ 8 <= 19 /\ 19 <= len text /\ Forall (within 8 19) repls /\
  slice text 8 19 = py "Jean Dupont" /\
  _apply (py "Jean Dupont") [mk_Repl 0 11 (py "J**********")] = py "J**********" /\
  _apply text repls = py "Bonjour " ++ py "J**********" ++ py ", merci".
Proof.
  intros text repls.
  assert (H1 : 0 <= 8) by lia. assert (H2 : 8 <= 19) by lia.
  assert (H3 : 19 <= len text) by (unfold text, len; simpl; lia).
  assert (H4 : Forall (within 8 19) repls)
    by (unfold repls; repeat (apply Forall_cons; [unfold within; simpl; lia|]);
        apply Forall_nil).
  split; [exact H1|]. split; [exact H2|]. split; [exact H3|]. split; [exact H4|].
  split; [reflexivity|]. split; [reflexivity|].
  exact (apply_window text 8 19 repls H1 H2 H3 H4).
Defined.

(** ** Failures of the pipeline *)

Lemma mapM_Raise {A B : Type} (f : A -> result B) l e :
  mapM f l = Raise e <-> first_failure f l e.
Proof.
  induction l as [|a l IH]; simpl.
  - split; [discriminate|]. intros (l1 & x & l2 & Heq & _). now destruct l1.
  - destruct (f a) as [b|e0] eqn:Ea; simpl.
    + destruct (mapM f l) as [bs|e1] eqn:Em; simpl.
      * split; [discriminate|]. intros (l1 & x & l2 & Heq & Hall & Hx).
        destruct l1 as [|y l1]; injection Heq as <- ->.
        -- rewrite Ea in Hx. discriminate.
        -- inversion Hall as [|? ? _ Hall']; subst.
           assert (H : Ok bs = Raise e)
             by (apply IH; now exists l1, x, l2).
           discriminate.
      * split.
        -- intros [= ->]. destruct (proj1 IH eq_refl) as (l1 & x & l2 & -> & Hall & Hx).
           exists (a :: l1), x, l2. repeat split; auto.
           constructor; [now exists b | exact Hall].
        -- intros (l1 & x & l2 & Heq & Hall & Hx).
           destruct l1 as [|y l1]; injection Heq as <- ->.
           ++ rewrite Ea in Hx. discriminate.
           ++ inversion Hall as [|? ? _ Hall']; subst.
              apply IH. now exists l1, x, l2.
    + split.
      * intros [= ->]. exists [], a, l. repeat split; auto.
      * intros (l1 & x & l2 & Heq & Hall & Hx).
        destruct l1 as [|y l1]; injection Heq as <- ->.
        -- rewrite Ea in Hx. now injection Hx as ->.
        -- inversion Hall as [|? ? [b Hb] _]; subst. rewrite Ea in Hb. discriminate.
Qed.

Lemma map_Ok_docs {A B : Type} (f : A -> result B) l :
  Forall (fun y => exists b, f y = Ok b) l ->
  exists bs, map f l = map Ok bs /\ length bs = length l.
Proof.
  induction 1 as [|y l [b Hb] _ (bs & Hbs & Hlen)].
  - now exists [].
  - exists (b :: bs). simpl. rewrite Hb, Hbs, Hlen. now split.
Qed.

Lemma mapM_map_Ok {A B : Type} (f : A -> result B) l bs :
  mapM f l = Ok bs -> map f l = map Ok bs /\ length bs = length l.
Proof.
  intros H. apply mapM_Ok in H. induction H as [|x b l bs Hx _ [IH1 IH2]].
  - now split.
  - simpl. rewrite Hx, IH1, IH2. now split.
Qed.

Lemma many_loop_docs_Ok texts : forall regs phs ds results,
  length regs = length texts -> length phs = length texts ->
  length ds = length texts ->
  exists outs, many_loop texts regs phs (map Ok ds) results = Ok outs.
Proof.
  induction texts as [|t texts IH];
    intros [|r regs] [|p phs] [|d ds] results Hr Hp Hd; simpl in *; try discriminate.
  - now exists results.
  - destruct (_gather_person_total d) as [persons ->]. simpl.
    apply IH; lia.
Qed.

Lemma many_loop_short texts : forall regs phs ds results,
  length regs = length texts -> length phs = length texts ->
  length ds <> length texts ->
  many_loop texts regs phs (map Ok ds) results = Raise ValueError.
Proof.
  induction texts as [|t texts IH];
    intros [|r regs] [|p phs] [|d ds] results Hr Hp Hd; simpl in *;
    try discriminate; try reflexivity; try congruence.
  destruct (_gather_person_total d) as [persons ->]. simpl.
  apply IH; lia.
Qed.

Section PipelineFailures.

Variable finditer : pattern -> str -> list (Z * Z).
Variable _dt_parse_year : str -> result Z.
Variable phonenumber : Type.
Variable PhoneNumberMatcher : str -> result (list (PhoneNumberMatch phonenumber)).
Variable is_possible_number : phonenumber -> bool.
Variable _nlp : str -> result Doc.
Variable _nlp_pipe : list str -> list (result Doc).

Local Notation "'gather_regex'" := (_gather_regex finditer _dt_parse_year).
Local Notation "'gather_phones'" :=
  (_gather_phones phonenumber PhoneNumberMatcher is_possible_number).
Local Notation "'single'" :=
  (anonymize_all finditer _dt_parse_year phonenumber PhoneNumberMatcher
                 is_possible_number _nlp).
Local Notation "'many'" :=
  (anonymize_all_many finditer _dt_parse_year phonenumber PhoneNumberMatcher
                      is_possible_number _nlp_pipe).

Lemma gather_phones_Raise text e :
  gather_phones text = Raise e <-> PhoneNumberMatcher text = Raise e.
Proof.
  unfold _gather_phones. destruct (PhoneNumberMatcher text); simpl; split;
    congruence.
Qed.

(** X20.  [anonymize_all] raises exactly when one of its first three stages
    does, and it raises what the first failing stage raises: the regex
    rules, then the phone matcher, then the pipeline.  The phone stage
    fails only when the matcher itself does, and the person stage never
    fails, whatever document the pipeline returns. *)
Theorem anonymize_all_failure (text : str) (e : exn) :
  (single text = Raise e <->
   gather_regex text = Raise e \/
   (exists regs, gather_regex text = Ok regs /\ PhoneNumberMatcher text = Raise e) \/
   (exists regs ms, gather_regex text = Ok regs /\ PhoneNumberMatcher text = Ok ms /\
                    _nlp text = Raise e)) /\
  (forall doc, exists persons, _gather_person doc = Ok persons).
Proof.
  split; [|apply _gather_person_total].
  unfold anonymize_all, _gather_phones.
  destruct (gather_regex text) as [regs|e1]; simpl.
  2:{ split; [intros [= ->]; now left|].
      intros [H|[(r & H & _)|(r & ms & H & _)]]; congruence. }
  destruct (PhoneNumberMatcher text) as [ms|e2]; simpl.
  2:{ split; [intros [= ->]; right; left; now exists regs|].
      intros [H|[(r & _ & H)|(r & ms & _ & H & _)]]; congruence. }
  destruct (_nlp text) as [doc|e3]; simpl.
  2:{ split; [intros [= ->]; right; right; now exists regs, ms|].
      intros [H|[(r & _ & H)|(r & ms' & _ & _ & H)]]; congruence. }
  destruct (_gather_person_total doc) as [persons ->]. simpl.
  split; [discriminate|].
  intros [H|[(r & _ & H)|(r & ms' & _ & _ & H)]]; discriminate.
Qed.

Lemma many_loop_nlp texts regs phs e :
  length regs = length texts -> length phs = length texts ->
  (many_loop texts regs phs (map _nlp texts) [] = Raise e <->
   first_failure _nlp texts e).
Proof.
  intros Hr Hp.
  assert (Hfwd : forall e', first_failure _nlp texts e' ->
            many_loop texts regs phs (map _nlp texts) [] = Raise e').
  { intros e' (l1 & x & l2 & -> & Hall & Hx).
    destruct (map_Ok_docs _nlp l1 Hall) as (ds & Hds & Hlen).
    rewrite map_app. simpl. rewrite Hds, Hx.
    apply many_loop_raise; auto. rewrite length_app. lia. }
  split; [|apply Hfwd].
  intros H. destruct (mapM _nlp texts) as [ds|e'] eqn:Em.
  - apply mapM_map_Ok in Em. destruct Em as [Hds Hlen].
    rewrite Hds in H.
    destruct (many_loop_docs_Ok texts regs phs ds [] Hr Hp Hlen) as [outs Ho].
    congruence.
  - apply mapM_Raise in Em. pose proof (Hfwd e' Em) as H'.
    assert (e' = e) by congruence. now subst.
Qed.

(** X21.  When the batched pipeline yields the documents of the single
    calls, [anonymize_all_many] raises exactly what the first failing call
    raises in this order: the regex stage on each text of the batch in
    turn, then the phone stage on each text in turn, then the pipeline on
    each text in turn.  A failure of the phone stage on a later text
    therefore comes before a failure of the pipeline on an earlier one. *)
Theorem batch_failure_order (texts : list str) (e : exn) :
  _nlp_pipe texts = map _nlp texts ->
  (many texts = Raise e <->
   first_failure gather_regex texts e \/
   ((exists regs, mapM gather_regex texts = Ok regs) /\
    first_failure gather_phones texts e) \/
   ((exists regs, mapM gather_regex texts = Ok regs) /\
    (exists phs, mapM gather_phones texts = Ok phs) /\
    first_failure _nlp texts e)).
Proof.
  intros Hpipe. unfold anonymize_all_many. rewrite Hpipe.
  rewrite <- !mapM_Raise.
  destruct (mapM gather_regex texts) as [regs|e1] eqn:Er; simpl.
  2:{ split; [intros [= ->]; now left|].
      intros [H|[([r H] & _)|([r H] & _)]]; congruence. }
  destruct (mapM gather_phones texts) as [phs|e2] eqn:Ep; simpl.
  2:{ split; [intros [= ->]; right; left; split; [now exists regs | reflexivity]|].
      intros [H|[(_ & H)|(_ & [p H] & _)]]; congruence. }
  apply mapM_map_Ok in Er as [_ Hr]. apply mapM_map_Ok in Ep as [_ Hp].
  rewrite (many_loop_nlp texts regs phs e Hr Hp), <- mapM_Raise.
  split.
  - intros H. right. right. split; [now exists regs|]. split; [now exists phs | exact H].
  - intros [H|[(_ & H)|(_ & _ & H)]]; try discriminate. exact H.
Qed.

(** X22.  [anonymize_all_many] checks that the pipeline yields one document
    per text: when the collectors succeed and the pipeline yields, without
    raising, a number of documents other than the number of texts, the
    call raises [ValueError] and returns no output, also for the texts
    that did get a document. *)
Theorem batch_document_count (texts : list str) (ds : list Doc) :
  (exists regs, mapM gather_regex texts = Ok regs) ->
  (exists phs, mapM gather_phones texts = Ok phs) ->
  _nlp_pipe texts = map Ok ds -> length ds <> length texts ->
  many texts = Raise ValueError.
Proof.
  intros [regs Hr] [phs Hp] Hpipe Hlen.
  unfold anonymize_all_many. rewrite Hr, Hp, Hpipe. simpl.
  apply mapM_map_Ok in Hr as [_ Hr]. apply mapM_map_Ok in Hp as [_ Hp].
  now apply many_loop_short.
Qed.

End PipelineFailures.

(** A batch of two texts: the pipeline fails on the first, the phone
    matcher on the second.  The batch raises what the phone matcher raises;
    the single call on the first text raises what the pipeline raises. *)
Lemma batch_failure_order_witness :
  let texts := [py "?a"; py "!b"] in
  let e := ExternalError "phonenumbers" in
  map stub_nlp_failing texts = map stub_nlp_failing texts /\
  anonymize_all_many stub_finditer stub_dt_parse_year unit stub_matcher_failing
    stub_possible (map stub_nlp_failing) texts = Raise e /\
  anonymize_all stub_finditer stub_dt_parse_year unit stub_matcher_failing
    stub_possible stub_nlp_failing (py "?a") = Raise (ExternalError "ner") /\
  first_failure (_gather_phones unit stub_matcher_failing stub_possible) texts e.
Proof.
  intros texts e.
  assert (Hff : first_failure (_gather_phones unit stub_matcher_failing stub_possible)
                  texts e).
  { exists [py "?a"], (py "!b"), []. split; [reflexivity|]. split; [|reflexivity].
    constructor; [|constructor]. now exists []. }
  split; [reflexivity|]. split; [|split; [reflexivity | exact Hff]].
  apply (batch_failure_order stub_finditer stub_dt_parse_year unit stub_matcher_failing
           stub_possible stub_nlp_failing (map stub_nlp_failing) texts e eq_refl).
  right. left. split; [|exact Hff]. now exists [[]; []].
Defined.

Lemma batch_document_count_witness :
  let texts := [py "a@b.fr"; py "0611223344"] in
  (exists regs, mapM (_gather_regex stub_finditer stub_dt_parse_year) texts = Ok regs) /\
  (exists phs, mapM (_gather_phones unit stub_matcher stub_possible) texts = Ok phs) /\
  stub_pipe_short texts = map Ok [mk_Doc []] /\
  length [mk_Doc []] <> length texts /\
  anonymize_all_many stub_finditer stub_dt_parse_year unit stub_matcher
    stub_possible stub_pipe_short texts = Raise ValueError.
Proof.
  intros texts.
  assert (Hr : exists regs,
             mapM (_gather_regex stub_finditer stub_dt_parse_year) texts = Ok regs)
    by (eexists; vm_compute; reflexivity).
  assert (Hp : exists phs,
             mapM (_gather_phones unit stub_matcher stub_possible) texts = Ok phs)
    by (eexists; vm_compute; reflexivity).
  assert (Hd : stub_pipe_short texts = map Ok [mk_Doc []]) by reflexivity.
  assert (Hl : length [mk_Doc []] <> length texts) by (simpl; lia).
  split; [exact Hr|]. split; [exact Hp|]. split; [exact Hd|]. split; [exact Hl|].
  exact (batch_document_count stub_finditer stub_dt_parse_year unit stub_matcher
           stub_possible stub_pipe_short texts [mk_Doc []] Hr Hp Hd Hl).
Defined.

(** ** The endpoints *)

Lemma encode_char_len c :
  Z.of_nat (length (encode_char c)) = if wide c then 2 else 1.
Proof.
  unfold encode_char, wide, code.
  destruct (N_of_ascii c <? 128)%N eqn:E1, (128 <=? Z.of_N (N_of_ascii c)) eqn:E2;
    try reflexivity; exfalso.
  - apply N.ltb_lt in E1. zbool. lia.
  - apply N.ltb_ge in E1. zbool. lia.
Qed.

Lemma encode_len s : len_bytes (encode s) = len s + len (filter wide s).
Proof.
  unfold len_bytes, len, encode. induction s as [|c s IH]; [reflexivity|].
  cbn [flat_map filter]. rewrite length_app, Nat2Z.inj_add, encode_char_len, IH.
  destruct (wide c); cbn [length]; lia.
Qed.

Lemma encode_len_ge s : len s <= len_bytes (encode s).
Proof. rewrite encode_len. pose proof (len_nonneg (filter wide s)). lia. Qed.

Lemma fold_left_add l : forall a, fold_left Z.add l a = a + fold_left Z.add l 0.
Proof.
  induction l as [|x l IH]; intros a; simpl; [lia|].
  rewrite (IH (a + x)), (IH x). lia.
Qed.

Lemma total_bytes_cons t texts :
  total_bytes (t :: texts) = len_bytes (encode t) + total_bytes texts.
Proof. unfold total_bytes. simpl. now rewrite fold_left_add. Qed.

Lemma total_bytes_nonneg texts : 0 <= total_bytes texts.
Proof.
  induction texts as [|t texts IH]; [unfold total_bytes; simpl; lia|].
  rewrite total_bytes_cons. pose proof (encode_len_ge t). pose proof (len_nonneg t). lia.
Qed.

Lemma total_bytes_In t texts : In t texts -> len_bytes (encode t) <= total_bytes texts.
Proof.
  induction texts as [|x texts IH]; intros H; [destruct H|].
  rewrite total_bytes_cons. pose proof (total_bytes_nonneg texts).
  pose proof (encode_len_ge x). pose proof (len_nonneg x).
  destruct H as [->|H]; [lia|]. apply IH in H. lia.
Qed.

Section ApiFacts.

Variable finditer : pattern -> str -> list (Z * Z).
Variable _dt_parse_year : str -> result Z.
Variable phonenumber : Type.
Variable PhoneNumberMatcher : str -> result (list (PhoneNumberMatch phonenumber)).
Variable is_possible_number : phonenumber -> bool.
Variable _nlp : str -> result Doc.
Variable _nlp_pipe : list str -> list (result Doc).
Variable MAX_PAYLOAD : Z.

Local Notation "'single'" :=
  (anonymize_all finditer _dt_parse_year phonenumber PhoneNumberMatcher
                 is_possible_number _nlp).
Local Notation "'many'" :=
  (anonymize_all_many finditer _dt_parse_year phonenumber PhoneNumberMatcher
                      is_possible_number _nlp_pipe).
Local Notation "'post_anonymize'" :=
  (anonymize finditer _dt_parse_year phonenumber PhoneNumberMatcher
             is_possible_number _nlp MAX_PAYLOAD).
Local Notation "'post_anonymize_batch'" :=
  (anonymize_batch finditer _dt_parse_year phonenumber PhoneNumberMatcher
                   is_possible_number _nlp_pipe MAX_PAYLOAD).

Lemma anonymize_Returned t o :
  post_anonymize (SingleIn.mk t) = Returned (SingleOut.mk o) <->
  len_bytes (encode t) <= MAX_PAYLOAD /\ single t = Ok o.
Proof.
  unfold anonymize. cbn [SingleIn.text].
  destruct (len_bytes (encode t) >? MAX_PAYLOAD) eqn:E.
  - split; [discriminate|]. intros [H _]. exfalso. apply Z.gtb_lt in E. lia.
  - assert (len_bytes (encode t) <= MAX_PAYLOAD).
    { destruct (Z.gtb_spec (len_bytes (encode t)) MAX_PAYLOAD); [discriminate | lia]. }
    destruct (single t) as [out|e]; split.
    + intros [= ->]. now split.
    + intros [_ [= ->]]. reflexivity.
    + discriminate.
    + intros [_ H']. discriminate.
Qed.

Lemma anonymize_batch_Returned texts outs :
  post_anonymize_batch (BatchIn.mk texts) = Returned (BatchOut.mk outs) <->
  total_bytes texts <= MAX_PAYLOAD /\ many texts = Ok outs.
Proof.
  unfold anonymize_batch. cbn [BatchIn.texts]. fold (total_bytes texts).
  destruct (total_bytes texts >? MAX_PAYLOAD) eqn:E.
  - split; [discriminate|]. intros [H _]. exfalso. apply Z.gtb_lt in E. lia.
  - assert (total_bytes texts <= MAX_PAYLOAD).
    { destruct (Z.gtb_spec (total_bytes texts) MAX_PAYLOAD); [discriminate | lia]. }
    destruct (many texts) as [out|e]; split.
    + intros [= ->]. now split.
    + intros [_ [= ->]]. reflexivity.
    + discriminate.
    + intros [_ H']. discriminate.
Qed.

(** X23.  When the batched pipeline yields the documents of the single
    calls, the endpoint [anonymize_batch] returns a list of outputs exactly
    when the texts of the batch have together at most [MAX_PAYLOAD] bytes
    and the endpoint [anonymize] returns, for each text of the batch in
    order, the corresponding output.  A batch that is served is thus
    served text by text as the single endpoint would serve it; a batch can
    be refused although each of its texts alone is served. *)
Theorem batch_endpoint_pointwise (texts outs : list str) :
  _nlp_pipe texts = map _nlp texts ->
  (post_anonymize_batch (BatchIn.mk texts) = Returned (BatchOut.mk outs) <->
   total_bytes texts <= MAX_PAYLOAD /\
   Forall2 (fun t o => post_anonymize (SingleIn.mk t) = Returned (SingleOut.mk o))
           texts outs).
Proof.
  intros Hpipe. rewrite anonymize_batch_Returned.
  rewrite (batch_Ok_iff finditer _dt_parse_year phonenumber PhoneNumberMatcher
             is_possible_number _nlp _nlp_pipe texts outs Hpipe).
  split; intros [Hsize H]; (split; [exact Hsize|]).
  - assert (Hin : forall t, In t texts -> len_bytes (encode t) <= MAX_PAYLOAD).
    { intros t Ht. apply total_bytes_In in Ht. lia. }
    clear Hsize Hpipe. induction H as [|t o texts outs Ho _ IH]; constructor.
    + apply anonymize_Returned. split; [apply Hin; now left | exact Ho].
    + apply IH. intros x Hx. apply Hin. now right.
  - eapply Forall2_impl; [|exact H]. intros t o Ho.
    now apply anonymize_Returned in Ho.
Qed.

(** X24.  The endpoints count bytes, not characters.  [anonymize] answers
    413 exactly when the UTF-8 encoding of the text is longer than
    [MAX_PAYLOAD], which on the code points of the embedding (below 256)
    is one byte for each character plus one more for each character
    outside ASCII; it never returns an output for a text of more than
    [MAX_PAYLOAD] characters, and [anonymize_batch] never returns outputs
    for texts that have together more than [MAX_PAYLOAD] characters. *)
Theorem size_gate_counts_bytes (t : str) (texts : list str) :
  (post_anonymize (SingleIn.mk t) = HTTPException 413 (py "Payload too large") <->
   MAX_PAYLOAD < len t + len (filter wide t)) /\
  (forall o, post_anonymize (SingleIn.mk t) = Returned o -> len t <= MAX_PAYLOAD) /\
  (forall outs, post_anonymize_batch (BatchIn.mk texts) = Returned outs ->
     fold_right Z.add 0 (map len texts) <= MAX_PAYLOAD).
Proof.
  split; [|split].
  - unfold anonymize. cbn [SingleIn.text]. rewrite <- encode_len.
    destruct (Z.gtb_spec (len_bytes (encode t)) MAX_PAYLOAD) as [H|H].
    + split; [intros _; lia | reflexivity].
    + split; [|lia]. destruct (single t); discriminate.
  - intros [o] H. apply anonymize_Returned in H. pose proof (encode_len_ge t). lia.
  - intros [outs] H. apply anonymize_batch_Returned in H. destruct H as [H _].
    assert (Hle : fold_right Z.add 0 (map len texts) <= total_bytes texts).
    { clear. induction texts as [|x texts IH]; [unfold total_bytes; simpl; lia|].
      rewrite total_bytes_cons. simpl. pose proof (encode_len_ge x). lia. }
    lia.
Qed.

End ApiFacts.

(** With a limit of 20 bytes: a batch of 16 bytes is served as the single
    endpoint serves its texts; a batch of 32 bytes is refused, each of its
    texts alone being served. *)
Lemma batch_endpoint_pointwise_witness :
  let texts := [py "a@b.fr"; py "0611223344"] in
  let outs := [py "*@b.fr"; py "XXXXXXXX44"] in
  let big := [py "0611223344000000"; py "0611223344000000"] in
  let post := anonymize stub_finditer stub_dt_parse_year unit stub_matcher
                stub_possible stub_nlp 20 in
  let post_batch := anonymize_batch stub_finditer stub_dt_parse_year unit stub_matcher
                      stub_possible stub_pipe 20 in
  stub_pipe texts = map stub_nlp texts /\
  post_batch (BatchIn.mk texts) = Returned (BatchOut.mk outs) /\
  Forall2 (fun t o => post (SingleIn.mk t) = Returned (SingleOut.mk o)) texts outs /\
  post_batch (BatchIn.mk big) = HTTPException 413 (py "Batch payload too large") /\
  exists o, post (SingleIn.mk (py "0611223344000000")) = Returned o.
Proof.
  intros texts outs big post post_batch.
  assert (Hpipe : stub_pipe texts = map stub_nlp texts) by reflexivity.
  assert (Hb : post_batch (BatchIn.mk texts) = Returned (BatchOut.mk outs))
    by (vm_compute; reflexivity).
  split; [exact Hpipe|]. split; [exact Hb|].
  split; [|split; [vm_compute; reflexivity | eexists; vm_compute; reflexivity]].
  exact (proj2 (proj1 (batch_endpoint_pointwise stub_finditer stub_dt_parse_year unit
                         stub_matcher stub_possible stub_nlp stub_pipe 20 texts outs
                         Hpipe) Hb)).
Defined.

(** A text on which the regex rules find nothing and the phone matcher
    raises: [anonymize_all] raises what the matcher raises. *)
Lemma anonymize_all_failure_witness :
  let text := py "!b" in
  let e := ExternalError "phonenumbers" in
  _gather_regex stub_finditer stub_dt_parse_year text = Ok [] /\
  stub_matcher_failing text = Raise e /\
  anonymize_all stub_finditer stub_dt_parse_year unit stub_matcher_failing
    stub_possible stub_nlp_failing text = Raise e.
Proof.
  intros text e.
  assert (Hr : _gather_regex stub_finditer stub_dt_parse_year text = Ok [])
    by reflexivity.
  assert (Hp : stub_matcher_failing text = Raise e) by reflexivity.
  split; [exact Hr|]. split; [exact Hp|].
  apply (proj1 (anonymize_all_failure stub_finditer stub_dt_parse_year unit
                  stub_matcher_failing stub_possible stub_nlp_failing text e)).
  right. left. exists []. now split.
Defined.

(** With a limit of 20 bytes, a text of eleven characters outside ASCII has
    22 bytes and is refused. *)
Lemma size_gate_counts_bytes_witness :
  let t := repeat (ascii_of_nat 233) 11 in
  len t = 11 /\ len_bytes (encode t) = 22 /\
  anonymize stub_finditer stub_dt_parse_year unit stub_matcher stub_possible
    stub_nlp 20 (SingleIn.mk t) = HTTPException 413 (py "Payload too large").
Proof.
  intros t. split; [reflexivity|]. split; [reflexivity|].
  apply (proj1 (size_gate_counts_bytes stub_finditer stub_dt_parse_year unit
                  stub_matcher stub_possible stub_nlp stub_pipe 20 t [])).
  unfold t, len. simpl. lia.
Defined.
